(* ===== verification/_CoqProject ===== *)
-Q . S2P
Prelude.v
JsFloat.v
JsObject.v
ShortKey.v
Url.v
Shortener.v
App.v
JsonSyntax.v
Json.v
Scenario.v
View.v
Dom.v
