(* ===== verification/Prelude.v ===== *)
(** * A verification library for the React URL shortener

    The program is one React function component, [UrlShortener], in
    [src/src/UrlShortener.jsx] (171 lines).  It keeps three pieces of React
    state ([inputUrl], [urlMap], [error]), loads [urlMap] from the
    [localStorage] slot ['urlShortenerData'] in a mount effect, writes it
    back in a second effect whenever it changes, and offers three handlers:
    [handleShorten] (validate the input, reject duplicates, draw a fresh
    random six-character key in a do-while loop, insert
    [{originalUrl, clicks: 0}]), [handleRedirect] (increment the entry's
    click counter and [window.open] its URL) and [handleDelete].  The render
    function shows the form, the error paragraph and a table with one row
    per entry of [Object.entries(urlMap)].

    ** Files, in dependency order, and what they model

    - [Prelude] (this file): Latin-1 code-unit character classes, string
      and digit helpers (canonical decimal numerals are determined by their
      value), a state monad with divergence ([StateM], stdpp's [x ← m; k]
      notation), the hint databases [js] and [js_rw] and the tactics
      [inv_eq], [vm_decide] and [code_lits].
    - [JsFloat] (Module [Binary64]): binary64 round-to-nearest-even written
      out on [Z] for the two number operations of the program:
      [Math.floor(Math.random() * 62)] (line 7, [floor_mul]) and
      [entry.clicks + 1] (line 72, [add1]); [Math.random()] is a double
      [mant / 2^expo] in [0,1) ([double01], V8's 52-bit draws [v8_random]).
    - [JsObject] (Module [JsObj]): a JavaScript object as its own
      properties in creation order, with property get ([urlMap[key]]),
      CreateDataProperty ([set]), [delete] ([del]), object spread
      ([spread]), and [Object.keys]/[Object.entries] in ES2020 order (array
      indices ascending, then strings in creation order); [to_map] abstracts
      it to a stdpp [gmap] and every operation is shown to refine the map
      operation; enumeration of a copy is the identity ([entries_idem]).
    - [ShortKey]: [generateShortKey] over a stream of [Math.random] results
      and the do-while loop of lines 55-58, with fuel ([gen_loop]) and as a
      big-step relation ([loop_runs]).
    - [Url]: [isValidUrl] (lines 10-17) against the interface [UrlParser]
      (does [new URL(s)] succeed); [Whatwg] implements it by the failure
      conditions of the WHATWG basic URL parser, with the host parser's
      UTF-8 encoding, percent-decoding and UTF-8 decoding (the decoder of
      the Encoding standard, invalid sequences becoming U+FFFD) and its
      IPv4 and IPv6 parsers.
    - [Shortener]: [Entry], [UiState], the React update queues ([World],
      [Update], [commit]), the four handlers, and [Spec]: the spec's
      abstract store ([gmap string Entry]) with [shorten], [open],
      [delete] and its step relation.
    - [App]: the lifecycle: the two effects ([load_effect], [save_effect]),
      [mount] with and without StrictMode's double effect run, events
      ([dispatch], [react_step]) and the reachable states; it uses JSON
      through the interface [JsonCodec].
    - [JsonSyntax] (Module [Json]): the JSON text grammar [JSON.parse]
      accepts (recursive descent with fuel) and the string and integer
      printing of [JSON.stringify].
    - [Json] (Module [JsonStore]): [JSON.stringify(urlMap)] and
      [JSON.parse(data)] for the store, and the instance [browser_json] of
      [JsonCodec] proving its laws.
    - [Scenario]: the component with [whatwg_parser], [browser_json] and a
      fixed random stream; the spec's scenario and the concrete runs that
      instantiate the general theorems.
    - [View]: the render function (lines 83-157) as data: the page's
      input value, error paragraph and table rows.
    - [Dom] (Module [Dom]): the JSX of lines 83-157 as the element tree
      React commits (tags, keys, attributes, inline styles, handlers as
      data, texts) and the style objects [thStyle] and [tdStyle] (lines
      160-170); [View.render] keeps the rows and texts of the same JSX
      for the lifecycle theorems.

    ** What is proved

    - Handlers (Shortener): each handler refines the spec's operation
      ([handleShorten_refines], [handleRedirect_refines],
      [handleDelete_refines]); shortening a new valid URL inserts exactly
      one entry under a fresh alphanumeric key and terminates once the
      stream yields a free key ([handleShorten_inserts]).
    - Lifecycle (App): in every reachable state the keys of [urlMap] are
      distinct and the slot holds [JSON.stringify(urlMap)]
      ([reachable_inv]); every event is a step of the spec's store
      machine ([step_refines]); reloading restores the store
      ([reload_restores]); counters stay in [0, 2^53] ([reachable_clicks]);
      every stored URL passed the trim and [isValidUrl] checks
      ([reachable_urls_valid], URL validation composed with the
      lifecycle); from every state the store can be
      emptied by delete events ([can_empty_store]); the three mount
      behaviours the spec does not describe ([corrupt_storage_crashes],
      [null_storage_crashes]: a stored "null", or an object with a
      [null] entry, crashes the render,
      [strict_mount_loses_data]).  The invariants are proved by one
      induction principle on reachable states ([reachable_invariant],
      [reachable_map]).
    - JSON (Json): [JSON.parse(JSON.stringify(m))] gives the entries of [m]
      back ([parse_stringify_store]); the lemmas [parse_store_wf] (parsed
      maps have distinct keys) and [parse_text_complete] (the fuel never
      limits the parser) discharge the codec's laws and its bounds.
    - Keys and numbers (ShortKey, JsFloat): key shape
      ([generateShortKey_shape]) and loop termination
      ([gen_loop_first_free]); the index is in [0, 62)
      ([floor_mul_range]); [clicks + 1] is exact below 2^53 and saturates
      there ([clicks_after]).
    - The empty-string key (Shortener): when the only entry holding the
      input URL is under the key "", the spec reports a duplicate but
      [handleShorten] adds a second entry ([empty_key_duplicate_missed]).
    - URL (Url): accepted input starts with a scheme
      ([parse_ok_scheme]); every URL of a non-special scheme whose body
      does not start with '/' is accepted, "javascript:alert(1)" among
      them ([non_special_scheme_valid]); [http://a.b.c.d] with
      canonical decimal parts is valid exactly when every part is at most
      255 ([dotted_quad_valid]); a port of digits is valid exactly when
      its value is at most 65535 ([port_range_valid]); the UTF-8 bytes
      of a host written as percent-escapes are decoded back before it is
      checked ([percent_encoded_host_valid]); UTF-8 decoding inverts UTF-8
      encoding ([utf8_roundtrip]); a host with a byte that never occurs in
      UTF-8 is rejected ([invalid_utf8_host_rejected]); an IPv6 address
      written in full is parsed back to its pieces ([ipv6_roundtrip]).
    - View: the table lists each entry once in [Object.keys] order
      ([render_table]), and a reload in any reachable state shows the same
      table with an empty input and no error ([reload_shows_same_table]:
      mount, JSON and render composed).
    - Element tree (Dom): the page's handlers in document order
      ([render_dom_handlers]); every element with an [href] is a row
      anchor whose click prevents the navigation and opens its key
      ([render_dom_links]); in every reachable state the keyed elements
      are the rows, keyed by their short keys, and sibling keys are
      distinct ([reachable_dom_keys]).
    - Scenario: the concrete runs that instantiate the general theorems,
      and executable examples: the spec's scenario (section 8, property
      7), a reload with a stored key "", and an untrimmed URL stored next
      to the trimmed one; [View] has one more, all-digit keys listed
      first.

    ** Bounds and fuel

    [handleShorten] takes a fuel bound on the iterations of the key loop;
    [handleShorten_inserts] shows that [i+1] iterations suffice when the
    [i]-th candidate key is free, so the model returns whenever the browser
    does.  [JSON.parse] is given fuel one more than the length of the text,
    which bounds the nesting depth: a successful parse consumes at least
    one character per unit of fuel it uses, so [parse_text_complete] shows
    the text parses with this fuel exactly when it parses with some fuel;
    [parse_stringify_store] shows every stringified store parses.  Counters are kept as integers with
    binary64 rounding of [+ 1]; stored counters above 2^53 are not
    reachable ([reachable_clicks]).  The IPv6 parser's loops get fuel one
    more than the length of their input, and more fuel gives the same
    result ([v6_loop_fuel_le], [v4_section_fuel]).  The concrete runs use
    fuel 1.

    ** Not modelled

    How the browser lays out the element tree and interprets the styles
    (the tree and the style objects are data), React's diffing of two
    trees (only the distinctness of sibling keys it relies on), the
    UTS 46 (IDNA) mapping of non-ASCII code points in domains and the
    Punycode check of "xn--" labels (they need the Unicode tables: a
    non-ASCII code point is taken as a valid letter, U+FFFD from an
    invalid UTF-8 sequence is rejected as UTS 46 disallows it),
    the rounding of JSON numbers to binary64 (numbers are kept exactly),
    stored JSON values other than an object of entries
    [{originalUrl: string, clicks: integer}] and the values the render
    throws on ([null], an object or array with a [null] member): a
    number, a string, an entry of another shape (the render would show
    empty cells or throw, depending on the JavaScript value; the mount is
    [MountUnsupported]),
    code units above 255, other tabs sharing the storage slot (a non-goal
    of the spec), and React's batching of several events into one render
    (each event is committed before the next). *)

From Stdlib Require Export ZArith Lia Ascii.
From Stdlib Require String.
From stdpp Require Export base gmap strings list sorting.

Declare Scope js_scope.
Delimit Scope js_scope with js.

Create HintDb js discriminated.
Create Rewrite HintDb js_rw.

(** ** Characters

    JavaScript strings are sequences of UTF-16 code units.  The model keeps
    the code units below 256 (Latin-1), one [ascii] per code unit; every
    character the program itself produces is ASCII. *)

Definition code (c : ascii) : Z := Z.of_nat (nat_of_ascii c).

Definition in_range (lo hi : Z) (c : ascii) : bool :=
  (lo <=? code c)%Z && (code c <=? hi)%Z.

Definition is_ascii_upper (c : ascii) : bool := in_range 65 90 c.
Definition is_ascii_lower (c : ascii) : bool := in_range 97 122 c.
Definition is_ascii_alpha (c : ascii) : bool := is_ascii_upper c || is_ascii_lower c.
Definition is_ascii_digit (c : ascii) : bool := in_range 48 57 c.
Definition is_ascii_alnum (c : ascii) : bool := is_ascii_alpha c || is_ascii_digit c.

Fixpoint str_forallb (p : ascii → bool) (s : string) : bool :=
  match s with
  | EmptyString => true
  | String c s' => p c && str_forallb p s'
  end.

Fixpoint str_existsb (p : ascii → bool) (s : string) : bool :=
  match s with
  | EmptyString => false
  | String c s' => p c || str_existsb p s'
  end.

Fixpoint drop_while (p : ascii → bool) (l : list ascii) : list ascii :=
  match l with
  | [] => []
  | c :: l' => if p c then drop_while p l' else l
  end.

Fixpoint take_while (p : ascii → bool) (l : list ascii) : list ascii :=
  match l with
  | [] => []
  | c :: l' => if p c then c :: take_while p l' else []
  end.

(** The value of a hexadecimal digit. *)
Definition hex_value (c : ascii) : option Z :=
  if is_ascii_digit c then Some (code c - 48)%Z
  else if in_range 97 102 c then Some (code c - 87)%Z
  else if in_range 65 70 c then Some (code c - 55)%Z
  else None.

(** The value of a run of decimal digits. *)
Definition dec_val (l : list ascii) : Z := foldl (λ acc c, acc * 10 + (code c - 48))%Z 0%Z l.

(** Remove the leading and trailing characters satisfying [p]. *)
Definition strip (p : ascii → bool) (l : list ascii) : list ascii :=
  rev (drop_while p (rev (drop_while p l))).

Lemma take_drop_while_app (p : ascii → bool) (l : list ascii) c r :
  Forall (λ x, p x = true) l → p c = false →
  take_while p (l ++ c :: r) = l ∧ drop_while p (l ++ c :: r) = c :: r.
Proof.
  induction 1 as [|x l Hx _ IH]; intros Hc; simpl; [by rewrite Hc|].
  rewrite Hx. destruct (IH Hc) as [-> ->]. done.
Qed.

Lemma drop_while_app_stop (p : ascii → bool) (x y : list ascii) c :
  p c = false → drop_while p (x ++ c :: y) = drop_while p x ++ c :: y.
Proof. intros Hc. induction x as [|z x IH]; simpl; [by rewrite Hc|]. by destruct (p z). Qed.

Lemma drop_while_suffix (p : ascii → bool) (x : list ascii) : ∃ pre, x = pre ++ drop_while p x.
Proof.
  induction x as [|z x [pre IH]]; [by exists []|]. simpl.
  destruct (p z); [exists (z :: pre); simpl; by f_equal|by exists []].
Qed.

(** Stripping [a ++ c :: l], where [a] does not start with a stripped
    character and [c] is not one, keeps [a ++ [c]] and a prefix of [l]. *)
Lemma strip_prefix (p : ascii → bool) (a l : list ascii) c :
  drop_while p (a ++ c :: l) = a ++ c :: l → p c = false →
  ∃ l' r, strip p (a ++ c :: l) = a ++ c :: l' ∧ l = l' ++ r.
Proof.
  intros Ha Hc. unfold strip. rewrite Ha, rev_app_distr. cbn [rev]. rewrite <- app_assoc. cbn [app].
  rewrite drop_while_app_stop by done. rewrite rev_app_distr. cbn [rev]. rewrite rev_involutive, <- app_assoc.
  destruct (drop_while_suffix p (rev l)) as [pre Hpre].
  exists (rev (drop_while p (rev l))), (rev pre). split; [done|].
  rewrite <- (rev_involutive l) at 1. rewrite Hpre at 1. by rewrite rev_app_distr.
Qed.

Lemma dec_val_snoc (l : list ascii) c : dec_val (l ++ [c]) = (dec_val l * 10 + (code c - 48))%Z.
Proof. unfold dec_val. by rewrite foldl_app. Qed.

(** ** A state monad with divergence

    Handlers of the component run against a world (the React update queue,
    the browser's side-effect trace, the random cursor).  They are written in
    this monad with stdpp's [x ← m; k] notation; [None] is a run that does
    not finish (a loop out of fuel). *)

Definition StateM (S A : Type) : Type := S → option (A * S).

#[export] Instance StateM_ret S : MRet (StateM S) := λ A x s, Some (x, s).
#[export] Instance StateM_bind S : MBind (StateM S) :=
  λ A B k m s, match m s with Some (x, s') => k x s' | None => None end.

Definition modify_st {S} (f : S → S) : StateM S unit := λ s, Some (tt, f s).
Definition diverge {S A} : StateM S A := λ _, None.

Lemma bind_some {S A B} (m : StateM S A) (k : A → StateM S B) (s s' : S) (x : A) :
  m s = Some (x, s') → (m ≫= k) s = k x s'.
Proof. intros H. unfold mbind, StateM_bind. by rewrite H. Qed.

Lemma bind_none {S A B} (m : StateM S A) (k : A → StateM S B) (s : S) :
  m s = None → (m ≫= k) s = None.
Proof. intros H. unfold mbind, StateM_bind. by rewrite H. Qed.

Lemma bind_inv {S A B} (m : StateM S A) (k : A → StateM S B) (s s'' : S) (y : B) :
  (m ≫= k) s = Some (y, s'') → ∃ x s', m s = Some (x, s') ∧ k x s' = Some (y, s'').
Proof.
  unfold mbind, StateM_bind. destruct (m s) as [[x s']|]; [eauto|done].
Qed.

Lemma ret_run {S A} (x : A) (s : S) : (mret x : StateM S A) s = Some (x, s).
Proof. reflexivity. Qed.

Lemma modify_run {S} (f : S → S) (s : S) : modify_st f s = Some (tt, f s).
Proof. reflexivity. Qed.

#[export] Hint Rewrite @ret_run @modify_run : js_rw.

(** ** Shared lemmas on strings and lists *)

Lemma filter_all {A} (P : A → Prop) `{∀ x, Decision (P x)} (l : list A) :
  Forall P l → filter P l = l.
Proof. induction 1 as [|x l Hx _ IH]; [done|]. by rewrite filter_cons_True, IH. Qed.

Lemma filter_none {A} (P : A → Prop) `{∀ x, Decision (P x)} (l : list A) :
  Forall (λ x, ¬ P x) l → filter P l = [].
Proof. induction 1 as [|x l Hx _ IH]; [done|]. by rewrite filter_cons_False, IH. Qed.

Lemma list_ascii_of_string_app (s t : string) :
  String.list_ascii_of_string (String.append s t) =
  String.list_ascii_of_string s ++ String.list_ascii_of_string t.
Proof. induction s as [|c s IH]; [done|]. simpl. by rewrite IH. Qed.

(** [strip] leaves a list alone whose first and last elements are kept. *)
Lemma strip_id (p : ascii → bool) (l : list ascii) :
  (∀ c, head l = Some c → p c = false) → (∀ c, last l = Some c → p c = false) → strip p l = l.
Proof.
  intros Hh Hl. unfold strip. destruct l as [|c l']; [done|].
  cbn [drop_while]. rewrite (Hh c) by done. clear Hh.
  induction l' as [|x l'' _] using rev_ind; [simpl in *; by rewrite (Hl c)|].
  rewrite app_comm_cons, rev_app_distr. cbn [rev app drop_while].
  rewrite (Hl x) by (by rewrite app_comm_cons, last_snoc). simpl. by rewrite rev_app_distr, rev_involutive.
Qed.

Lemma str_forallb_app (p : ascii → bool) (s1 s2 : string) :
  str_forallb p (String.append s1 s2) = str_forallb p s1 && str_forallb p s2.
Proof. induction s1 as [|c s1 IH]; simpl; [done|]. by rewrite IH, andb_assoc. Qed.

Lemma str_forallb_Forall (p : ascii → bool) (s : string) :
  str_forallb p s = true ↔ Forall (λ c, p c = true) (String.list_ascii_of_string s).
Proof. induction s as [|c s IH]; simpl; [split; auto|]. by rewrite andb_true_iff, Forall_cons, IH. Qed.

Lemma str_forallb_existsb (p : ascii → bool) (s : string) :
  str_existsb p s = negb (str_forallb (λ c, negb (p c)) s).
Proof. induction s as [|c s IH]; simpl; [done|]. rewrite IH. by destruct (p c). Qed.

Lemma in_range_spec lo hi c :
  in_range lo hi c = true ↔ (lo ≤ code c ≤ hi)%Z.
Proof. unfold in_range. rewrite andb_true_iff, !Z.leb_le. done. Qed.

Lemma code_bound (c : ascii) : (0 ≤ code c < 256)%Z.
Proof. unfold code. pose proof (nat_ascii_bounded c). lia. Qed.

#[export] Hint Resolve code_bound : js.

Lemma code_inj (c d : ascii) : code c = code d → c = d.
Proof.
  unfold code. intros H. apply Nat2Z.inj in H.
  by rewrite <- (ascii_nat_embedding c), <- (ascii_nat_embedding d), H.
Qed.

(** The byte of value [x], for [x] in [0, 255]. *)
Lemma code_of_Z (x : Z) : (0 ≤ x < 256)%Z → code (ascii_of_nat (Z.to_nat x)) = x.
Proof. intros Hx. unfold code. rewrite nat_ascii_embedding by lia. lia. Qed.

(** Shifting [a] left by [k] bits and or-ing in [b] below [2^k] is
    [a * 2^k + b]. *)
Lemma lor_shiftl_low (a b : Z) (k : Z) :
  (0 ≤ k)%Z → (0 ≤ b < 2 ^ k)%Z → Z.lor (Z.shiftl a k) b = (a * 2 ^ k + b)%Z.
Proof.
  intros Hk Hb. rewrite Z.shiftl_mul_pow2 by done.
  assert (Z.land (a * 2 ^ k) b = 0)%Z as Hand.
  { apply Z.bits_inj'. intros i Hi. rewrite Z.land_spec, Z.bits_0.
    destruct (Z.lt_ge_cases i k) as [Hlt|Hge].
    - by rewrite Z.mul_pow2_bits_low.
    - rewrite <- (Z.mod_small b (2 ^ k)) by done. by rewrite Z.mod_pow2_bits_high, andb_false_r by lia. }
  by rewrite <- Z.lxor_lor, <- Z.add_nocarry_lxor.
Qed.

(** Canonical decimal numerals: digits, no leading zero. *)
Definition canonical_digits (ds : list ascii) : Prop :=
  ds ≠ [] ∧ Forall (λ c, is_ascii_digit c = true) ds ∧
  (ds = ["0"%char] ∨ head ds ≠ Some "0"%char).

Lemma dec_val_foldl (acc : Z) (l : list ascii) :
  foldl (λ acc c, acc * 10 + (code c - 48))%Z acc l = (acc * 10 ^ Z.of_nat (length l) + dec_val l)%Z.
Proof.
  induction l as [|c l IH] using rev_ind; [unfold dec_val; simpl; lia|].
  rewrite foldl_app, dec_val_snoc, length_app, IH, Nat2Z.inj_add, Z.pow_add_r by lia.
  change (Z.of_nat (length [c])) with 1%Z. rewrite Z.pow_1_r. simpl. ring.
Qed.

Lemma dec_val_bound (l : list ascii) :
  Forall (λ c, is_ascii_digit c = true) l → (0 ≤ dec_val l < 10 ^ Z.of_nat (length l))%Z.
Proof.
  induction l as [|c l IH] using rev_ind; intros Hl; [unfold dec_val; simpl; lia|].
  apply Forall_app in Hl as [Hl Hc]. apply Forall_singleton, in_range_spec in Hc.
  specialize (IH Hl). rewrite dec_val_snoc, length_app, Nat2Z.inj_add, Z.pow_add_r by lia.
  change (Z.of_nat (length [c])) with 1%Z. rewrite Z.pow_1_r. nia.
Qed.

Lemma dec_val_inj_length (a b : list ascii) :
  length a = length b →
  Forall (λ c, is_ascii_digit c = true) a → Forall (λ c, is_ascii_digit c = true) b →
  dec_val a = dec_val b → a = b.
Proof.
  revert b. induction a as [|ca a IH] using rev_ind; intros b Hlen Ha Hb Hv.
  - by destruct b.
  - induction b as [|cb b _] using rev_ind; [rewrite length_app in Hlen; simpl in Hlen; lia|].
    rewrite !length_app in Hlen. simpl in Hlen.
    apply Forall_app in Ha as [Ha Hca], Hb as [Hb Hcb].
    apply Forall_singleton, in_range_spec in Hca, Hcb. rewrite !dec_val_snoc in Hv.
    assert (code ca = code cb) as Hc by lia.
    rewrite (IH b), (code_inj _ _ Hc) by (done || lia). done.
Qed.

Lemma canonical_lower (c : ascii) (l : list ascii) :
  canonical_digits (c :: l) → c ≠ "0"%char → (10 ^ Z.of_nat (length l) ≤ dec_val (c :: l))%Z.
Proof.
  intros (_ & Hd & _) Hc. apply Forall_cons in Hd as [Hc' Hl].
  apply in_range_spec in Hc'. pose proof (dec_val_bound l Hl).
  assert (code c ≠ 48)%Z by (intros H48; apply Hc, code_inj, H48).
  unfold dec_val at 1. simpl. rewrite dec_val_foldl. nia.
Qed.

(** A canonical numeral is determined by its value. *)
Lemma canonical_inj (a b : list ascii) :
  canonical_digits a → canonical_digits b → dec_val a = dec_val b → a = b.
Proof.
  assert (Hzero : ∀ l, canonical_digits l → l ≠ ["0"%char] → (1 ≤ dec_val l)%Z).
  { intros [|c l] Hl Hne; [by destruct Hl|].
    assert (c ≠ "0"%char) as Hc.
    { intros ->. destruct Hl as (_ & _ & [?|Hh]); [done|by apply Hh]. }
    pose proof (canonical_lower c l Hl Hc). pose proof (Z.pow_pos_nonneg 10 (Z.of_nat (length l))). lia. }
  intros Ha Hb Hv.
  destruct (decide (a = ["0"%char])) as [->|Ha0], (decide (b = ["0"%char])) as [->|Hb0]; try done.
  all: assert (dec_val ["0"%char] = 0%Z) as H0 by reflexivity.
  { pose proof (Hzero b Hb Hb0). lia. }
  { pose proof (Hzero a Ha Ha0). lia. }
  destruct a as [|ca a]; [by destruct Ha|]. destruct b as [|cb b]; [by destruct Hb|].
  assert (∀ c l, canonical_digits (c :: l) → c :: l ≠ ["0"%char] → c ≠ "0"%char) as Hnz.
  { intros c l (_ & _ & [?|Hh]) Hne ->; [done|by apply Hh]. }
  pose proof (canonical_lower ca a Ha (Hnz _ _ Ha Ha0)) as La.
  pose proof (canonical_lower cb b Hb (Hnz _ _ Hb Hb0)) as Lb.
  pose proof (dec_val_bound (ca :: a) (proj1 (proj2 Ha))) as Ua.
  pose proof (dec_val_bound (cb :: b) (proj1 (proj2 Hb))) as Ub.
  simpl length in Ua, Ub. rewrite Nat2Z.inj_succ, Z.pow_succ_r in Ua, Ub by lia.
  assert (length a = length b) as Hlen.
  { destruct (Nat.lt_total (length a) (length b)) as [Hlt|[?|Hlt]]; [|done|];
      [assert (10 ^ Z.of_nat (S (length a)) ≤ 10 ^ Z.of_nat (length b))%Z
         by (apply Z.pow_le_mono_r; lia)
      |assert (10 ^ Z.of_nat (S (length b)) ≤ 10 ^ Z.of_nat (length a))%Z
         by (apply Z.pow_le_mono_r; lia)];
      rewrite Nat2Z.inj_succ, Z.pow_succ_r in * by lia; lia. }
  apply dec_val_inj_length; [simpl; lia|apply Ha|apply Hb|done].
Qed.

(** [inv_eq]: split an equation between two [Some]/pairs and substitute. *)
Ltac inv_eq :=
  repeat match goal with
  | H : Some _ = Some _ |- _ => injection H as H
  | H : (_, _) = (_, _) |- _ => injection H as H
  | H : ?x = ?x |- _ => clear H
  end; subst.

(** [vm_decide]: prove a decidable proposition about closed data by
    evaluating its decision procedure. *)
Ltac vm_decide := apply (bool_decide_unpack _); vm_compute; reflexivity.

(** [code_lits]: replace [code] of every character literal, in the goal
    and the hypotheses, by its value. *)
Ltac code_lits :=
  repeat match goal with
  | |- context [code (Ascii ?a ?b ?c ?d ?e ?f ?g ?h)] =>
      let v := eval vm_compute in (code (Ascii a b c d e f g h)) in
      change (code (Ascii a b c d e f g h)) with v
  | H : context [code (Ascii ?a ?b ?c ?d ?e ?f ?g ?h)] |- _ =>
      let v := eval vm_compute in (code (Ascii a b c d e f g h)) in
      change (code (Ascii a b c d e f g h)) with v in H
  end.
