(* ===== verification/JsFloat.v ===== *)
(** * IEEE-754 binary64 arithmetic of the program's two number operations

    [UrlShortener.jsx] computes with JavaScript numbers (binary64 doubles)
    in two places: the character index
    [Math.floor(Math.random() * chars.length)] of [generateShortKey]
    (line 7) and the click counter [entry.clicks + 1] of [handleRedirect]
    (line 72).  Both products and sums are exact integers scaled by a power
    of two, so the model writes the rounding out on [Z]: [round_ne] rounds a
    non-negative integer to 53 significant bits, ties to even, which is what
    binary64 multiplication and addition do (there is no overflow: every
    value here is below 2^60). *)

From S2P Require Import Prelude.
Local Open Scope Z_scope.

Module Binary64.

Definition prec : Z := 53.

(** Number of low-order bits of a non-negative integer that do not fit in
    the 53-bit significand. *)
Definition drop (x : Z) : Z := Z.max 0 (Z.log2 x + 1 - prec).

(** Round to nearest, ties to even, to 53 significant bits. *)
Definition round_ne (x : Z) : Z :=
  let k := drop x in
  if k =? 0 then x
  else
    let q := x / 2 ^ k in
    let r := x mod 2 ^ k in
    let h := 2 ^ (k - 1) in
    (if r <? h then q
     else if h <? r then q + 1
     else if Z.even q then q else q + 1) * 2 ^ k.

(** A double in [0,1), a result of [Math.random()], is [mant / 2^expo] with
    a significand below 2^53 and an exponent no larger than that of the
    least subnormal. *)
Record double01 := D01 { mant : Z; expo : Z }.

Definition valid01 (r : double01) : Prop :=
  0 ≤ mant r < 2 ^ prec ∧ 0 ≤ expo r ≤ 1074 ∧ mant r < 2 ^ expo r.

#[export] Instance valid01_dec r : Decision (valid01 r).
Proof. unfold valid01. apply _. Defined.

(** [Math.floor(r * n)] for a non-negative integer [n]: the product
    [n * mant / 2^expo] is rounded to a double, then floored.  (When the
    product is subnormal it is below 1 and both roundings floor to 0.) *)
Definition floor_mul (r : double01) (n : Z) : Z :=
  round_ne (n * mant r) / 2 ^ expo r.

(** [c + 1] for an integer-valued double [c ≥ 0]. *)
Definition add1 (c : Z) : Z := round_ne (c + 1).

(** V8's [Math.random] returns the 52 high bits of its xorshift128+ state
    as the fraction of a double in [1,2), minus one: a multiple of 2^-52. *)
Definition v8_random (bits : Z) : double01 := D01 (bits mod 2 ^ 52) 52.

(** ** Rounding lemmas *)

Lemma drop_nonneg x : 0 ≤ drop x.
Proof. unfold drop. lia. Qed.

Lemma drop_zero x : 0 ≤ x < 2 ^ prec → drop x = 0.
Proof.
  intros [Hx Hlt]. unfold drop.
  destruct (Z.eq_dec x 0) as [->|Hne]; [done|].
  assert (Z.log2 x < prec) by (apply Z.log2_lt_pow2; unfold prec in *; lia).
  lia.
Qed.

(** When bits are dropped, the weight of the highest dropped bit fits
    2^53 times in [x]. *)
Lemma drop_pos_bound x :
  0 < drop x → 2 ^ (drop x - 1) * 2 ^ prec ≤ x.
Proof.
  unfold drop. intros Hk.
  assert (0 < x).
  { destruct (Z.lt_ge_cases 0 x); [done|].
    rewrite Z.log2_nonpos in Hk by lia. unfold prec in Hk. lia. }
  rewrite <- Z.pow_add_r by (unfold prec in *; lia).
  replace (Z.max 0 (Z.log2 x + 1 - prec) - 1 + prec) with (Z.log2 x) by lia.
  apply Z.log2_spec. lia.
Qed.

Lemma round_ne_exact x : 0 ≤ x < 2 ^ prec → round_ne x = x.
Proof. intros H. unfold round_ne. by rewrite drop_zero. Qed.

(** Rounding decomposes [x = q * 2^k + r] and returns [q * 2^k] or
    [(q+1) * 2^k], the latter only when [r] is at least half of [2^k]. *)
Lemma round_ne_cases x :
  0 < drop x →
  round_ne x = x / 2 ^ drop x * 2 ^ drop x ∨
  (round_ne x = (x / 2 ^ drop x + 1) * 2 ^ drop x ∧
   2 ^ (drop x - 1) ≤ x mod 2 ^ drop x).
Proof.
  intros Hk. unfold round_ne.
  destruct (Z.eqb_spec (drop x) 0) as [|_]; [lia|].
  cbv zeta.
  destruct (Z.ltb_spec (x mod 2 ^ drop x) (2 ^ (drop x - 1))); [by left|].
  destruct (Z.ltb_spec (2 ^ (drop x - 1)) (x mod 2 ^ drop x)); [by right|].
  destruct (Z.even _); [by left | by right].
Qed.

Lemma round_ne_nonneg x : 0 ≤ x → 0 ≤ round_ne x.
Proof.
  intros Hx. destruct (Z.eq_dec (drop x) 0) as [Hk|Hk].
  { unfold round_ne. by rewrite Hk. }
  pose proof (drop_nonneg x).
  assert (0 < 2 ^ drop x) by (apply Z.pow_pos_nonneg; lia).
  assert (0 ≤ x / 2 ^ drop x) by (apply Z.div_pos; lia).
  destruct (round_ne_cases x) as [->|[-> _]]; nia.
Qed.

(** Rounding moves a value up by at most half the weight of the last
    kept bit. *)
Lemma round_ne_upper x :
  0 ≤ x → 2 * round_ne x ≤ 2 * x + 2 ^ drop x.
Proof.
  intros Hx. pose proof (drop_nonneg x) as Hk0.
  destruct (Z.eq_dec (drop x) 0) as [Hk|Hk].
  { unfold round_ne. rewrite Hk. simpl. lia. }
  assert (0 < 2 ^ drop x) by (apply Z.pow_pos_nonneg; lia).
  assert (Hh : 2 ^ drop x = 2 * 2 ^ (drop x - 1)).
  { rewrite <- Z.pow_succ_r by lia. f_equal. lia. }
  pose proof (Z.div_mod x (2 ^ drop x) ltac:(lia)) as Hdm.
  pose proof (Z.mod_pos_bound x (2 ^ drop x) ltac:(lia)).
  destruct (round_ne_cases x) as [->|[-> Hr]]; lia.
Qed.

(** ** The character index of [generateShortKey] *)

(** The rounded product, floored, stays below [n]. *)
Lemma floor_mul_bound (r : double01) (n : Z) :
  valid01 r → 0 < n → 0 ≤ floor_mul r n < n.
Proof.
  intros (Hm & He & Hme) Hn. unfold floor_mul.
  set (x := n * mant r).
  assert (0 ≤ x) by (subst x; nia).
  assert (0 < 2 ^ expo r) by (apply Z.pow_pos_nonneg; lia).
  split; [apply Z.div_pos; [apply round_ne_nonneg|]; lia|].
  apply Z.div_lt_upper_bound; [lia|].
  assert (x + n ≤ 2 ^ expo r * n) by (subst x; nia).
  pose proof (round_ne_upper x ltac:(lia)).
  destruct (Z.eq_dec (drop x) 0) as [Hk|Hk].
  - rewrite Hk in *. simpl in *. lia.
  - pose proof (drop_pos_bound x ltac:(pose proof (drop_nonneg x); lia)).
    assert (Hh : 2 ^ drop x = 2 * 2 ^ (drop x - 1)).
    { rewrite <- Z.pow_succ_r by (pose proof (drop_nonneg x); lia). f_equal. lia. }
    assert (2 ^ (drop x - 1) < n).
    { subst x. unfold prec in *. nia. }
    lia.
Qed.

(** C21 [Math.floor(Math.random() * n)] is a valid index of a string of
    length [n]: whatever double in [0,1) the random source returns, the
    rounded product never reaches [n]. *)
Theorem floor_mul_range (r : double01) (n : Z) :
  valid01 r → 0 < n → 0 ≤ floor_mul r n < n.
Proof. apply floor_mul_bound. Qed.

(** ** The click counter *)

Lemma add1_exact c : 0 ≤ c < 2 ^ prec → add1 c = c + 1.
Proof.
  intros Hc. unfold add1.
  destruct (Z.eq_dec (c + 1) (2 ^ prec)) as [Heq|Hne].
  - rewrite Heq. reflexivity.
  - apply round_ne_exact. lia.
Qed.

Lemma add1_top : add1 (2 ^ prec) = 2 ^ prec.
Proof. vm_compute. reflexivity. Qed.

Lemma add1_bounded c : 0 ≤ c ≤ 2 ^ prec → 0 ≤ add1 c ≤ 2 ^ prec.
Proof.
  intros Hc. destruct (Z.eq_dec c (2 ^ prec)) as [->|Hne].
  - rewrite add1_top. unfold prec. lia.
  - rewrite add1_exact by lia. lia.
Qed.

(** C22 After [n] clicks from a fresh entry the counter reads
    [min(n, 2^53)]: every increment is exact up to 2^53, where
    [clicks + 1] rounds back to 2^53 and the counter stops. *)
Theorem clicks_after (n : nat) :
  Nat.iter n add1 0 = Z.min (Z.of_nat n) (2 ^ prec).
Proof.
  induction n as [|n IH]; [reflexivity|].
  rewrite Nat.iter_succ, IH.
  destruct (Z.lt_ge_cases (Z.of_nat n) (2 ^ prec)).
  - rewrite Z.min_l by lia. rewrite add1_exact by lia.
    rewrite Nat2Z.inj_succ. unfold prec in *. lia.
  - rewrite Z.min_r by lia. rewrite add1_top. unfold prec in *. lia.
Qed.

End Binary64.

#[export] Hint Resolve Binary64.round_ne_nonneg Binary64.drop_nonneg : js.
