(* ===== verification/JsObject.v ===== *)
(** * JavaScript ordinary objects used as dictionaries

    [urlMap] in [UrlShortener.jsx] is a plain JavaScript object from short
    keys to entries.  The program reads it with [urlMap[key]] (lines 47, 58,
    69), enumerates it with [Object.keys] and [Object.entries] (lines 46,
    107, 120), copies it with object spread (lines 60, 72, 78) and removes a
    key with [delete] (line 79).  The order in which ECMAScript enumerates
    own properties is observable (which duplicate [find] reports, the row
    order of the table), so an object is modelled as its list of own data
    properties in creation order, and enumeration follows
    OrdinaryOwnPropertyKeys: array-index keys in ascending numeric order,
    then the other string keys in creation order.

    The abstraction [to_map] forgets the order; every operation is shown to
    refine the corresponding stdpp [gmap] operation. *)

From S2P Require Import Prelude.

Abbreviation jsobj V := (list (string * V)).

Module JsObj.

(** ** Array indices

    A property key is an array index when it is the canonical decimal
    numeral of an integer below 2^32 - 1. *)

Definition digit_val (c : ascii) : Z := (code c - 48)%Z.

Fixpoint dec_value_aux (acc : Z) (s : string) : Z :=
  match s with
  | EmptyString => acc
  | String c s' => dec_value_aux (acc * 10 + digit_val c)%Z s'
  end.

Definition dec_value (s : string) : Z := dec_value_aux 0 s.

Definition is_array_index (s : string) : bool :=
  match s with
  | EmptyString => false
  | String c rest =>
      str_forallb is_ascii_digit s
      && (negb (bool_decide (c = "0"%char)) || bool_decide (rest = ""))
      && (dec_value s <=? 4294967294)%Z
  end.

(** Properties of [Object.prototype]: [o[k]] finds them when [k] is not an
    own property. *)
Definition object_prototype_keys : list string :=
  ["constructor"; "__defineGetter__"; "__defineSetter__"; "hasOwnProperty";
   "__lookupGetter__"; "__lookupSetter__"; "isPrototypeOf";
   "propertyIsEnumerable"; "toString"; "valueOf"; "__proto__";
   "toLocaleString"].

Section Obj.
Context {V : Type}.
Implicit Types (o : jsobj V) (k : string) (v : V).

(** [o[k]] on an own data property. *)
Fixpoint get o k : option V :=
  match o with
  | [] => None
  | (k', v') :: o' => if bool_decide (k = k') then Some v' else get o' k
  end.

(** [o[k] = v] / [CreateDataProperty]: an existing property keeps its
    position, a new one is created last. *)
Fixpoint set o k v : jsobj V :=
  match o with
  | [] => [(k, v)]
  | (k', v') :: o' =>
      if bool_decide (k = k') then (k', v) :: o' else (k', v') :: set o' k v
  end.

(** [delete o[k]]. *)
Fixpoint del o k : jsobj V :=
  match o with
  | [] => []
  | (k', v') :: o' => if bool_decide (k = k') then o' else (k', v') :: del o' k
  end.

Definition index_le (p1 p2 : string * V) : Prop := (dec_value p1.1 ≤ dec_value p2.1)%Z.

#[local] Instance index_le_dec : RelDecision index_le.
Proof. intros p1 p2. unfold index_le. apply _. Defined.

(** OrdinaryOwnPropertyKeys, paired with the values: [Object.entries]. *)
Definition entries o : jsobj V :=
  merge_sort index_le (filter (λ p, is_array_index p.1 = true) o)
  ++ filter (λ p, is_array_index p.1 = false) o.

(** [Object.keys]. *)
Definition keys o : list string := (entries o).*1.

(** [{...o}]: the copy is created in the enumeration order of [o]. *)
Definition spread o : jsobj V := entries o.

(** [o[k]] as a condition: an own property is tested by the truthiness of
    its value, otherwise the prototype chain answers (its members are
    functions or objects, hence truthy). *)
Definition get_truthy (truthy : V → bool) o k : bool :=
  match get o k with
  | Some v => truthy v
  | None => bool_decide (k ∈ object_prototype_keys)
  end.

(** Own property keys are distinct. *)
Definition wf o : Prop := NoDup o.*1.

(** The abstraction: the dictionary an object denotes. *)
Definition to_map o : gmap string V := list_to_map o.

(** ** Refinement lemmas *)

Lemma get_to_map o k : get o k = to_map o !! k.
Proof.
  induction o as [|[k' v'] o IH]; cbn [get]; [done|].
  unfold to_map in *. rewrite list_to_map_cons, lookup_insert.
  case_bool_decide; case_decide; subst; congruence.
Qed.

Lemma to_map_set o k v : to_map (set o k v) = <[k:=v]> (to_map o).
Proof.
  induction o as [|[k' v'] o IH]; cbn [set]; [done|].
  unfold to_map in *. case_bool_decide as Hk; subst; rewrite !list_to_map_cons.
  - by rewrite insert_insert_eq.
  - rewrite IH. by apply insert_insert_ne.
Qed.

Lemma to_map_del o k : wf o → to_map (del o k) = delete k (to_map o).
Proof.
  unfold wf, to_map. induction o as [|[k' v'] o IH]; cbn [del]; intros Hnd.
  - by rewrite list_to_map_nil, delete_empty.
  - apply NoDup_cons in Hnd as [Hk' Hnd].
    case_bool_decide as Hk; subst; rewrite ?list_to_map_cons.
    + rewrite delete_insert_eq. symmetry. apply delete_id.
      by apply not_elem_of_list_to_map_1.
    + rewrite IH by done. symmetry. by apply delete_insert_ne.
Qed.

Lemma set_fst o k v : (set o k v).*1 = if bool_decide (k ∈ o.*1) then o.*1 else o.*1 ++ [k].
Proof.
  induction o as [|[k' v'] o IH]; [done|]. cbn [set].
  destruct (decide (k = k')) as [->|Hk].
  - rewrite bool_decide_true by done. rewrite !fmap_cons; simpl fst.
    rewrite bool_decide_true by set_solver. done.
  - rewrite bool_decide_false by done. rewrite !fmap_cons; simpl fst.
    rewrite IH, (bool_decide_ext (k ∈ k' :: o.*1) (k ∈ o.*1)) by set_solver.
    by destruct (bool_decide _).
Qed.

(** Creating a property that is not there appends it. *)
Lemma set_fresh o k v : k ∉ o.*1 → set o k v = o ++ [(k, v)].
Proof.
  induction o as [|[k' v'] o IH]; intros Hk; [done|]. cbn [set].
  rewrite fmap_cons, not_elem_of_cons in Hk. destruct Hk as [Hne Hk].
  rewrite bool_decide_false by done. by rewrite IH.
Qed.

Lemma get_elem o k v : wf o → (k, v) ∈ o → get o k = Some v.
Proof. intros Hwf Hin. rewrite get_to_map. by apply elem_of_list_to_map_1. Qed.

Lemma wf_set o k v : wf o → wf (set o k v).
Proof.
  unfold wf. rewrite set_fst. case_bool_decide; [done|].
  intros Hnd. apply NoDup_app. split_and!; [done| |by apply NoDup_singleton].
  set_solver.
Qed.

Lemma del_fst_sublist o k : sublist (del o k).*1 o.*1.
Proof.
  induction o as [|[k' v'] o IH]; [done|]. cbn [del].
  case_bool_decide; rewrite ?fmap_cons; [by apply sublist_cons|by apply sublist_skip].
Qed.

Lemma length_del o k : wf o → k ∈ o.*1 → S (length (del o k)) = length o.
Proof.
  unfold wf. induction o as [|[k' v'] o IH]; intros Hnd Hk; [by apply not_elem_of_nil in Hk|].
  cbn [del]. rewrite fmap_cons, NoDup_cons in Hnd. rewrite fmap_cons, elem_of_cons in Hk.
  destruct Hnd as [Hk1 Hnd]. case_bool_decide as E; [done|].
  destruct Hk as [?|Hk]; [done|]. simpl. by rewrite IH.
Qed.

Lemma wf_del o k : wf o → wf (del o k).
Proof. unfold wf. intros. eapply sublist_NoDup; [done|apply del_fst_sublist]. Qed.

Lemma entries_perm o : entries o ≡ₚ o.
Proof.
  unfold entries. rewrite merge_sort_Permutation.
  etrans; [|apply (filter_app_complement (λ p, is_array_index p.1 = true))].
  apply Permutation_app_head. apply Permutation_refl' , list_filter_iff.
  intros p. destruct (is_array_index p.1); naive_solver.
Qed.

Lemma dec_value_list s : dec_value s = dec_val (String.list_ascii_of_string s).
Proof.
  unfold dec_value, dec_val. generalize 0%Z.
  induction s as [|c s IH]; intros acc; [done|]. apply IH.
Qed.

Lemma is_array_index_canonical s :
  is_array_index s = true → canonical_digits (String.list_ascii_of_string s).
Proof.
  destruct s as [|c rest]; [done|]. unfold is_array_index.
  intros [[Hd Hz]%andb_true_iff _]%andb_true_iff.
  apply str_forallb_Forall in Hd. split_and!; [done|done|].
  apply orb_true_iff in Hz as [Hz|Hz].
  - apply negb_true_iff, bool_decide_eq_false in Hz. right. by intros [= ?].
  - apply bool_decide_eq_true in Hz as ->.
    destruct (decide (c = "0"%char)) as [->|Hc]; [by left|right]. by intros [= ?].
Qed.

(** Distinct array indices have distinct numeric values. *)
Lemma array_index_inj s t :
  is_array_index s = true → is_array_index t = true → dec_value s = dec_value t → s = t.
Proof.
  intros Hs Ht Hv. rewrite !dec_value_list in Hv.
  rewrite <- (String.string_of_list_ascii_of_string s), <- (String.string_of_list_ascii_of_string t).
  f_equal. apply canonical_inj; [by apply is_array_index_canonical..|done].
Qed.

#[local] Instance index_le_total : Total index_le.
Proof. intros ??. unfold index_le. lia. Qed.

#[local] Instance index_le_trans : Transitive index_le.
Proof. intros ???. unfold index_le. lia. Qed.

Lemma wf_same_key o k v1 v2 : wf o → (k, v1) ∈ o → (k, v2) ∈ o → v1 = v2.
Proof. intros Hwf H1 H2. apply (get_elem _ k) in H1, H2; [|done..]. congruence. Qed.

(** Enumerating the copy of an object gives the same order: the array
    indices are already ascending and their values are distinct. *)
Lemma entries_idem o : wf o → entries (entries o) = entries o.
Proof.
  intros Hwf. unfold entries at 2.
  set (I := filter (λ p, is_array_index p.1 = true) o).
  set (N := filter (λ p, is_array_index p.1 = false) o).
  assert (HI : Forall (λ p, is_array_index p.1 = true) (merge_sort index_le I)).
  { apply Forall_forall. intros p Hp. rewrite merge_sort_Permutation in Hp.
    by apply list_elem_of_filter in Hp as [? _]. }
  assert (HN : Forall (λ p, is_array_index p.1 = false) N).
  { apply Forall_forall. intros p Hp. by apply list_elem_of_filter in Hp as [? _]. }
  unfold entries. fold I N. rewrite !filter_app.
  rewrite (filter_all (λ p, is_array_index p.1 = true) (merge_sort index_le I)) by done.
  rewrite (filter_none (λ p, is_array_index p.1 = true) N)
    by (eapply Forall_impl; [exact HN|]; intros p Hp; by rewrite Hp).
  rewrite (filter_none (λ p, is_array_index p.1 = false) (merge_sort index_le I))
    by (eapply Forall_impl; [exact HI|]; intros p Hp; by rewrite Hp).
  rewrite (filter_all (λ p, is_array_index p.1 = false) N) by done.
  rewrite app_nil_r, app_nil_l. f_equal.
  apply (Sorted_unique_strong index_le); [|apply Sorted_merge_sort, _..|apply merge_sort_Permutation].
  intros [k1 v1] [k2 v2] Hx1 Hx2 H12 H21. unfold index_le in *; simpl in *.
  rewrite !merge_sort_Permutation in Hx1. rewrite merge_sort_Permutation in Hx2.
  apply list_elem_of_filter in Hx1 as [Hi1 Hx1], Hx2 as [Hi2 Hx2]. simpl in *.
  assert (k1 = k2) as <- by (apply array_index_inj; [done|done|lia]).
  f_equal. by eapply wf_same_key.
Qed.

Lemma keys_perm o : keys o ≡ₚ o.*1.
Proof. unfold keys. by rewrite entries_perm. Qed.

Lemma wf_entries o : wf o → wf (entries o).
Proof. unfold wf. by rewrite entries_perm. Qed.

Lemma wf_spread o : wf o → wf (spread o).
Proof. apply wf_entries. Qed.

Lemma to_map_spread o : wf o → to_map (spread o) = to_map o.
Proof.
  intros Hwf. unfold to_map, spread. symmetry.
  apply list_to_map_proper; [done|]. symmetry. apply entries_perm.
Qed.

Lemma elem_of_keys o k : k ∈ keys o ↔ is_Some (to_map o !! k).
Proof.
  rewrite keys_perm. unfold to_map.
  rewrite <- not_eq_None_Some, <- not_elem_of_list_to_map.
  split; [tauto|]. apply dec_stable.
Qed.

Lemma size_to_map o : wf o → size (to_map o) = length o.
Proof. apply map_size_list_to_map. Qed.

End Obj.

End JsObj.

#[export] Hint Resolve JsObj.wf_set JsObj.wf_del JsObj.wf_spread JsObj.wf_entries : js.
#[export] Hint Rewrite @JsObj.to_map_set @JsObj.to_map_del @JsObj.to_map_spread
  using (auto with js) : js_rw.
