(* ===== verification/ShortKey.v ===== *)
(** * Short keys: [generateShortKey] and the retry loop of [handleShorten]

    [generateShortKey] (lines 5-8) builds an array of [length] (default 6)
    characters with [Array.from], each [chars[Math.floor(Math.random() *
    chars.length)]], and joins it.  [handleShorten] calls it in a do-while
    loop until the key is not a property of [urlMap] (lines 55-58).

    [Math.random] is modelled as a stream [rng] of doubles in [0,1) with a
    cursor: call number [i] returns [rng i].  The loop does not terminate
    on every stream, so it is defined with fuel ([gen_loop]) and as a
    big-step relation ([loop_runs]); the two are shown equivalent, and the
    loop is shown to return as soon as the stream yields a free key. *)

From S2P Require Import Prelude JsFloat JsObject.
Import Binary64.

Module ShortKey.

Definition chars : string :=
  "abcdefghijklmnopqrstuvwxyzABCDEFGHIJKLMNOPQRSTUVWXYZ0123456789".

Definition default_length : nat := 6.

(** Successive results of [Math.random()]. *)
Definition Rng : Type := nat → double01.

Definition valid_rng (rng : Rng) : Prop := ∀ i, valid01 (rng i).

(** [s[i]]: [undefined] out of range. *)
Definition char_at (s : string) (i : Z) : option ascii :=
  if (0 <=? i)%Z then String.get (Z.to_nat i) s else None.

(** [Array.prototype.join('')]: [undefined] elements print as "". *)
Definition join (cs : list (option ascii)) : string :=
  foldr (λ oc acc, match oc with Some c => String c acc | None => acc end) "" cs.

(** The [i]-th character: one call of [Math.random]. *)
Definition draw_char (r : double01) : option ascii :=
  char_at chars (floor_mul r (Z.of_nat (String.length chars))).

(** [generateShortKey(length)] with the random cursor at [pos]; it consumes
    [length] draws. *)
Definition generateShortKey (length : nat) (rng : Rng) (pos : nat) : string :=
  join (map (λ i, draw_char (rng (pos + i)%nat)) (seq 0 length)).

(** The do-while loop: [taken k] is the loop condition [urlMap[k]]. *)
Fixpoint gen_loop (fuel : nat) (taken : string → bool) (rng : Rng) (pos : nat)
    : option (string * nat) :=
  match fuel with
  | O => None
  | S fuel' =>
      let k := generateShortKey default_length rng pos in
      if taken k then gen_loop fuel' taken rng (pos + default_length)
      else Some (k, pos + default_length)
  end.

(** The loop as a big-step relation: from cursor [pos] it ends with key [k]
    and cursor [pos']. *)
Inductive loop_runs (taken : string → bool) (rng : Rng) : nat → string → nat → Prop :=
  | loop_exit pos :
      taken (generateShortKey default_length rng pos) = false →
      loop_runs taken rng pos (generateShortKey default_length rng pos) (pos + default_length)
  | loop_again pos k pos' :
      taken (generateShortKey default_length rng pos) = true →
      loop_runs taken rng (pos + default_length) k pos' →
      loop_runs taken rng pos k pos'.

(** ** Key shape *)

Lemma chars_length : String.length chars = 62.
Proof. reflexivity. Qed.

Lemma chars_get i :
  i < 62 → ∃ c, String.get i chars = Some c ∧ is_ascii_alnum c = true.
Proof.
  intros Hi. do 62 (destruct i as [|i]; [by eexists|]). lia.
Qed.

Lemma draw_char_some r :
  valid01 r → ∃ c, draw_char r = Some c ∧ is_ascii_alnum c = true.
Proof.
  intros Hr. unfold draw_char, char_at. rewrite chars_length. change (Z.of_nat 62) with 62%Z.
  destruct (floor_mul_bound r 62 Hr ltac:(lia)) as [H0 H62].
  rewrite (proj2 (Z.leb_le _ _) H0). apply chars_get. lia.
Qed.

Lemma join_all_some (cs : list (option ascii)) :
  Forall (λ oc, ∃ c, oc = Some c ∧ is_ascii_alnum c = true) cs →
  String.length (join cs) = length cs ∧ str_forallb is_ascii_alnum (join cs) = true.
Proof.
  induction 1 as [|oc cs (c & -> & Hc) _ [IHl IHa]]; [done|].
  simpl. rewrite IHl, IHa, Hc. done.
Qed.

(** Length and alphabet of a generated key. *)
Lemma generateShortKey_spec (n : nat) (rng : Rng) (pos : nat) :
  valid_rng rng →
  String.length (generateShortKey n rng pos) = n ∧
  str_forallb is_ascii_alnum (generateShortKey n rng pos) = true.
Proof.
  intros Hrng. unfold generateShortKey.
  destruct (join_all_some (map (λ i, draw_char (rng (pos + i)%nat)) (seq 0 n))) as [Hl Ha].
  { apply Forall_forall. intros oc (i & <- & _)%list_elem_of_In%in_map_iff. by apply draw_char_some. }
  by rewrite Hl, length_map, length_seq.
Qed.

(** C20 Every key [generateShortKey] returns has exactly the requested
    length and consists of characters of [a-zA-Z0-9]. *)
Theorem generateShortKey_shape (n : nat) (rng : Rng) (pos : nat) :
  valid_rng rng →
  String.length (generateShortKey n rng pos) = n ∧
  str_forallb is_ascii_alnum (generateShortKey n rng pos) = true.
Proof. apply generateShortKey_spec. Qed.

(** Generated keys have six characters and no [Object.prototype] member
    has six, so the loop condition only ever sees own properties. *)
Lemma key_not_proto (rng : Rng) (pos : nat) :
  valid_rng rng →
  generateShortKey default_length rng pos ∉ JsObj.object_prototype_keys.
Proof.
  intros Hrng. destruct (generateShortKey_spec default_length rng pos Hrng) as [Hl _].
  revert Hl. generalize (generateShortKey default_length rng pos). intros k Hl Hin.
  unfold JsObj.object_prototype_keys in Hin.
  repeat (apply elem_of_cons in Hin as [->|Hin]; [discriminate|]).
  by apply elem_of_nil in Hin.
Qed.

(** ** The retry loop *)

Section Loop.
Context (taken : string → bool) (rng : Rng).

(** The [j]-th key the loop tries from cursor [pos]. *)
Definition candidate (pos j : nat) : string :=
  generateShortKey default_length rng (pos + j * default_length).

Lemma candidate_shift pos j :
  candidate (pos + default_length) j = candidate pos (S j).
Proof. unfold candidate. f_equal. lia. Qed.

Lemma candidate_0 pos : candidate pos 0 = generateShortKey default_length rng pos.
Proof. unfold candidate. by rewrite Nat.mul_0_l, Nat.add_0_r. Qed.

Lemma gen_loop_step fuel pos :
  gen_loop (S fuel) taken rng pos =
  if taken (candidate pos 0) then gen_loop fuel taken rng (pos + default_length)
  else Some (candidate pos 0, pos + default_length).
Proof. by rewrite candidate_0. Qed.

Lemma gen_loop_sound fuel pos k pos' :
  gen_loop fuel taken rng pos = Some (k, pos') → loop_runs taken rng pos k pos'.
Proof.
  revert pos. induction fuel as [|fuel IH]; intros pos H; [done|]. simpl in H.
  destruct (taken _) eqn:Ht.
  - apply loop_again; auto.
  - inv_eq. by apply loop_exit.
Qed.

Lemma gen_loop_mono fuel fuel' pos r :
  fuel ≤ fuel' → gen_loop fuel taken rng pos = Some r → gen_loop fuel' taken rng pos = Some r.
Proof.
  revert fuel' pos. induction fuel as [|fuel IH]; intros [|fuel'] pos Hle H; try done; [lia|].
  rewrite gen_loop_step in *. destruct (taken _); [|done]. apply IH; [lia|done].
Qed.

Lemma gen_loop_complete pos k pos' :
  loop_runs taken rng pos k pos' → ∃ fuel, gen_loop fuel taken rng pos = Some (k, pos').
Proof.
  induction 1 as [pos Ht|pos k pos' Ht _ [fuel IH]].
  - exists 1. simpl. by rewrite Ht.
  - exists (S fuel). simpl. by rewrite Ht.
Qed.

(** The fuelled loop and the big-step relation agree: the loop returns
    [(k, pos')] for some fuel exactly when the do-while loop runs from
    cursor [pos] to key [k] and cursor [pos']. *)
Lemma gen_loop_iff pos k pos' :
  (∃ fuel, gen_loop fuel taken rng pos = Some (k, pos')) ↔ loop_runs taken rng pos k pos'.
Proof.
  split; [intros [fuel H]; by eapply gen_loop_sound|apply gen_loop_complete].
Qed.

Lemma loop_runs_free pos k pos' : loop_runs taken rng pos k pos' → taken k = false.
Proof. by induction 1. Qed.

Lemma loop_runs_det pos k1 p1 k2 p2 :
  loop_runs taken rng pos k1 p1 → loop_runs taken rng pos k2 p2 → k1 = k2 ∧ p1 = p2.
Proof.
  intros H1. revert k2 p2. induction H1 as [pos Ht|pos k pos' Ht _ IH];
    intros k2 p2 H2; inversion H2; subst; try congruence; auto.
Qed.

(** The loop's run up to the first free candidate. *)
Lemma gen_loop_first_free_spec pos i :
  taken (candidate pos i) = false →
  ∃ j, j ≤ i ∧ (∀ j', j' < j → taken (candidate pos j') = true) ∧
       taken (candidate pos j) = false ∧
       gen_loop (S i) taken rng pos =
         Some (candidate pos j, pos + S j * default_length).
Proof.
  revert pos. induction i as [|i IH]; intros pos Hi.
  - exists 0. split_and!; [lia|lia|done|].
    rewrite gen_loop_step, Hi. do 2 f_equal; lia.
  - destruct (taken (candidate pos 0)) eqn:H0.
    + rewrite <- candidate_shift in Hi.
      destruct (IH _ Hi) as (j & Hj & Hbefore & Hj_free & Hrun).
      exists (S j). rewrite <- !candidate_shift.
      split_and!; [lia| |done|].
      * intros [|j'] Hj'; [done|]. rewrite <- candidate_shift. apply Hbefore. lia.
      * rewrite gen_loop_step, H0, Hrun. do 2 f_equal; lia.
    + exists 0. split_and!; [lia|lia|done|].
      rewrite gen_loop_step, H0. do 2 f_equal; lia.
Qed.

(** C19 Termination: if the [i]-th candidate is free, the loop stops within
    [i+1] iterations, on the first free candidate [j], having consumed
    [6 (j+1)] draws. *)
Theorem gen_loop_first_free pos i :
  taken (candidate pos i) = false →
  ∃ j, j ≤ i ∧ (∀ j', j' < j → taken (candidate pos j') = true) ∧
       taken (candidate pos j) = false ∧
       gen_loop (S i) taken rng pos =
         Some (candidate pos j, pos + S j * default_length).
Proof. apply gen_loop_first_free_spec. Qed.

End Loop.

End ShortKey.
