(* ===== verification/Url.v ===== *)
(** * URL validation: [isValidUrl] and the browser's URL parser

    [isValidUrl] (lines 10-17) returns whether [new URL(url)] does not
    throw.  The parser is the browser's, so the component is verified
    against the interface [UrlParser] (does parsing succeed), and [Whatwg]
    gives one implementation: the failure conditions of the WHATWG basic
    URL parser without a base URL. Modelled: stripping of leading and
    trailing C0 controls and spaces, removal of tabs and newlines, the
    scheme start and scheme states, the special schemes, the opaque path of
    a non-special scheme (which never fails), the authority, credentials,
    host and port states (empty host of a special scheme, an empty host
    before a port, port above 65535, a non-digit in the port), the file,
    file slash and file host states ('/' or '\' as slashes, a Windows drive
    letter starting the path instead of a host), and the host parser: an
    opaque host without forbidden host code points for other schemes, and
    for special schemes the domain, UTF-8 encoded, percent-decoded (once)
    and UTF-8 decoded by the decoder of the Encoding standard ([u8_decode]:
    an invalid sequence becomes U+FFFD, which the domain check rejects),
    lower-cased, without forbidden domain code points, then, when it "ends
    in a number", the IPv4 parser (at most four parts in decimal, octal or
    hexadecimal, every part but the last at most 255, the last below
    256^(5-n)); a host in brackets is parsed by the IPv6 parser (eight
    pieces of at most four hexadecimal digits, one "::" compressing a run
    of zero pieces, an embedded IPv4 address in the last two pieces).
    Proved: the scheme is required ([parse_ok_scheme]); every URL of a
    non-special scheme whose body does not start with '/' is accepted
    ([non_special_scheme_valid]); for a host of letters, digits, '.', '-',
    '%' and non-ASCII code units, [http://host] parses exactly when the
    host parser accepts it ([parse_ok_http]); a dotted-decimal host is
    valid exactly when every part is at most 255 ([dotted_quad_valid]); a
    port of digits is valid exactly when its value is at most 65535
    ([port_range_valid]); UTF-8 decoding inverts UTF-8 encoding on the
    model's code units ([utf8_roundtrip]), so a host whose UTF-8 bytes are
    percent-encoded is the host itself ([percent_encoded_host_valid]); a
    host with a byte that never occurs in UTF-8 is rejected
    ([invalid_utf8_host_rejected]); every IPv6 address written in full is
    parsed back to its pieces ([ipv6_roundtrip]). The IPv6 loops run on
    fuel one more than the length of their input; every iteration consumes
    a character, and [v6_loop_fuel_le] and [v4_section_fuel] show that more
    fuel gives the same result.
    Not modelled: the UTS 46 (IDNA) mapping of non-ASCII code points and
    the Punycode check of "xn--" labels, which need the Unicode tables;
    [domain_cp] takes a non-ASCII code point as a valid letter.  The code
    units the model keeps are Latin-1, so the UTF-8 encoder writes one or
    two bytes. *)

From S2P Require Import Prelude.

(** What the component needs from the browser: whether [new URL(s)]
    succeeds. *)
Class UrlParser := { url_parses : string → bool }.

(** [isValidUrl]: the [try]/[catch] turns a thrown [TypeError] into
    [false]. *)
Definition isValidUrl `{UrlParser} (url : string) : bool := url_parses url.

Module Whatwg.

Definition is_char (c d : ascii) : bool := bool_decide (c = d).

Definition c0_or_space (c : ascii) : bool := (code c <=? 32)%Z.

Definition tab_or_newline (c : ascii) : bool :=
  bool_decide (code c = 9 ∨ code c = 10 ∨ code c = 13)%Z.

(** Steps 1-3 of the basic URL parser. *)
Definition preprocess (s : string) : list ascii :=
  let l := String.list_ascii_of_string s in
  let l := strip c0_or_space l in
  filter (λ c, tab_or_newline c = false) l.

Definition lower (c : ascii) : ascii :=
  if is_ascii_upper c then ascii_of_nat (nat_of_ascii c + 32) else c.

Definition scheme_char (c : ascii) : bool :=
  is_ascii_alnum c || is_char c "+" || is_char c "-" || is_char c ".".

(** The scheme state: the scheme in lower case and the input after ':'. *)
Fixpoint scan_scheme (l acc : list ascii) : option (list ascii * list ascii) :=
  match l with
  | [] => None
  | c :: l' =>
      if is_char c ":" then Some (rev acc, l')
      else if scheme_char c then scan_scheme l' (lower c :: acc)
      else None
  end.

(** The scheme start state; without a base URL, "no scheme" is failure. *)
Definition parse_scheme (l : list ascii) : option (list ascii * list ascii) :=
  match l with
  | c :: l' => if is_ascii_alpha c then scan_scheme l' [lower c] else None
  | [] => None
  end.

Definition special_schemes : list string := ["ftp"; "file"; "http"; "https"; "ws"; "wss"].

Definition is_special (scheme : list ascii) : bool :=
  bool_decide (String.string_of_list_ascii scheme ∈ special_schemes).

Definition forbidden_host_cp (c : ascii) : bool :=
  bool_decide (code c ∈ [0; 9; 10; 13; 32; 35; 47; 58; 60; 62; 63; 64; 91; 92; 93; 94; 124])%Z.

Definition forbidden_domain_cp (c : ascii) : bool :=
  forbidden_host_cp c || (code c <=? 31)%Z || is_char c "%" || (code c =? 127)%Z.

(** Characters that end the authority. *)
Definition auth_end (special : bool) (c : ascii) : bool :=
  is_char c "/" || is_char c "?" || is_char c "#" || (special && is_char c "\").

Fixpoint split_at (p : ascii → bool) (l : list ascii) : list ascii * list ascii :=
  match l with
  | [] => ([], [])
  | c :: l' => if p c then ([], l) else let '(a, b) := split_at p l' in (c :: a, b)
  end.

(** The part after the last '@' of the authority, and whether there was one. *)
Fixpoint after_last_at (l : list ascii) : bool * list ascii :=
  match l with
  | [] => (false, [])
  | c :: l' =>
      let '(seen, rest) := after_last_at l' in
      if seen then (true, rest) else if is_char c "@" then (true, l') else (false, l)
  end.

(** The host state: split host and port at the first ':' outside brackets. *)
Fixpoint split_port (inside : bool) (l : list ascii) : list ascii * option (list ascii) :=
  match l with
  | [] => ([], None)
  | c :: l' =>
      if is_char c ":" && negb inside then ([], Some l')
      else
        let inside' := if is_char c "[" then true else if is_char c "]" then false else inside in
        let '(h, p) := split_port inside' l' in (c :: h, p)
  end.

Fixpoint digits_value (acc : Z) (l : list ascii) : option Z :=
  match l with
  | [] => Some acc
  | c :: l' => if is_ascii_digit c then digits_value (acc * 10 + (code c - 48))%Z l' else None
  end.

(** The port state: digits only, at most 65535. *)
Definition port_ok (p : option (list ascii)) : bool :=
  match p with
  | None => true
  | Some ds => match digits_value 0 ds with Some n => (n <=? 65535)%Z | None => false end
  end.

(** Percent-decoding of the host's bytes: ["%XY"] with two hexadecimal
    digits is the byte [0xXY]; any other ['%'] stays. *)
Fixpoint percent_decode (l : list ascii) : list ascii :=
  match l with
  | [] => []
  | c :: t =>
      match t with
      | h1 :: h2 :: t' =>
          if is_char c "%" then
            match hex_value h1, hex_value h2 with
            | Some a, Some b => ascii_of_nat (Z.to_nat (a * 16 + b)) :: percent_decode t'
            | _, _ => c :: percent_decode t
            end
          else c :: percent_decode t
      | _ => c :: percent_decode t
      end
  end.

(** UTF-8 encoding of the host before percent-decoding: the code units of
    the model are below 256, so one byte below 0x80 and two bytes
    otherwise. *)
Definition utf8_encode_cp (c : ascii) : list ascii :=
  if (code c <? 128)%Z then [c]
  else [ascii_of_nat (Z.to_nat (192 + code c / 64)); ascii_of_nat (Z.to_nat (128 + code c mod 64))].

Definition utf8_encode (l : list ascii) : list ascii := l ≫= utf8_encode_cp.

(** The UTF-8 decoder of the Encoding standard: bytes needed and seen, the
    code point so far and the bounds of the next continuation byte. *)
Record U8 := { u8_needed : nat; u8_seen : nat; u8_cp : Z; u8_lower : Z; u8_upper : Z }.

Definition u8_init : U8 :=
  {| u8_needed := 0; u8_seen := 0; u8_cp := 0; u8_lower := 128; u8_upper := 191 |}.

(** U+FFFD, what the decoder emits for an invalid sequence. *)
Definition replacement : Z := 65533.

(** A byte read with no sequence pending: ASCII, the lead byte of a
    sequence of two, three or four bytes, or an error. *)
Definition u8_lead (b : Z) : list Z * U8 :=
  if (b <=? 127)%Z then ([b], u8_init)
  else if (194 <=? b)%Z && (b <=? 223)%Z then
    ([], {| u8_needed := 1; u8_seen := 0; u8_cp := Z.land b 31; u8_lower := 128; u8_upper := 191 |})
  else if (224 <=? b)%Z && (b <=? 239)%Z then
    ([], {| u8_needed := 2; u8_seen := 0; u8_cp := Z.land b 15;
            u8_lower := if (b =? 224)%Z then 160 else 128; u8_upper := if (b =? 237)%Z then 159 else 191 |})
  else if (240 <=? b)%Z && (b <=? 244)%Z then
    ([], {| u8_needed := 3; u8_seen := 0; u8_cp := Z.land b 7;
            u8_lower := if (b =? 240)%Z then 144 else 128; u8_upper := if (b =? 244)%Z then 143 else 191 |})
  else ([replacement], u8_init).

(** The decoder's loop; a byte outside the bounds ends the sequence with
    U+FFFD and is read again, and end of input inside a sequence gives one
    U+FFFD. *)
Fixpoint u8_decode (st : U8) (l : list Z) : list Z :=
  match l with
  | [] => if Nat.eqb (u8_needed st) 0 then [] else [replacement]
  | b :: t =>
      if Nat.eqb (u8_needed st) 0 then let '(out, st') := u8_lead b in out ++ u8_decode st' t
      else if negb ((u8_lower st <=? b)%Z && (b <=? u8_upper st)%Z) then
        let '(out, st') := u8_lead b in replacement :: out ++ u8_decode st' t
      else
        let cp := Z.lor (Z.shiftl (u8_cp st) 6) (Z.land b 63) in
        if Nat.eqb (S (u8_seen st)) (u8_needed st) then cp :: u8_decode u8_init t
        else u8_decode {| u8_needed := u8_needed st; u8_seen := S (u8_seen st); u8_cp := cp;
                          u8_lower := 128; u8_upper := 191 |} t
  end.

(** UTF-8 decode without BOM. *)
Definition utf8_decode (l : list ascii) : list Z := u8_decode u8_init (map code l).

(** Strictly split on ['.']. *)
Fixpoint split_dots (l : list ascii) : list (list ascii) :=
  match l with
  | [] => [[]]
  | c :: l' =>
      let parts := split_dots l' in
      if is_char c "." then [] :: parts
      else match parts with p :: ps => (c :: p) :: ps | [] => [[c]] end
  end.

(** A trailing empty part is removed when there are several parts. *)
Definition drop_trailing_empty (parts : list (list ascii)) : list (list ascii) :=
  match rev parts with
  | [] :: (_ :: _) as rest => rev rest
  | _ => parts
  end.

Fixpoint radix_value (R acc : Z) (l : list ascii) : option Z :=
  match l with
  | [] => Some acc
  | c :: l' =>
      match hex_value c with
      | Some d => if (d <? R)%Z then radix_value R (acc * R + d)%Z l' else None
      | None => None
      end
  end.

(** The IPv4 number parser: ["0x"] or ["0X"] selects hexadecimal, a
    leading ['0'] before more characters octal, otherwise decimal. *)
Definition ipv4_number (part : list ascii) : option Z :=
  match part with
  | [] => None
  | c :: rest =>
      if is_char c "0" then
        match rest with
        | [] => Some 0%Z
        | x :: rest' => if is_char x "x" || is_char x "X" then radix_value 16 0 rest'
                        else radix_value 8 0 rest
        end
      else radix_value 10 0 part
  end.

(** "Ends in a number": the last part (after dropping a trailing empty
    one) is all digits or an IPv4 number. *)
Definition ends_in_number (d : list ascii) : bool :=
  match last (drop_trailing_empty (split_dots d)) with
  | Some lp => (negb (bool_decide (lp = [])) && forallb is_ascii_digit lp) || bool_decide (is_Some (ipv4_number lp))
  | None => false
  end.

(** The IPv4 parser succeeds: at most four numbers, all but the last at
    most 255, the last below [256^(5 - n)]. *)
Definition ipv4_ok (d : list ascii) : bool :=
  let parts := drop_trailing_empty (split_dots d) in
  if (4 <? length parts)%nat then false
  else match mapM ipv4_number parts with
       | None => false
       | Some ns =>
           match rev ns with
           | [] => false
           | n :: init => forallb (λ x, x <=? 255)%Z init && (n <? 256 ^ Z.of_nat (5 - length ns))%Z
           end
       end.

(** ** The IPv6 parser *)

(** Up to [n] hexadecimal digits: their value, how many, and the rest. *)
Fixpoint take_hex (n : nat) (acc : Z) (len : nat) (l : list ascii) : Z * nat * list ascii :=
  match n, l with
  | S n', c :: l' =>
      match hex_value c with
      | Some d => take_hex n' (acc * 16 + d)%Z (S len) l'
      | None => (acc, len, l)
      end
  | _, _ => (acc, len, l)
  end.

(** The digits of one number of an embedded IPv4 address: no leading
    zero before another digit, at most 255. *)
Fixpoint v4_number (piece : option Z) (l : list ascii) : option (Z * list ascii) :=
  match l with
  | c :: l' =>
      if is_ascii_digit c then
        let d := (code c - 48)%Z in
        match piece with
        | None => v4_number (Some d) l'
        | Some 0%Z => None
        | Some p => if (255 <? p * 10 + d)%Z then None else v4_number (Some (p * 10 + d)%Z) l'
        end
      else from_option (λ p, Some (p, l)) None piece
  | [] => from_option (λ p, Some (p, [])) None piece
  end.

(** The IPv4 part of an IPv6 address (step 5.5 of the main loop): four
    numbers separated by ['.'], two per piece. *)
Fixpoint v4_section (fuel : nat) (addr : list Z) (pi seen : nat) (l : list ascii) : option (list Z * nat) :=
  match fuel with
  | O => None
  | S fuel' =>
      match l with
      | [] => if Nat.eqb seen 4 then Some (addr, pi) else None
      | c :: l' =>
          let l1 := if Nat.ltb 0 seen then
                      (if is_char c "." && Nat.ltb seen 4 then Some l' else None)
                    else Some l in
          match l1 with
          | Some ((c1 :: _) as l1) =>
              if is_ascii_digit c1 then
                match v4_number None l1 with
                | Some (n, l2) =>
                    let addr' := <[pi := (addr !!! pi * 256 + n)%Z]> addr in
                    let seen' := S seen in
                    let pi' := if Nat.eqb seen' 2 || Nat.eqb seen' 4 then S pi else pi in
                    v4_section fuel' addr' pi' seen' l2
                | None => None
                end
              else None
          | _ => None
          end
      end
  end.

(** The main loop of the IPv6 parser: the address, the piece index and the
    index of the compressed run, after the input. *)
Fixpoint v6_loop (fuel : nat) (addr : list Z) (pi : nat) (compress : option nat) (l : list ascii)
  : option (list Z * nat * option nat) :=
  match fuel with
  | O => None
  | S fuel' =>
      match l with
      | [] => Some (addr, pi, compress)
      | c :: l' =>
          if Nat.eqb pi 8 then None
          else if is_char c ":" then
            match compress with
            | Some _ => None
            | None => v6_loop fuel' addr (S pi) (Some (S pi)) l'
            end
          else
            let '(value, len, rest) := take_hex 4 0 0 l in
            match rest with
            | c' :: rest' =>
                if is_char c' "." then
                  if Nat.eqb len 0 then None
                  else if Nat.ltb 6 pi then None
                  else match v4_section (S (length l)) addr pi 0 l with
                       | Some (addr', pi') => Some (addr', pi', compress)
                       | None => None
                       end
                else if is_char c' ":" then
                  match rest' with
                  | [] => None
                  | _ => v6_loop fuel' (<[pi := value]> addr) (S pi) compress rest'
                  end
                else None
            | [] => Some (<[pi := value]> addr, S pi, compress)
            end
      end
  end.

(** Step 4: move the pieces after the compressed run to the end. *)
Fixpoint swap_loop (fuel : nat) (addr : list Z) (pi swaps compress : nat) : list Z :=
  match fuel with
  | O => addr
  | S fuel' =>
      if Nat.eqb pi 0 || Nat.eqb swaps 0 then addr
      else
        let j := compress + swaps - 1 in
        swap_loop fuel' (<[j := addr !!! pi]> (<[pi := addr !!! j]> addr)) (pred pi) (pred swaps) compress
  end.

(** The IPv6 parser: eight pieces, or failure. *)
Definition ipv6_parse (l : list ascii) : option (list Z) :=
  let start := match l with
               | ":"%char :: ":"%char :: rest => Some (1, Some 1, rest)
               | ":"%char :: _ => None
               | _ => Some (0, None, l)
               end in
  match start with
  | None => None
  | Some (pi, comp, l1) =>
      match v6_loop (S (length l1)) (replicate 8 0%Z) pi comp l1 with
      | None => None
      | Some (addr, pi', Some c) => Some (swap_loop 8 addr 7 (pi' - c) c)
      | Some (addr, pi', None) => if Nat.eqb pi' 8 then Some addr else None
      end
  end.

(** Domain to ASCII on one code point.  An ASCII code point is
    lower-cased.  The UTS 46 mapping of the others needs the Unicode
    tables and is not modelled: each is taken as a letter, which keeps its
    label out of the IPv4 parser as its Punycode form "xn--..." does. *)
Definition domain_cp (cp : Z) : ascii :=
  if (cp <? 128)%Z then lower (ascii_of_nat (Z.to_nat cp)) else "z"%char.

(** The domain checks on the decoded code points: U+FFFD, what an invalid
    UTF-8 sequence decodes to, is disallowed by UTS 46; then no forbidden
    domain code point, and the IPv4 parser when the domain ends in a
    number. *)
Definition domain_ok (cps : list Z) : bool :=
  if existsb (Z.eqb replacement) cps then false
  else
    let d := map domain_cp cps in
    negb (existsb forbidden_domain_cp d) && (if ends_in_number d then ipv4_ok d else true).

(** The host parser: an IPv6 literal in brackets; for a special scheme
    the domain, UTF-8 encoded, percent-decoded and UTF-8 decoded, checked
    by [domain_ok]; otherwise an opaque host without forbidden host code
    points. *)
Definition host_ok (special : bool) (h : list ascii) : bool :=
  match h with
  | "["%char :: t =>
      match last t with
      | Some "]"%char => bool_decide (is_Some (ipv6_parse (removelast t)))
      | _ => false
      end
  | _ => if special then domain_ok (utf8_decode (percent_decode (utf8_encode h)))
         else negb (existsb forbidden_host_cp h)
  end.

(** Authority, host and port states for a URL with an authority. *)
Definition authority_ok (special : bool) (l : list ascii) : bool :=
  let '(auth, _) := split_at (auth_end special) l in
  let '(seen_at, hostport) := after_last_at auth in
  let '(host, port) := split_port false hostport in
  negb (seen_at && bool_decide (hostport = []))
  && negb (special && bool_decide (host = []))
  && negb (bool_decide (host = []) && bool_decide (is_Some port))
  && port_ok port && (bool_decide (host = []) || host_ok special host).

Definition is_slash (special : bool) (c : ascii) : bool := is_char c "/" || (special && is_char c "\").

(** A Windows drive letter: an ASCII letter, then [':'] or ['|']. *)
Definition windows_drive_letter (l : list ascii) : bool :=
  match l with
  | [c; d] => is_ascii_alpha c && (is_char d ":" || is_char d "|")
  | _ => false
  end.

(** The file, file slash and file host states: two slashes (['/'] or
    ['\']) start a host, which may be empty; a buffer that is a Windows
    drive letter starts the path instead; there are no credentials or
    port. *)
Definition file_ok (l : list ascii) : bool :=
  match l with
  | c1 :: c2 :: l' =>
      if is_slash true c1 && is_slash true c2 then
        let '(host, _) := split_at (auth_end true) l' in
        windows_drive_letter host || bool_decide (host = []) || host_ok true host
      else true
  | _ => true
  end.

(** Characters of a host written in letters, digits, ['.'], ['-'],
    percent escapes and non-ASCII code units. *)
Definition plain_char (c : ascii) : bool :=
  is_ascii_alnum c || is_char c "." || is_char c "-" || is_char c "%" || (128 <=? code c)%Z.

(** Percent-encoding of every byte of a host, with upper-case hexadecimal
    digits, as [encodeURIComponent] writes reserved bytes. *)
Definition hex_digit (n : Z) : ascii :=
  ascii_of_nat (Z.to_nat (if (n <? 10)%Z then 48 + n else 55 + n)%Z).

Fixpoint percent_encode (l : list ascii) : list ascii :=
  match l with
  | [] => []
  | c :: l' => "%"%char :: hex_digit (code c / 16) :: hex_digit (code c mod 16) :: percent_encode l'
  end.

(** An IPv6 address written in full: eight pieces of four hexadecimal
    digits separated by [':']. *)
Definition hex4 (p : Z) : list ascii :=
  [hex_digit (p / 4096); hex_digit (p / 256 mod 16); hex_digit (p / 16 mod 16); hex_digit (p mod 16)].

Fixpoint print_ipv6 (ps : list Z) : list ascii :=
  match ps with
  | [] => []
  | [p] => hex4 p
  | p :: ps' => hex4 p ++ ":"%char :: print_ipv6 ps'
  end.

(** Does the basic URL parser succeed on [s] without a base? *)
Definition parse_ok (s : string) : bool :=
  match parse_scheme (preprocess s) with
  | None => false
  | Some (scheme, rest) =>
      if bool_decide (String.string_of_list_ascii scheme = "file") then file_ok rest
      else if is_special scheme then authority_ok true (drop_while (is_slash true) rest)
      else match rest with
           | "/"%char :: "/"%char :: l => authority_ok false l
           | _ => true
           end
  end.

(** ** Hosts of plain characters *)

Lemma is_char_code c d : is_char c d = true → code c = code d.
Proof. unfold is_char. case_bool_decide; [by intros _; subst|done]. Qed.

Lemma not_char c d : code c ≠ code d → is_char c d = false.
Proof. intros Hne. destruct (is_char c d) eqn:E; [by apply is_char_code in E|done]. Qed.

Lemma plain_code c :
  plain_char c = true →
  (code c = 37 ∨ code c = 45 ∨ code c = 46 ∨ 48 ≤ code c ≤ 57 ∨ 65 ≤ code c ≤ 90 ∨ 97 ≤ code c ≤ 122 ∨
   128 ≤ code c)%Z.
Proof.
  unfold plain_char, is_ascii_alnum, is_ascii_alpha, is_ascii_upper, is_ascii_lower, is_ascii_digit.
  rewrite !orb_true_iff, !in_range_spec, Z.leb_le.
  intros [[[[[[?|?]|?]|?%is_char_code]|?%is_char_code]|?%is_char_code]|?]; code_lits; lia.
Qed.

(** [char_false]: a plain character is none of the given delimiters. *)
Ltac char_false := apply not_char; code_lits; lia.

Lemma plain_facts c :
  plain_char c = true →
  c0_or_space c = false ∧ tab_or_newline c = false ∧ auth_end true c = false ∧
  is_char c "@" = false ∧ is_char c ":" = false ∧ is_slash true c = false.
Proof.
  intros Hc%plain_code. unfold c0_or_space, tab_or_newline, auth_end, is_slash.
  assert (is_char c "/" = false) as -> by char_false.
  assert (is_char c "\" = false) as -> by char_false.
  split_and!; try char_false; try reflexivity.
  - apply Z.leb_gt. lia.
  - apply bool_decide_eq_false_2. lia.
  - by rewrite (not_char c "?"), (not_char c "#") by (code_lits; lia).
Qed.

Lemma split_at_none p l : Forall (λ c, p c = false) l → split_at p l = (l, []).
Proof. induction 1 as [|c l Hc _ IH]; [done|]. simpl. by rewrite Hc, IH. Qed.

Lemma after_last_at_none l : Forall (λ c, is_char c "@" = false) l → after_last_at l = (false, l).
Proof. induction 1 as [|c l Hc _ IH]; [done|]. simpl. by rewrite IH, Hc. Qed.

Lemma split_port_none inside l : Forall (λ c, is_char c ":" = false) l → split_port inside l = (l, None).
Proof. intros Hl. revert inside. induction Hl as [|c l Hc _ IH]; intros inside; [done|]. simpl. by rewrite Hc, IH. Qed.

Lemma drop_while_rev_app p l r :
  Forall (λ c, p c = false) l → drop_while p r = r → drop_while p (rev l ++ r) = rev l ++ r.
Proof.
  intros Hl%Forall_rev Hr. destruct (rev l) as [|c l']; [done|]. simpl.
  apply Forall_cons in Hl as [-> _]. done.
Qed.

Lemma preprocess_http l :
  Forall (λ c, c0_or_space c = false ∧ tab_or_newline c = false) l →
  preprocess (String.append "http://" (String.string_of_list_ascii l)) =
  ["h"; "t"; "t"; "p"; ":"; "/"; "/"]%char ++ l.
Proof.
  intros Hf. unfold preprocess.
  rewrite list_ascii_of_string_app, String.list_ascii_of_string_of_list_ascii.
  change (String.list_ascii_of_string "http://") with ["h"; "t"; "t"; "p"; ":"; "/"; "/"]%char.
  rewrite strip_id.
  - rewrite filter_all; [done|]. repeat constructor. by eapply Forall_impl; [apply Hf|intros ? []].
  - by intros c [= <-].
  - intros c. rewrite last_app. destruct (last l) as [x|] eqn:Hx; [|by intros [= <-]].
    intros [= <-]. apply last_Some_elem_of in Hx. by apply (proj1 (Forall_forall _ _) Hf).
Qed.

(** Characters of an authority [host] or [host:port] without credentials. *)
Lemma authority_facts c :
  plain_char c || is_char c ":" = true →
  c0_or_space c = false ∧ tab_or_newline c = false ∧ auth_end true c = false ∧
  is_char c "@" = false ∧ is_slash true c = false.
Proof.
  intros [Hc%plain_facts|Hc]%orb_true_iff; [by destruct Hc as (? & ? & ? & ? & ? & ?)|].
  unfold is_char in Hc. case_bool_decide; [subst c|done]. done.
Qed.

(** The authority of [http://l], for [l] without credentials or path: the
    host and port are split at the first [':'], the host must be
    non-empty, the port valid and the host accepted. *)
Lemma parse_ok_http_authority l :
  Forall (λ c, plain_char c || is_char c ":" = true) l →
  parse_ok (String.append "http://" (String.string_of_list_ascii l)) =
  let '(host, port) := split_port false l in
  negb (bool_decide (host = [])) && port_ok port && host_ok true host.
Proof.
  intros Hl. pose proof (Forall_impl _ _ _ Hl authority_facts) as Hf.
  unfold parse_ok. rewrite preprocess_http by (eapply Forall_impl; [apply Hf|intros ? (? & ? & _)]; done).
  change (parse_scheme _) with (Some (["h"; "t"; "t"; "p"]%char, ["/"; "/"]%char ++ l)).
  cbn iota beta. change (bool_decide (String.string_of_list_ascii _ = "file")) with false.
  change (is_special _) with true. cbn iota.
  change (drop_while (is_slash true) (["/"; "/"]%char ++ l)) with (drop_while (is_slash true) l).
  assert (drop_while (is_slash true) l = l) as ->.
  { destruct Hf as [|c l' (_ & _ & _ & _ & Hs) _]; [done|]. simpl. by rewrite Hs. }
  unfold authority_ok. rewrite split_at_none, after_last_at_none.
  - destruct (split_port false l) as [host port]. cbn [andb negb].
    by destruct (bool_decide (host = [])), (bool_decide (is_Some port)), (port_ok port).
  - by eapply Forall_impl; [apply Hf|intros ? (_ & _ & _ & ? & _)].
  - by eapply Forall_impl; [apply Hf|intros ? (_ & _ & ? & _)].
Qed.

(** For a host of plain characters, [http://host] parses exactly when the
    host is non-empty and passes the host parser. *)
Lemma parse_ok_http h :
  Forall (λ c, plain_char c = true) h →
  parse_ok (String.append "http://" (String.string_of_list_ascii h)) =
  negb (bool_decide (h = [])) && host_ok true h.
Proof.
  intros Hh. rewrite parse_ok_http_authority.
  - rewrite split_port_none; [cbn [port_ok]; by rewrite andb_true_r|]. eapply Forall_impl; [apply Hh|]. by intros ? (_ & _ & _ & _ & ? & _)%plain_facts.
  - eapply Forall_impl; [apply Hh|]. intros c ->. done.
Qed.

(** The port state on digits: their value, checked against 65535. *)
Lemma digits_value_dec acc l :
  Forall (λ c, is_ascii_digit c = true) l →
  digits_value acc l = Some (foldl (λ acc c, acc * 10 + (code c - 48)) acc l)%Z.
Proof.
  intros Hl. revert acc. induction Hl as [|c l Hc _ IH]; intros acc; [done|]. simpl. by rewrite Hc, IH.
Qed.

Lemma split_port_at h l :
  Forall (λ c, plain_char c = true) h → split_port false (h ++ ":"%char :: l) = (h, Some l).
Proof.
  induction 1 as [|c h Hc _ IH]; [done|]. cbn [app split_port].
  destruct (plain_facts c Hc) as (_ & _ & _ & _ & -> & _). cbn [andb negb].
  assert (is_char c "[" = false) as ->.
  { apply plain_code in Hc. apply not_char. code_lits. lia. }
  by destruct (is_char c "]"); rewrite IH.
Qed.

(** ** Domains *)

(** A host of a special URL that does not start with ['['] is a domain:
    percent-decoded, lower-cased, checked for forbidden code points and
    parsed as IPv4 when it ends in a number. *)
Lemma host_ok_domain h :
  head h ≠ Some "["%char → host_ok true h = domain_ok (utf8_decode (percent_decode (utf8_encode h))).
Proof.
  intros Hh. destruct h as [|x t]; [done|]. unfold host_ok.
  destruct x as [[] [] [] [] [] [] [] []]; try reflexivity. by destruct Hh.
Qed.

Lemma hex_value_digit n : (0 ≤ n < 16)%Z → hex_value (hex_digit n) = Some n.
Proof.
  intros Hn. rewrite <- (Z2Nat.id n) by lia. assert (Z.to_nat n < 16)%nat as Hk by lia.
  revert Hk. generalize (Z.to_nat n). intros k Hk. do 16 (destruct k as [|k]; [reflexivity|]). lia.
Qed.

Lemma percent_decode_escape c t :
  percent_decode ("%"%char :: hex_digit (code c / 16) :: hex_digit (code c mod 16) :: t) = c :: percent_decode t.
Proof.
  pose proof (code_bound c). cbn [percent_decode]. change (is_char "%" "%") with true. cbn iota.
  rewrite !hex_value_digit by (Z.div_mod_to_equations; lia). f_equal.
  replace (code c / 16 * 16 + code c mod 16)%Z with (code c) by (Z.div_mod_to_equations; lia).
  unfold code. by rewrite Nat2Z.id, ascii_nat_embedding.
Qed.

(** Decoding inverts encoding. *)
Lemma percent_decode_encode l : percent_decode (percent_encode l) = l.
Proof. induction l as [|c l IH]; [done|]. simpl percent_encode. by rewrite percent_decode_escape, IH. Qed.

Lemma hex_digit_plain n : (0 ≤ n < 16)%Z → plain_char (hex_digit n) = true.
Proof.
  intros Hn. rewrite <- (Z2Nat.id n) by lia. assert (Z.to_nat n < 16)%nat as Hk by lia.
  revert Hk. generalize (Z.to_nat n). intros k Hk. do 16 (destruct k as [|k]; [reflexivity|]). lia.
Qed.

Lemma percent_encode_plain l : Forall (λ c, plain_char c = true) (percent_encode l).
Proof.
  induction l as [|c l IH]; [done|]. pose proof (code_bound c).
  assert (∀ n, (0 ≤ n < 256)%Z → (0 ≤ n / 16 < 16 ∧ 0 ≤ n mod 16 < 16)%Z) as Hb
    by (intros; split; Z.div_mod_to_equations; lia).
  destruct (Hb (code c)) as [Hq Hr]; [done|].
  simpl. do 3 (constructor; [by apply hex_digit_plain || reflexivity|]). done.
Qed.

Lemma hex_digit_ascii n : (0 ≤ n < 16)%Z → (code (hex_digit n) < 128)%Z.
Proof. intros Hn. unfold hex_digit. destruct (Z.ltb_spec n 10); rewrite code_of_Z; lia. Qed.

Lemma percent_encode_ascii l : Forall (λ c, code c < 128)%Z (percent_encode l).
Proof.
  induction l as [|c l IH]; [done|]. pose proof (code_bound c).
  simpl. constructor; [code_lits; lia|].
  do 2 (constructor; [apply hex_digit_ascii; Z.div_mod_to_equations; lia|]). exact IH.
Qed.

Lemma plain_not_bracket h : Forall (λ c, plain_char c = true) h → head h ≠ Some "["%char.
Proof. intros [|c l Hc%plain_code _]; [done|]. intros [= ->]. code_lits. lia. Qed.

(** ** IPv6 addresses *)

Lemma hex_digit_not_colon n : (0 ≤ n < 16)%Z → is_char (hex_digit n) ":" = false.
Proof.
  intros Hn%hex_value_digit. destruct (is_char _ _) eqn:E; [|done].
  unfold is_char in E. case_bool_decide as Hc; [|done]. by rewrite Hc in Hn.
Qed.

Lemma take_hex4 p rest :
  (0 ≤ p < 65536)%Z →
  take_hex 4 0 0 (hex_digit (p / 4096) :: hex_digit (p / 256 mod 16) :: hex_digit (p / 16 mod 16) ::
                  hex_digit (p mod 16) :: rest) = (p, 4, rest).
Proof.
  intros Hp. cbn [take_hex]. rewrite !hex_value_digit by (Z.div_mod_to_equations; lia). do 2 f_equal.
  Z.div_mod_to_equations. lia.
Qed.

Lemma insert_app_length (pre l : list Z) x y : <[length pre := x]> (pre ++ y :: l) = pre ++ x :: l.
Proof. rewrite insert_app_r_alt by lia. by rewrite Nat.sub_diag. Qed.

Lemma print_ipv6_cons p ps : ps ≠ [] → print_ipv6 (p :: ps) = hex4 p ++ ":"%char :: print_ipv6 ps.
Proof. by destruct ps. Qed.

Lemma print_ipv6_nonempty ps : ps ≠ [] → print_ipv6 ps ≠ [].
Proof. intros Hne. destruct ps as [|p [|q ps]]; [done|..]; simpl; unfold hex4; simpl; congruence. Qed.

Lemma length_print_ipv6 p ps :
  ps ≠ [] → length (print_ipv6 (p :: ps)) = 5 + length (print_ipv6 ps).
Proof. intros. rewrite print_ipv6_cons by done. rewrite length_app. simpl. lia. Qed.

(** One iteration of the main loop on a piece written in full: the last
    piece, or a piece followed by [':'] and more input. *)
Lemma v6_loop_last fuel addr pi p :
  (0 ≤ p < 65536)%Z → pi ≠ 8 →
  v6_loop (S fuel) addr pi None (hex4 p) = Some (<[pi := p]> addr, S pi, None).
Proof.
  intros Hp Hpi. unfold hex4. cbn [v6_loop].
  rewrite (proj2 (Nat.eqb_neq _ _) Hpi), hex_digit_not_colon by (Z.div_mod_to_equations; lia).
  rewrite <- (app_nil_r [_; _; _; hex_digit (p mod 16)]). cbn [app]. by rewrite take_hex4.
Qed.

Lemma v6_loop_next fuel addr pi p rest :
  (0 ≤ p < 65536)%Z → pi ≠ 8 → rest ≠ [] →
  v6_loop (S fuel) addr pi None (hex4 p ++ ":"%char :: rest) = v6_loop fuel (<[pi := p]> addr) (S pi) None rest.
Proof.
  intros Hp Hpi Hr. unfold hex4. cbn [v6_loop app].
  rewrite (proj2 (Nat.eqb_neq _ _) Hpi), hex_digit_not_colon by (Z.div_mod_to_equations; lia).
  rewrite take_hex4 by done. cbn iota beta.
  change (is_char ":" ".") with false. change (is_char ":" ":") with true. cbn iota beta.
  by destruct rest.
Qed.

(** The main loop reads the pieces written in full, one per iteration. *)
Lemma v6_loop_print ps pre fuel :
  length pre + length ps = 8 → ps ≠ [] → Forall (λ p, 0 ≤ p < 65536)%Z ps →
  length (print_ipv6 ps) < fuel →
  v6_loop fuel (pre ++ replicate (length ps) 0%Z) (length pre) None (print_ipv6 ps) = Some (pre ++ ps, 8, None).
Proof.
  revert pre fuel. induction ps as [|p ps IH]; intros pre fuel Hlen Hne Hps Hfuel; [done|].
  apply Forall_cons in Hps as [Hp Hps]. destruct fuel as [|fuel]; [lia|]. simpl in Hlen.
  destruct (decide (ps = [])) as [->|Hps_ne].
  - cbn [print_ipv6 replicate length]. rewrite v6_loop_last by (done || lia).
    rewrite insert_app_length. simpl in Hlen. do 3 f_equal. lia.
  - rewrite length_print_ipv6 in Hfuel by done. rewrite print_ipv6_cons by done.
    cbn [length replicate]. rewrite v6_loop_next by (done || lia || by apply print_ipv6_nonempty).
    rewrite insert_app_length.
    replace (pre ++ p :: replicate (length ps) 0%Z) with ((pre ++ [p]) ++ replicate (length ps) 0%Z)
      by (by rewrite <- app_assoc).
    replace (pre ++ p :: ps) with ((pre ++ [p]) ++ ps) by (by rewrite <- app_assoc).
    replace (S (length pre)) with (length (pre ++ [p])) by (rewrite length_app; simpl; lia).
    apply IH; [rewrite length_app; simpl; lia|done|done|lia].
Qed.

(** The parser's start on input that does not begin with [':']. *)
Lemma ipv6_parse_no_colon l :
  head l ≠ Some ":"%char →
  ipv6_parse l =
    match v6_loop (S (length l)) (replicate 8 0%Z) 0 None l with
    | None => None
    | Some (addr, pi', Some k) => Some (swap_loop 8 addr 7 (pi' - k) k)
    | Some (addr, pi', None) => if Nat.eqb pi' 8 then Some addr else None
    end.
Proof.
  intros Hc. destruct l as [|c l]; [done|].
  destruct c as [[] [] [] [] [] [] [] []]; try reflexivity. by destruct Hc.
Qed.

(** ** Fuel of the IPv6 loops

    Every iteration of [v6_loop] and of [v4_section] consumes at least one
    character, so fuel one more than the input's length is enough: more
    fuel gives the same result. *)

Lemma take_hex_suffix n acc len l : ∃ pre, l = pre ++ (take_hex n acc len l).2.
Proof.
  revert acc len l. induction n as [|n IH]; intros acc len [|c l]; simpl; try by exists [].
  destruct (hex_value c); [|by exists []]. destruct (IH (acc * 16 + z)%Z (S len) l) as [pre Hpre].
  exists (c :: pre). simpl. by f_equal.
Qed.

Lemma v4_number_length piece l n l2 : v4_number piece l = Some (n, l2) → length l2 ≤ length l.
Proof.
  revert piece. induction l as [|c l IH]; intros piece H; simpl in H.
  - destruct piece; simplify_eq/=. lia.
  - destruct (is_ascii_digit c); [|destruct piece; simplify_eq/=; lia].
    repeat case_match; simplify_eq; try done; apply IH in H; simpl; lia.
Qed.

Lemma v4_section_fuel f addr pi seen l :
  length l < f → v4_section f addr pi seen l = v4_section (S f) addr pi seen l.
Proof.
  revert addr pi seen l. induction f as [|f IH]; intros addr pi seen l Hl; [lia|].
  destruct l as [|c l]; [done|]. cbn [v4_section].
  destruct (if Nat.ltb 0 seen then _ else _) as [[|c1 l1]|] eqn:E; try done.
  destruct (is_ascii_digit c1) eqn:Hd; [|done].
  destruct (v4_number None (c1 :: l1)) as [[n l2]|] eqn:Hn; [|done].
  cbn [v4_number] in Hn. rewrite Hd in Hn. apply v4_number_length in Hn.
  assert (length l1 ≤ length l) by (destruct (Nat.ltb 0 seen); [destruct (_ && _)|]; simplify_eq/=; lia).
  apply IH. simpl in Hl. lia.
Qed.

Lemma v6_loop_fuel f addr pi comp l :
  length l < f → v6_loop f addr pi comp l = v6_loop (S f) addr pi comp l.
Proof.
  revert addr pi comp l. induction f as [|f IH]; intros addr pi comp l Hl; [lia|].
  destruct l as [|c l]; [done|]. cbn [v6_loop]. simpl in Hl.
  destruct (Nat.eqb pi 8); [done|]. destruct (is_char c ":").
  { destruct comp; [done|]. apply IH. lia. }
  destruct (take_hex_suffix 4 0 0 (c :: l)) as [pre Hpre].
  destruct (take_hex 4 0 0 (c :: l)) as [[value len] rest] eqn:Ht. simpl in Hpre.
  destruct rest as [|c' rest']; [done|].
  destruct (is_char c' "."); [done|]. destruct (is_char c' ":"); [|done].
  destruct rest'; [done|]. apply IH.
  apply (f_equal length) in Hpre. rewrite length_app in Hpre. simpl in *. lia.
Qed.

Lemma v6_loop_fuel_le f f' addr pi comp l :
  length l < f → f ≤ f' → v6_loop f addr pi comp l = v6_loop f' addr pi comp l.
Proof.
  intros Hl Hf. induction Hf as [|f' Hf IH]; [done|].
  rewrite IH. apply v6_loop_fuel. lia.
Qed.

(** ** Dotted-decimal IPv4 hosts *)

Lemma digit_or_dot_facts c :
  is_ascii_digit c || is_char c "." = true →
  plain_char c = true ∧ forbidden_domain_cp c = false ∧ is_ascii_upper c = false ∧ is_char c "%" = false ∧
  (code c < 128)%Z.
Proof.
  intros Hc. assert (plain_char c = true) as Hp.
  { unfold plain_char, is_ascii_alnum. by destruct (is_ascii_digit c), (is_char c "."), (is_ascii_alpha c). }
  unfold is_ascii_digit, is_ascii_upper in *. rewrite orb_true_iff, in_range_spec in Hc.
  assert (code c = 46 ∨ 48 ≤ code c ≤ 57)%Z as Hcode.
  { destruct Hc as [?|?%is_char_code]; code_lits; lia. }
  assert (is_char c "%" = false) as Hpc by char_false.
  split_and!; [done| |apply not_true_iff_false; rewrite in_range_spec; lia|done|lia].
  unfold forbidden_domain_cp, forbidden_host_cp. rewrite Hpc.
  rewrite bool_decide_eq_false_2; [|rewrite !elem_of_cons, elem_of_nil; lia].
  rewrite (proj2 (Z.leb_gt _ _)), (proj2 (Z.eqb_neq _ _)) by lia. done.
Qed.

Lemma percent_decode_id l : Forall (λ c, is_char c "%" = false) l → percent_decode l = l.
Proof.
  induction 1 as [|c l Hc Hl IH]; [done|]. simpl.
  destruct l as [|h1 [|h2 t]]; [done|by rewrite IH|]. by rewrite Hc, IH.
Qed.

Lemma map_lower_id l : Forall (λ c, is_ascii_upper c = false) l → map lower l = l.
Proof. induction 1 as [|c l Hc _ IH]; [done|]. simpl. unfold lower at 1. by rewrite Hc, IH. Qed.

(** ** UTF-8 *)

Lemma ascii_of_code c : ascii_of_nat (Z.to_nat (code c)) = c.
Proof. unfold code. by rewrite Nat2Z.id, ascii_nat_embedding. Qed.

(** A code unit at or above 0x80 is encoded as a lead byte 0xC2 or 0xC3
    and a continuation byte. *)
Lemma utf8_encode_cp_codes c :
  map code (utf8_encode_cp c) =
  if (code c <? 128)%Z then [code c] else [192 + code c / 64; 128 + code c mod 64]%Z.
Proof.
  pose proof (code_bound c). unfold utf8_encode_cp. destruct (Z.ltb_spec (code c) 128); [done|].
  simpl. rewrite !code_of_Z; [done|Z.div_mod_to_equations; lia..].
Qed.

(** The decoder reads the encoding of one code unit back. *)
Lemma u8_decode_cp c rest :
  u8_decode u8_init (map code (utf8_encode_cp c) ++ rest) = code c :: u8_decode u8_init rest.
Proof.
  pose proof (code_bound c). rewrite utf8_encode_cp_codes.
  destruct (Z.ltb_spec (code c) 128) as [Hlt|Hge]; simpl.
  - unfold u8_lead. by rewrite (proj2 (Z.leb_le _ _)) by lia.
  - assert (code c / 64 = 2 ∨ code c / 64 = 3)%Z as Hq by (Z.div_mod_to_equations; lia).
    assert (0 ≤ code c mod 64 < 64)%Z by (Z.div_mod_to_equations; lia).
    unfold u8_lead. rewrite (proj2 (Z.leb_gt _ _)), (proj2 (Z.leb_le 194 _)), (proj2 (Z.leb_le _ 223)) by lia.
    simpl. rewrite (proj2 (Z.leb_le 128 _)), (proj2 (Z.leb_le _ 191)) by lia. simpl. f_equal.
    rewrite (Z.land_ones _ 5), (Z.land_ones _ 6) by lia.
    rewrite lor_shiftl_low by (change (2 ^ 6)%Z with 64%Z; Z.div_mod_to_equations; lia).
    Z.div_mod_to_equations; lia.
Qed.

(** Decoding inverts encoding on every code unit of the model. *)
Lemma utf8_decode_encode l : utf8_decode (utf8_encode l) = map code l.
Proof.
  unfold utf8_decode, utf8_encode. induction l as [|c l IH]; [done|].
  by rewrite bind_cons, map_app, u8_decode_cp, IH.
Qed.

Lemma utf8_encode_ascii l : Forall (λ c, code c < 128)%Z l → utf8_encode l = l.
Proof.
  unfold utf8_encode. induction 1 as [|c l Hc _ IH]; [done|]. rewrite bind_cons, IH.
  unfold utf8_encode_cp. by rewrite (proj2 (Z.ltb_lt _ _)).
Qed.

(** The encoding of a host without ['%'] has no ['%']: the bytes of a
    non-ASCII code unit are at or above 0x80. *)
Lemma utf8_encode_no_percent l : "%"%char ∉ l → Forall (λ c, is_char c "%" = false) (utf8_encode l).
Proof.
  unfold utf8_encode. induction l as [|c l IH]; intros Hl; [done|]. rewrite elem_of_cons in Hl.
  rewrite bind_cons. apply Forall_app. split; [|apply IH; tauto].
  pose proof (code_bound c). unfold utf8_encode_cp. destruct (Z.ltb_spec (code c) 128).
  - constructor; [|done]. apply bool_decide_eq_false_2. intros ->. tauto.
  - repeat constructor; apply not_char; rewrite code_of_Z; code_lits; Z.div_mod_to_equations; lia.
Qed.

(** On an ASCII domain the checks are those of the lower-cased domain. *)
Lemma domain_ok_ascii l :
  Forall (λ c, code c < 128)%Z l →
  domain_ok (map code l) = negb (existsb forbidden_domain_cp (map lower l)) &&
    (if ends_in_number (map lower l) then ipv4_ok (map lower l) else true).
Proof.
  intros Hl. unfold domain_ok.
  assert (existsb (Z.eqb replacement) (map code l) = false) as ->.
  { apply not_true_iff_false. rewrite existsb_exists.
    intros (x & Hin%list_elem_of_In & Hx%Z.eqb_eq). apply list_elem_of_fmap in Hin as (c & -> & Hc).
    apply (proj1 (Forall_forall _ _) Hl) in Hc. unfold replacement in Hx. lia. }
  assert (map domain_cp (map code l) = map lower l) as ->; [|done].
  rewrite map_map. apply map_ext_Forall. eapply Forall_impl; [apply Hl|]. intros c Hc.
  unfold domain_cp. by rewrite (proj2 (Z.ltb_lt _ _)), ascii_of_code.
Qed.

(** A domain of ASCII characters without ['%'] is only lower-cased. *)
Lemma host_ok_ascii h :
  head h ≠ Some "["%char → Forall (λ c, code c < 128 ∧ is_char c "%" = false)%Z h →
  host_ok true h = negb (existsb forbidden_domain_cp (map lower h)) &&
    (if ends_in_number (map lower h) then ipv4_ok (map lower h) else true).
Proof.
  intros Hb Hh. assert (Forall (λ c, code c < 128)%Z h) as Ha by (eapply Forall_impl; [apply Hh|intros ? []]; done).
  rewrite host_ok_domain, utf8_encode_ascii, percent_decode_id by
    (done || by eapply Forall_impl; [apply Hh|intros ? []]).
  rewrite <- (utf8_encode_ascii h Ha) at 1. rewrite utf8_decode_encode. by apply domain_ok_ascii.
Qed.

Lemma split_dots_app p l :
  Forall (λ c, is_char c "." = false) p → split_dots (p ++ "."%char :: l) = p :: split_dots l.
Proof. induction 1 as [|c p Hc _ IH]; [done|]. simpl. by rewrite Hc, IH. Qed.

Lemma split_dots_none p : Forall (λ c, is_char c "." = false) p → split_dots p = [p].
Proof. induction 1 as [|c p Hc _ IH]; [done|]. simpl. by rewrite Hc, IH. Qed.

Lemma radix_value_dec acc l :
  Forall (λ c, is_ascii_digit c = true) l →
  radix_value 10 acc l = Some (foldl (λ acc c, acc * 10 + (code c - 48)) acc l)%Z.
Proof.
  intros Hl. revert acc. induction Hl as [|c l Hc _ IH]; intros acc; [done|].
  simpl. unfold hex_value. rewrite Hc. apply in_range_spec in Hc.
  rewrite (proj2 (Z.ltb_lt _ _)) by lia. apply IH.
Qed.

(** A canonical decimal part is read by the IPv4 number parser as its value. *)
Lemma ipv4_number_canonical l : canonical_digits l → ipv4_number l = Some (dec_val l).
Proof.
  intros (Hne & Hd & Hz). destruct l as [|c rest]; [done|]. unfold ipv4_number.
  destruct (is_char c "0") eqn:Hc.
  - unfold is_char in Hc. case_bool_decide as E; [subst c|done].
    destruct Hz as [[= ->]|Hh]; [done|by destruct Hh].
  - by apply radix_value_dec.
Qed.

Lemma digits_no_dot l : Forall (λ c, is_ascii_digit c = true) l → Forall (λ c, is_char c "." = false) l.
Proof.
  intros Hl. eapply Forall_impl; [apply Hl|]. intros c Hc%in_range_spec. char_false.
Qed.

Lemma digit_or_dot_quad a b c d :
  Forall (λ x, is_ascii_digit x = true) a → Forall (λ x, is_ascii_digit x = true) b →
  Forall (λ x, is_ascii_digit x = true) c → Forall (λ x, is_ascii_digit x = true) d →
  Forall (λ x, is_ascii_digit x || is_char x "." = true) (a ++ "."%char :: b ++ "."%char :: c ++ "."%char :: d).
Proof.
  intros Ha Hb Hc Hd. assert (∀ l, Forall (λ x, is_ascii_digit x = true) l →
    Forall (λ x, is_ascii_digit x || is_char x "." = true) l) as Hw.
  { intros l Hl. eapply Forall_impl; [apply Hl|]. intros x ->. done. }
  repeat (apply Forall_app; split; [by apply Hw|]; constructor; [done|]). by apply Hw.
Qed.

(** The host parser on four canonical decimal parts: accepted exactly when
    the first three are at most 255 and the last is below 256. *)
Lemma host_ok_quad a b c d :
  canonical_digits a → canonical_digits b → canonical_digits c → canonical_digits d →
  host_ok true (a ++ "."%char :: b ++ "."%char :: c ++ "."%char :: d) =
  (dec_val a <=? 255)%Z && (dec_val b <=? 255)%Z && (dec_val c <=? 255)%Z && (dec_val d <? 256)%Z.
Proof.
  intros Ha Hb Hc Hd. set (q := a ++ _).
  pose proof (Forall_impl _ _ _ (digit_or_dot_quad a b c d (proj1 (proj2 Ha)) (proj1 (proj2 Hb))
                (proj1 (proj2 Hc)) (proj1 (proj2 Hd))) digit_or_dot_facts) as Hq.
  assert (map lower q = q) as Hdec.
  { rewrite map_lower_id; [done|]. eapply Forall_impl; [apply Hq|]. by intros ? (_ & _ & ? & _ & _). }
  assert (existsb forbidden_domain_cp q = false) as Hforb.
  { apply not_true_iff_false. rewrite existsb_exists.
    intros (x & Hx%list_elem_of_In%(proj1 (Forall_forall _ _) Hq) & Hf). destruct Hx as (_ & Hx & _). congruence. }
  assert (split_dots q = [a; b; c; d]) as Hsplit.
  { subst q. rewrite !split_dots_app, split_dots_none; [done|..]; apply digits_no_dot;
      [apply Hd|apply Hc|apply Hb|apply Ha]. }
  destruct a as [|xa a']; [by destruct Ha|]. destruct d as [|xd d']; [by destruct Hd|].
  rewrite host_ok_ascii; last first.
  { eapply Forall_impl; [apply Hq|]. by intros ? (_ & _ & _ & ? & ?). }
  { subst q. destruct Ha as (_ & Hda & _). apply Forall_cons in Hda as [Hxa%in_range_spec _].
    intros [= ->]. code_lits. lia. }
  rewrite Hdec, Hforb. unfold ends_in_number, ipv4_ok. rewrite Hsplit. cbn [drop_trailing_empty rev app last].
  rewrite !ipv4_number_canonical by done.
  rewrite (proj2 (bool_decide_eq_false _)), bool_decide_eq_true_2, orb_true_r by done.
  assert (mapM ipv4_number [xa :: a'; b; c; xd :: d'] =
          Some [dec_val (xa :: a'); dec_val b; dec_val c; dec_val (xd :: d')]) as ->.
  { apply mapM_Some. by repeat constructor; apply ipv4_number_canonical. }
  generalize (dec_val (xa :: a')), (dec_val b), (dec_val c), (dec_val (xd :: d')). intros va vb vc vd.
  simpl. change (256 ^ Z.of_nat 1)%Z with 256%Z.
  by destruct (va <=? 255)%Z, (vb <=? 255)%Z, (vc <=? 255)%Z, (vd <? 256)%Z.
Qed.

Lemma scan_scheme_split l acc sch rest :
  scan_scheme l acc = Some (sch, rest) →
  ∃ l1, l = l1 ++ ":"%char :: rest ∧ Forall (λ c, scheme_char c = true) l1.
Proof.
  revert acc. induction l as [|c l IH]; intros acc H; simpl in H; [done|].
  destruct (is_char c ":") eqn:Hc.
  - injection H as <- <-. exists []. unfold is_char in Hc. case_bool_decide; by subst.
  - destruct (scheme_char c) eqn:Hs; [|done].
    destruct (IH _ H) as (l1 & -> & Hl1). exists (c :: l1). by split; [|constructor].
Qed.

(** C25 The parser accepts only input that, once stripped of surrounding
    C0 controls and spaces and of tabs and newlines, starts with a
    scheme: an ASCII letter, then letters, digits, '+', '-' or '.', then
    ':'.  Without a base URL a relative reference ("example.com",
    "/path") is rejected. *)
Theorem parse_ok_scheme s :
  parse_ok s = true →
  ∃ c l1 rest, preprocess s = c :: l1 ++ ":"%char :: rest ∧
    is_ascii_alpha c = true ∧ Forall (λ c, scheme_char c = true) l1.
Proof.
  unfold parse_ok, parse_scheme. destruct (preprocess s) as [|c l]; [done|].
  destruct (is_ascii_alpha c) eqn:Ha; [|done].
  destruct (scan_scheme l [lower c]) as [[sch rest]|] eqn:Hsc; [|done]. intros _.
  destruct (scan_scheme_split _ _ _ _ Hsc) as (l1 & -> & Hl1). by exists c, l1, rest.
Qed.

(** ** Bytes that never occur in UTF-8 *)

Lemma u8_lead_upper b : (u8_upper (u8_lead b).2 <= 191)%Z.
Proof.
  unfold u8_lead. destruct (b <=? 127)%Z; [simpl; lia|].
  destruct ((194 <=? b) && (b <=? 223))%Z; [simpl; lia|].
  destruct ((224 <=? b) && (b <=? 239))%Z; [simpl; destruct (b =? 237)%Z; lia|].
  destruct ((240 <=? b) && (b <=? 244))%Z; [simpl; destruct (b =? 244)%Z; lia|]. simpl; lia.
Qed.

(** 0xC0, 0xC1 and 0xF5-0xFF start no sequence. *)
Lemma u8_lead_bad b : (b = 192 ∨ b = 193 ∨ 245 ≤ b)%Z → u8_lead b = ([replacement], u8_init).
Proof.
  intros Hb. unfold u8_lead. rewrite (proj2 (Z.leb_gt b 127)) by lia.
  assert (((194 <=? b) && (b <=? 223))%Z = false) as -> by (apply andb_false_iff; rewrite !Z.leb_gt; lia).
  assert (((224 <=? b) && (b <=? 239))%Z = false) as -> by (apply andb_false_iff; rewrite !Z.leb_gt; lia).
  assert (((240 <=? b) && (b <=? 244))%Z = false) as -> by (apply andb_false_iff; rewrite !Z.leb_gt; lia).
  done.
Qed.

(** Such a byte anywhere in the input makes the decoder emit U+FFFD,
    whatever sequence is pending: it is above every continuation bound. *)
Lemma u8_decode_bad st l1 b l2 :
  (u8_upper st <= 191)%Z → (b = 192 ∨ b = 193 ∨ 245 ≤ b)%Z → replacement ∈ u8_decode st (l1 ++ b :: l2).
Proof.
  intros Hst Hb. revert st Hst. induction l1 as [|x l1 IH]; intros st Hst; simpl.
  - destruct (Nat.eqb (u8_needed st) 0).
    + rewrite u8_lead_bad by done. by apply elem_of_cons; left.
    + assert ((b <=? u8_upper st)%Z = false) as -> by (apply Z.leb_gt; lia).
      rewrite andb_false_r. cbn [negb]. destruct (u8_lead b). by apply elem_of_cons; left.
  - destruct (Nat.eqb (u8_needed st) 0).
    + pose proof (u8_lead_upper x) as Hu. destruct (u8_lead x) as [out st']. apply elem_of_app. by right; apply IH.
    + destruct (negb ((u8_lower st <=? x)%Z && (x <=? u8_upper st)%Z));
        [destruct (u8_lead x); by apply elem_of_cons; left|].
      match goal with |- context [if ?c then _ else _] => destruct c end;
        [apply elem_of_cons; right|]; apply IH; simpl; lia.
Qed.

(** ** Non-special schemes *)

Lemma lower_facts c :
  is_ascii_lower c = true →
  lower c = c ∧ is_ascii_alpha c = true ∧ scheme_char c = true ∧ is_char c ":" = false ∧
  c0_or_space c = false ∧ tab_or_newline c = false.
Proof.
  intros Hc. pose proof Hc as Hr. unfold is_ascii_lower in Hr. rewrite in_range_spec in Hr.
  assert (is_ascii_upper c = false) as Hu.
  { apply not_true_iff_false. unfold is_ascii_upper. rewrite in_range_spec. lia. }
  unfold lower, scheme_char, is_ascii_alnum, is_ascii_alpha, c0_or_space, tab_or_newline. rewrite Hu, Hc.
  split_and!; try reflexivity; [char_false|apply Z.leb_gt; lia|apply bool_decide_eq_false_2; lia].
Qed.

Lemma scan_scheme_lower cs r acc :
  Forall (λ c, is_ascii_lower c = true) cs → scan_scheme (cs ++ ":"%char :: r) acc = Some (rev acc ++ cs, r).
Proof.
  intros Hcs. revert acc. induction Hcs as [|c cs Hc _ IH]; intros acc.
  - rewrite app_nil_r. reflexivity.
  - destruct (lower_facts c Hc) as (Hl & _ & Hs & Hcol & _). simpl. rewrite Hcol, Hs, Hl, IH.
    simpl. by rewrite <- app_assoc.
Qed.

(** After a non-special scheme, input that does not start with ['/'] is an
    opaque path, which never fails. *)
Lemma opaque_path_ok l :
  head l ≠ Some "/"%char →
  match l with "/"%char :: "/"%char :: l' => authority_ok false l' | _ => true end = true.
Proof.
  intros Hh. destruct l as [|x l]; [done|].
  destruct x as [[] [] [] [] [] [] [] []]; try reflexivity. by destruct Hh.
Qed.

End Whatwg.

#[export] Instance whatwg_parser : UrlParser := {| url_parses := Whatwg.parse_ok |}.

(** C27 A dotted-decimal host is an IPv4 address: for four canonical
    decimal numerals [a.b.c.d], [isValidUrl("http://a.b.c.d")] holds exactly
    when every part is at most 255; "http://1.2.3.256" is rejected, as the
    WHATWG IPv4 parser rejects a last part of 256 or more. *)
Theorem dotted_quad_valid a b c d :
  canonical_digits a → canonical_digits b → canonical_digits c → canonical_digits d →
  isValidUrl (String.append "http://"
    (String.string_of_list_ascii (a ++ "."%char :: b ++ "."%char :: c ++ "."%char :: d))) = true ↔
  (dec_val a ≤ 255 ∧ dec_val b ≤ 255 ∧ dec_val c ≤ 255 ∧ dec_val d ≤ 255)%Z.
Proof.
  intros Ha Hb Hc Hd. unfold isValidUrl. cbn [url_parses whatwg_parser].
  rewrite Whatwg.parse_ok_http, Whatwg.host_ok_quad by
    (done || (eapply Forall_impl; [apply Whatwg.digit_or_dot_quad; apply Ha || apply Hb || apply Hc || apply Hd|];
              by intros ? []%Whatwg.digit_or_dot_facts)).
  rewrite bool_decide_eq_false_2 by (by destruct a). cbn [negb andb].
  rewrite !andb_true_iff, !Z.leb_le, Z.ltb_lt. lia.
Qed.

(** C28 Percent-escapes in the host are decoded, once, as UTF-8 before
    it is checked: for a host of letters, digits, ['.'], ['-'] and
    non-ASCII code units (no ['%']), the validity of
    [isValidUrl("http://" + h)] is the same as for the host with every
    byte of its UTF-8 encoding written as ["%XY"]; "http://%65xample.com"
    is accepted as "http://example.com" is, "%C3%A9" stands for U+00E9,
    and an escaped forbidden code point such as "%2F" is rejected. *)
Theorem percent_encoded_host_valid h :
  Forall (λ c, Whatwg.plain_char c = true) h → "%"%char ∉ h →
  isValidUrl (String.append "http://"
                (String.string_of_list_ascii (Whatwg.percent_encode (Whatwg.utf8_encode h)))) =
  isValidUrl (String.append "http://" (String.string_of_list_ascii h)).
Proof.
  intros Hh Hp. unfold isValidUrl. cbn [url_parses whatwg_parser].
  rewrite !Whatwg.parse_ok_http by (done || apply Whatwg.percent_encode_plain).
  rewrite (Whatwg.host_ok_domain h), (Whatwg.host_ok_domain (Whatwg.percent_encode _))
    by (apply Whatwg.plain_not_bracket; done || apply Whatwg.percent_encode_plain).
  rewrite (Whatwg.utf8_encode_ascii (Whatwg.percent_encode _)), Whatwg.percent_decode_encode
    by apply Whatwg.percent_encode_ascii.
  rewrite (Whatwg.percent_decode_id (Whatwg.utf8_encode h)) by by apply Whatwg.utf8_encode_no_percent.
  do 2 f_equal. apply bool_decide_ext. destruct h as [|c h]; [done|].
  unfold Whatwg.utf8_encode. rewrite bind_cons. unfold Whatwg.utf8_encode_cp.
  by destruct (code c <? 128)%Z.
Qed.

(** C29 The port is a 16-bit number: for a non-empty host of letters,
    digits, ['.'], ['-'], ['%'] and non-ASCII code units and a port of ASCII digits (leading
    zeros allowed, possibly none), [isValidUrl("http://" + h + ":" + p)]
    holds exactly when the host is accepted and the port's value is at
    most 65535. *)
Theorem port_range_valid h p :
  Forall (λ c, Whatwg.plain_char c = true) h → h ≠ [] → Forall (λ c, is_ascii_digit c = true) p →
  isValidUrl (String.append "http://" (String.string_of_list_ascii (h ++ ":"%char :: p))) =
  Whatwg.host_ok true h && (dec_val p <=? 65535)%Z.
Proof.
  intros Hh Hne Hp. unfold isValidUrl. cbn [url_parses whatwg_parser].
  rewrite Whatwg.parse_ok_http_authority.
  - rewrite Whatwg.split_port_at by done. unfold Whatwg.port_ok. rewrite Whatwg.digits_value_dec by done.
    change (foldl _ 0%Z p) with (dec_val p). rewrite bool_decide_eq_false_2 by done.
    apply andb_comm.
  - apply Forall_app. split; [eapply Forall_impl; [apply Hh|]; by intros c ->|].
    constructor; [done|]. eapply Forall_impl; [apply Hp|]. intros c Hc.
    unfold Whatwg.plain_char, is_ascii_alnum. by rewrite Hc, orb_true_r.
Qed.

(** C30 The IPv6 parser reads back every address written in full: for
    eight pieces in [0, 65535], each written as four hexadecimal digits and
    separated by [':'], the parser returns the same pieces, and the host
    ["[" + that + "]"] of a special URL is accepted. *)
Theorem ipv6_roundtrip ps :
  length ps = 8 → Forall (λ p, 0 ≤ p < 65536)%Z ps →
  Whatwg.ipv6_parse (Whatwg.print_ipv6 ps) = Some ps ∧
  Whatwg.host_ok true ("["%char :: Whatwg.print_ipv6 ps ++ ["]"%char]) = true.
Proof.
  intros Hlen Hps. destruct ps as [|p ps']; [done|].
  assert (Hne : ps' ≠ []) by (intros ->; done).
  assert (Hparse : Whatwg.ipv6_parse (Whatwg.print_ipv6 (p :: ps')) = Some (p :: ps')).
  { rewrite Whatwg.ipv6_parse_no_colon.
    - replace (replicate 8 0%Z) with ([] ++ replicate (length (p :: ps')) 0%Z) by (by rewrite Hlen).
      change 0 with (length (@nil Z)) at 1.
      rewrite Whatwg.v6_loop_print by (done || lia). done.
    - rewrite Whatwg.print_ipv6_cons by done. unfold Whatwg.hex4. cbn [app head].
      intros [= Hc]. apply Forall_cons in Hps as [Hp _].
      assert (Whatwg.is_char (Whatwg.hex_digit (p / 4096)) ":" = false) as Hf
        by (apply Whatwg.hex_digit_not_colon; Z.div_mod_to_equations; lia).
      rewrite Hc in Hf. done. }
  split; [done|]. unfold Whatwg.host_ok. rewrite last_snoc, removelast_last, Hparse. done.
Qed.


(** C31 A host whose percent-escapes decode to a byte that never occurs in
    UTF-8 (0xC0, 0xC1, or 0xF5 to 0xFF, such as "%FF") is rejected: the
    decoder turns it into U+FFFD, whatever sequence is pending, and UTS 46
    disallows U+FFFD, so [isValidUrl("http://" + h)] is false. *)
Theorem invalid_utf8_host_rejected h b :
  Forall (λ c, Whatwg.plain_char c = true) h →
  b ∈ Whatwg.percent_decode (Whatwg.utf8_encode h) → (code b = 192 ∨ code b = 193 ∨ 245 ≤ code b)%Z →
  isValidUrl (String.append "http://" (String.string_of_list_ascii h)) = false.
Proof.
  intros Hh Hb Hcode. unfold isValidUrl. cbn [url_parses whatwg_parser].
  rewrite Whatwg.parse_ok_http, Whatwg.host_ok_domain by (done || by apply Whatwg.plain_not_bracket).
  apply list_elem_of_split in Hb as (l1 & l2 & Hsplit).
  unfold Whatwg.domain_ok, Whatwg.utf8_decode. rewrite Hsplit, map_app. cbn [map].
  assert (existsb (Z.eqb Whatwg.replacement) (Whatwg.u8_decode Whatwg.u8_init (map code l1 ++ code b :: map code l2))
          = true) as ->.
  { apply existsb_exists. exists Whatwg.replacement. split; [|apply Z.eqb_refl].
    apply list_elem_of_In, Whatwg.u8_decode_bad; [simpl; lia|done]. }
  by destruct (negb _).
Qed.

(** C26 [isValidUrl] accepts every URL of a non-special scheme whose body
    does not start with ['/']: for a scheme of lower-case letters that is
    not one of ftp, file, http, https, ws and wss, and any text without
    tabs or newlines after the [':'], the rest is an opaque path, which
    never fails.  So "javascript:alert(1)" and "mailto:a@b.c" are valid
    URLs, stored, and later passed to [window.open]. *)
Theorem non_special_scheme_valid sch p :
  sch ≠ [] → Forall (λ c, is_ascii_lower c = true) sch → Whatwg.is_special sch = false →
  Forall (λ c, Whatwg.tab_or_newline c = false) p → head p ≠ Some "/"%char →
  isValidUrl (String.string_of_list_ascii (sch ++ ":"%char :: p)) = true.
Proof.
  intros Hne Hs Hsp Hp Hh. destruct sch as [|c0 cs]; [done|]. apply Forall_cons in Hs as [Hc0 Hcs].
  destruct (Whatwg.lower_facts c0 Hc0) as (Hl0 & Ha0 & _ & _ & Hsp0 & Htn0).
  unfold isValidUrl. cbn [url_parses whatwg_parser]. unfold Whatwg.parse_ok, Whatwg.preprocess.
  rewrite String.list_ascii_of_string_of_list_ascii.
  destruct (strip_prefix Whatwg.c0_or_space (c0 :: cs) p ":") as (l' & r & -> & ->);
    [cbn [app drop_while]; by rewrite Hsp0|reflexivity|].
  apply Forall_app in Hp as [Hp' _].
  rewrite filter_all; last first.
  { apply Forall_app. split; [|by constructor].
    constructor; [done|]. eapply Forall_impl; [apply Hcs|]. intros c Hc. apply (Whatwg.lower_facts c Hc). }
  cbn [Whatwg.parse_scheme app]. rewrite Ha0, Whatwg.scan_scheme_lower by done. cbn [rev app]. rewrite Hl0.
  cbn iota beta. rewrite bool_decide_eq_false_2, Hsp.
  - apply Whatwg.opaque_path_ok. destruct l'; [done|]. exact Hh.
  - intros Hf. unfold Whatwg.is_special in Hsp. rewrite Hf in Hsp. by vm_compute in Hsp.
Qed.

Example isValidUrl_cases :
  isValidUrl "https://example.com" = true ∧ isValidUrl "javascript:alert(1)" = true ∧
  isValidUrl "mailto:a@b.c" = true ∧ isValidUrl "example.com" = false ∧
  isValidUrl "http://" = false ∧ isValidUrl "http://a.org:65536" = false ∧
  isValidUrl "http://[::ffff:1.2.3.4]:8080/" = true ∧ isValidUrl "http://[1::2::3]/" = false ∧
  isValidUrl "http://%FF.com" = false ∧ isValidUrl "http://%ED%A0%80.com" = false ∧
  isValidUrl "http://%C3%A9.com" = true.
Proof. split_and!; vm_compute; reflexivity. Qed.

Lemma parse_ok_scheme_witness :
  ∃ c l1 rest, Whatwg.preprocess " https://a.org" = c :: l1 ++ ":"%char :: rest ∧
    is_ascii_alpha c = true ∧ Forall (λ c, Whatwg.scheme_char c = true) l1.
Proof. apply Whatwg.parse_ok_scheme. vm_compute. reflexivity. Defined.

Lemma dotted_quad_valid_witness :
  isValidUrl "http://192.168.0.255" = true ∧ isValidUrl "http://1.2.3.256" = false.
Proof.
  split.
  - refine (proj2 (dotted_quad_valid ["1"; "9"; "2"] ["1"; "6"; "8"] ["0"] ["2"; "5"; "5"] _ _ _ _)%char _);
      vm_decide.
  - apply not_true_iff_false.
    refine (λ H, proj2 (proj2 (proj2 (proj1 (dotted_quad_valid ["1"] ["2"] ["3"] ["2"; "5"; "6"] _ _ _ _)%char H)))
                 _); [vm_decide..|vm_compute; reflexivity].
Defined.

Lemma percent_encoded_host_valid_witness :
  isValidUrl "http://%65%78%61%6D%70%6C%65%2E%63%6F%6D" = isValidUrl "http://example.com" ∧
  isValidUrl "http://%C3%A9%2E%63%6F%6D" =
  isValidUrl (String.append "http://" (String.String (ascii_of_nat 233) ".com")).
Proof.
  split.
  - apply (percent_encoded_host_valid (String.list_ascii_of_string "example.com")); vm_decide.
  - apply (percent_encoded_host_valid (ascii_of_nat 233 :: String.list_ascii_of_string ".com")); vm_decide.
Defined.

Lemma port_range_valid_witness :
  isValidUrl "http://a.org:65535" = true ∧ isValidUrl "http://a.org:065535" = true ∧
  isValidUrl "http://a.org:65536" = false.
Proof.
  split_and!.
  - etransitivity; [apply (port_range_valid (String.list_ascii_of_string "a.org")
                                            (String.list_ascii_of_string "65535")); vm_decide|].
    vm_compute. reflexivity.
  - etransitivity; [apply (port_range_valid (String.list_ascii_of_string "a.org")
                                            (String.list_ascii_of_string "065535")); vm_decide|].
    vm_compute. reflexivity.
  - etransitivity; [apply (port_range_valid (String.list_ascii_of_string "a.org")
                                            (String.list_ascii_of_string "65536")); vm_decide|].
    vm_compute. reflexivity.
Defined.

Lemma ipv6_roundtrip_witness :
  Whatwg.ipv6_parse (Whatwg.print_ipv6 [8193; 3512; 0; 0; 0; 0; 0; 1]%Z) = Some [8193; 3512; 0; 0; 0; 0; 0; 1]%Z ∧
  Whatwg.host_ok true ("["%char :: Whatwg.print_ipv6 [8193; 3512; 0; 0; 0; 0; 0; 1]%Z ++ ["]"%char]) = true.
Proof. apply ipv6_roundtrip; vm_decide. Defined.

Lemma invalid_utf8_host_rejected_witness :
  isValidUrl "http://%FF.com" = false ∧ isValidUrl "http://a%C0%AF" = false.
Proof.
  split.
  - apply (invalid_utf8_host_rejected (String.list_ascii_of_string "%FF.com") (ascii_of_nat 255)); vm_decide.
  - apply (invalid_utf8_host_rejected (String.list_ascii_of_string "a%C0%AF") (ascii_of_nat 192)); vm_decide.
Defined.

Lemma non_special_scheme_valid_witness :
  isValidUrl "javascript:alert(1)" = true ∧ isValidUrl "mailto:a@b.c" = true.
Proof.
  split.
  - apply (non_special_scheme_valid (String.list_ascii_of_string "javascript")
                                    (String.list_ascii_of_string "alert(1)")); vm_decide.
  - apply (non_special_scheme_valid (String.list_ascii_of_string "mailto")
                                    (String.list_ascii_of_string "a@b.c")); vm_decide.
Defined.
