(* ===== verification/Shortener.v ===== *)
(** * The component's data and its event handlers

    The React state of [UrlShortener] (lines 20-22) is the record
    [UiState].  A handler runs against the state of the render that created
    it (its closure) and a [World]: the setter calls it makes are queued as
    [Update]s, one queue per state hook, and its browser side effects
    ([alert], [window.open]) are appended to a trace; the random cursor
    counts the [Math.random] calls.  [commit] applies the queues as React
    does when it re-renders after the event.

    [handleShorten] (lines 33-66), [handleRedirect] (68-75),
    [handleDelete] (77-81) and the input's [onChange] (line 94) are one
    Definition each, with the guards and early returns of the source.
    [Spec] states the spec's abstract store (a stdpp [gmap]) and
    operations; the theorems at the end show each handler refines them. *)

From S2P Require Import Prelude JsFloat JsObject ShortKey Url.
Import Binary64.

Module Shortener.

(** ** Data *)

(** An entry of [urlMap]: [{ originalUrl, clicks }] (lines 62 and 72). *)
Record Entry := mkEntry { originalUrl : string; clicks : Z }.

#[export] Instance Entry_eq_dec : EqDecision Entry.
Proof. solve_decision. Defined.

Abbreviation UrlMap := (jsobj Entry).

(** Entries are objects, and objects are truthy. *)
Definition entry_truthy (_ : Entry) : bool := true.

(** The three [useState] hooks. *)
Record UiState := mkUi { inputUrl : string; urlMap : UrlMap; error : string }.

(** A queued state update: [setX(v)] or [setX(prev => ...)]. *)
Inductive Update (A : Type) := Replace (v : A) | Apply (f : A → A).
Arguments Replace {A} v.
Arguments Apply {A} f.

Definition apply_update {A} (x : A) (u : Update A) : A :=
  match u with Replace v => v | Apply f => f x end.

Definition apply_updates {A} (x : A) (q : list (Update A)) : A := foldl apply_update x q.

(** Browser side effects, in program order. *)
Inductive Effect := Alert (msg : string) | OpenWindow (url target : string).

Record World := mkWorld {
  q_input : list (Update string);
  q_map : list (Update UrlMap);
  q_error : list (Update string);
  effects : list Effect;
  cursor : nat }.

(** The world at the start of an event: React has flushed every queue. *)
Definition fresh_world (eff : list Effect) (cur : nat) : World := mkWorld [] [] [] eff cur.

(** React's re-render after the event: each hook's queue is applied to the
    value of the render the handler closed over. *)
Definition commit (st : UiState) (w : World) : UiState :=
  mkUi (apply_updates (inputUrl st) (q_input w))
       (apply_updates (urlMap st) (q_map w))
       (apply_updates (error st) (q_error w)).

(** ** The world's primitive operations *)

Definition setInputUrl (v : string) : StateM World unit :=
  modify_st (λ w, mkWorld (q_input w ++ [Replace v]) (q_map w) (q_error w) (effects w) (cursor w)).

Definition setUrlMap (u : Update UrlMap) : StateM World unit :=
  modify_st (λ w, mkWorld (q_input w) (q_map w ++ [u]) (q_error w) (effects w) (cursor w)).

Definition setError (v : string) : StateM World unit :=
  modify_st (λ w, mkWorld (q_input w) (q_map w) (q_error w ++ [Replace v]) (effects w) (cursor w)).

Definition emit (e : Effect) : StateM World unit :=
  modify_st (λ w, mkWorld (q_input w) (q_map w) (q_error w) (effects w ++ [e]) (cursor w)).

Definition alert (msg : string) : StateM World unit := emit (Alert msg).

Definition window_open (url target : string) : StateM World unit := emit (OpenWindow url target).

(** ** String helpers of the handlers *)

(** [String.prototype.trim] removes WhiteSpace and LineTerminator code
    units; those below 256 are TAB, LF, VT, FF, CR, SPACE and NBSP. *)
Definition js_whitespace (c : ascii) : bool :=
  bool_decide (code c ∈ [9; 10; 11; 12; 13; 32; 160])%Z.

Definition trim (s : string) : string :=
  String.string_of_list_ascii (strip js_whitespace (String.list_ascii_of_string s)).

(** The predicate of [Object.keys(urlMap).find(...)] (line 47); a key
    comes from [Object.keys], so [urlMap[key]] is an own entry. *)
Definition same_url (m : UrlMap) (url : string) (key : string) : bool :=
  match JsObj.get m key with
  | Some e => String.eqb (originalUrl e) url
  | None => false
  end.

(** [if (existingKey)]: [undefined] and the empty string are falsy. *)
Definition key_truthy (k : option string) : bool :=
  match k with Some s => negb (String.eqb s "") | None => false end.

Section Handlers.
Context `{UrlParser} (rng : ShortKey.Rng).

(** The do-while loop of lines 55-58, on the random cursor; [fuel] bounds
    its iterations. *)
Definition draw_fresh_key (fuel : nat) (m : UrlMap) : StateM World string :=
  λ w, match ShortKey.gen_loop fuel (JsObj.get_truthy entry_truthy m) rng (cursor w) with
       | Some (k, pos') =>
           Some (k, mkWorld (q_input w) (q_map w) (q_error w) (effects w) pos')
       | None => None
       end.

(** [handleShorten] (lines 33-66). *)
Definition handleShorten (fuel : nat) (st : UiState) : StateM World unit :=
  setError "";;
  if bool_decide (trim (inputUrl st) = "") then setError "Please enter a URL."
  else if negb (isValidUrl (inputUrl st)) then setError "Invalid URL format."
  else
    let existingKey := List.find (same_url (urlMap st) (inputUrl st)) (JsObj.keys (urlMap st)) in
    if key_truthy existingKey then
      alert "URL already shortened.";;
      setInputUrl ""
    else
      shortKey ← draw_fresh_key fuel (urlMap st);
      let updated := JsObj.set (JsObj.spread (urlMap st)) shortKey
                       (mkEntry (inputUrl st) 0) in
      setUrlMap (Replace updated);;
      setInputUrl "".

(** [handleRedirect] (lines 68-75): the updater closes over [entry], read
    from the render's [urlMap]. *)
Definition handleRedirect (st : UiState) (key : string) : StateM World unit :=
  match JsObj.get (urlMap st) key with
  | None => mret ()
  | Some entry =>
      let updatedEntry := mkEntry (originalUrl entry) (add1 (clicks entry)) in
      setUrlMap (Apply (λ prev, JsObj.set (JsObj.spread prev) key updatedEntry));;
      window_open (originalUrl entry) "_blank"
  end.

(** [handleDelete] (lines 77-81). *)
Definition handleDelete (st : UiState) (key : string) : StateM World unit :=
  let updated := JsObj.del (JsObj.spread (urlMap st)) key in
  setUrlMap (Replace updated).

(** The input's [onChange] (line 94). *)
Definition handleInput (value : string) : StateM World unit := setInputUrl value.

End Handlers.

(** ** The spec's abstract store and operations (spec sections 3 and 4) *)

Module Spec.

Abbreviation Store := (gmap string Entry).

Inductive ShortenError := EmptyInput | InvalidUrl | Duplicate (k : string).

(** [shorten] as a relation: the key is the one random choice. *)
Definition shorten (valid : string → bool) (url : string) (S : Store)
    (r : (string * Store) + ShortenError) : Prop :=
  match r with
  | inr EmptyInput => trim url = ""
  | inr InvalidUrl => trim url ≠ "" ∧ valid url = false
  | inr (Duplicate k) =>
      trim url ≠ "" ∧ valid url = true ∧ ∃ e, S !! k = Some e ∧ originalUrl e = url
  | inl (k, S') =>
      trim url ≠ "" ∧ valid url = true ∧
      (∀ k' e, S !! k' = Some e → originalUrl e ≠ url) ∧
      S !! k = None ∧ S' = <[k := mkEntry url 0]> S
  end.

Definition open (k : string) (S : Store) : Store :=
  match S !! k with
  | Some e => <[k := mkEntry (originalUrl e) (clicks e + 1)]> S
  | None => S
  end.

Definition delete (k : string) (S : Store) : Store := base.delete k S.

(** The spec's store as a state machine: every user action leaves the
    store unchanged or performs one of the three operations. *)
Inductive step (valid : string → bool) : Store → Store → Prop :=
  | step_stutter S : step valid S S
  | step_shorten S url k S' : shorten valid url S (inl (k, S')) → step valid S S'
  | step_open S k : step valid S (open k S)
  | step_delete S k : step valid S (delete k S).

End Spec.

(** ** Predicates of the theorems *)

(** The observable outcome of [handleShorten] for each result of the spec's
    [shorten]: the committed state and the effect trace. *)
Definition shorten_outcome (st st' : UiState) (eff eff' : list Effect)
    (r : (string * Spec.Store) + Spec.ShortenError) : Prop :=
  match r with
  | inl (k, S') =>
      JsObj.to_map (urlMap st') = S' ∧ JsObj.wf (urlMap st') ∧
      inputUrl st' = "" ∧ error st' = "" ∧ eff' = eff
  | inr Spec.EmptyInput =>
      urlMap st' = urlMap st ∧ inputUrl st' = inputUrl st ∧
      error st' = "Please enter a URL." ∧ eff' = eff
  | inr Spec.InvalidUrl =>
      urlMap st' = urlMap st ∧ inputUrl st' = inputUrl st ∧
      error st' = "Invalid URL format." ∧ eff' = eff
  | inr (Spec.Duplicate _) =>
      urlMap st' = urlMap st ∧ inputUrl st' = "" ∧ error st' = "" ∧
      eff' = eff ++ [Alert "URL already shortened."]
  end.

(** Clicks that the counter can reach and that print as integers. *)
Definition clicks_ok (m : UrlMap) : Prop :=
  ∀ k e, JsObj.get m k = Some e → (0 ≤ clicks e ≤ 2 ^ prec)%Z.

(** Every stored URL passed the checks of [handleShorten]. *)
Definition urls_ok `{UrlParser} (m : UrlMap) : Prop :=
  ∀ k e, JsObj.get m k = Some e → trim (originalUrl e) ≠ "" ∧ isValidUrl (originalUrl e) = true.

(** The three updates of [urlMap] in the program: the insertion of
    [handleShorten] (of the input, once it passed the two checks), the
    updater of [handleRedirect] and the copy without a key of
    [handleDelete]. *)
Inductive map_update `{UrlParser} (st : UiState) : Update UrlMap → Prop :=
  | mu_insert k :
      trim (inputUrl st) ≠ "" → isValidUrl (inputUrl st) = true →
      map_update st (Replace (JsObj.set (JsObj.spread (urlMap st)) k (mkEntry (inputUrl st) 0)))
  | mu_bump key e :
      JsObj.get (urlMap st) key = Some e →
      map_update st (Apply (λ prev, JsObj.set (JsObj.spread prev) key
                                      (mkEntry (originalUrl e) (add1 (clicks e)))))
  | mu_delete key :
      map_update st (Replace (JsObj.del (JsObj.spread (urlMap st)) key)).

(** A handler queues at most one update of [urlMap], of one of those
    forms. *)
Definition queues_map_update `{UrlParser} (st : UiState) (w : World) : Prop :=
  q_map w = [] ∨ ∃ u, q_map w = [u] ∧ map_update st u.

(** ** Lemmas on the handlers' building blocks *)

(** The object operations are reasoned about through their lemmas. *)
#[local] Arguments JsObj.keys : simpl never.
#[local] Arguments JsObj.set : simpl never.
#[local] Arguments JsObj.spread : simpl never.
#[local] Arguments JsObj.del : simpl never.
#[local] Arguments ShortKey.gen_loop : simpl never.

(** Unfold the world operations of a handler run. *)
Ltac run_world :=
  unfold setInputUrl, setUrlMap, setError, alert, window_open, emit, modify_st,
    mbind, StateM_bind, mret, StateM_ret in *.

(** Compute the state React commits from a concrete queue. *)
Ltac commit_simpl :=
  unfold commit, fresh_world; cbn [apply_updates foldl apply_update app urlMap inputUrl error
    effects q_input q_map q_error cursor] in *.

Lemma key_truthy_some k : key_truthy (Some k) = true ↔ k ≠ "".
Proof.
  unfold key_truthy. rewrite negb_true_iff.
  destruct (String.eqb_spec k ""); split; congruence.
Qed.

Lemma find_same_url_some (m : UrlMap) url k :
  List.find (same_url m url) (JsObj.keys m) = Some k →
  ∃ e, JsObj.get m k = Some e ∧ originalUrl e = url.
Proof.
  intros [_ Hk]%find_some. unfold same_url in Hk.
  destruct (JsObj.get m k) as [e|]; [|done]. apply String.eqb_eq in Hk. eauto.
Qed.

Lemma find_same_url_none (m : UrlMap) url :
  List.find (same_url m url) (JsObj.keys m) = None →
  ∀ k e, JsObj.to_map m !! k = Some e → originalUrl e ≠ url.
Proof.
  intros Hnone k e Hk Heq. eapply find_none in Hnone.
  - unfold same_url in Hnone. rewrite JsObj.get_to_map, Hk, Heq, String.eqb_refl in Hnone.
    discriminate.
  - apply list_elem_of_In, JsObj.elem_of_keys. by rewrite Hk.
Qed.

Lemma get_truthy_free (m : UrlMap) k :
  JsObj.get_truthy entry_truthy m k = false → JsObj.to_map m !! k = None.
Proof.
  unfold JsObj.get_truthy. rewrite JsObj.get_to_map. by destruct (JsObj.to_map m !! k).
Qed.

Lemma draw_fresh_key_inv `{UrlParser} rng fuel m w k w' :
  draw_fresh_key rng fuel m w = Some (k, w') →
  JsObj.to_map m !! k = None ∧
  ∃ pos', w' = mkWorld (q_input w) (q_map w) (q_error w) (effects w) pos' ∧
  ShortKey.loop_runs (JsObj.get_truthy entry_truthy m) rng (cursor w) k pos'.
Proof.
  unfold draw_fresh_key.
  destruct (ShortKey.gen_loop _ _ _ _) as [[k' pos']|] eqn:Hloop; [|done].
  intros ?; inv_eq. apply ShortKey.gen_loop_sound in Hloop.
  split; [|by eauto]. apply get_truthy_free. by eapply ShortKey.loop_runs_free.
Qed.

(** Generated keys are never [Object.prototype] members, so the loop
    condition [urlMap[shortKey]] tests own membership. *)
Lemma get_truthy_generated rng (m : UrlMap) pos :
  ShortKey.valid_rng rng →
  JsObj.get_truthy entry_truthy m (ShortKey.generateShortKey ShortKey.default_length rng pos) =
  bool_decide (is_Some (JsObj.to_map m !! ShortKey.generateShortKey ShortKey.default_length rng pos)).
Proof.
  intros Hrng. unfold JsObj.get_truthy. rewrite JsObj.get_to_map.
  destruct (_ !! _); [done|]. rewrite !bool_decide_false; [done| |].
  - by intros [? ?].
  - by apply ShortKey.key_not_proto.
Qed.

Lemma find_same_url_none_iff (m : UrlMap) url :
  (∀ k e, JsObj.to_map m !! k = Some e → originalUrl e ≠ url) →
  List.find (same_url m url) (JsObj.keys m) = None.
Proof.
  intros Hno. destruct (List.find _ _) as [k|] eqn:Hf; [|done]. exfalso.
  destruct (find_same_url_some _ _ _ Hf) as (e & He & Hurl).
  rewrite JsObj.get_to_map in He. by eapply Hno.
Qed.


(** When the only key holding [url] is [""], [if (existingKey)] is not
    taken: [find] returns [undefined] or the falsy [""]. *)
Lemma find_same_url_falsy (m : UrlMap) url :
  (∀ k e, JsObj.to_map m !! k = Some e → originalUrl e = url → k = "") →
  key_truthy (List.find (same_url m url) (JsObj.keys m)) = false.
Proof.
  intros Hno. destruct (List.find _ _) as [k|] eqn:Hf; [|done].
  destruct (find_same_url_some _ _ _ Hf) as (e & He & Hurl).
  rewrite JsObj.get_to_map in He. by rewrite (Hno _ _ He Hurl).
Qed.
Section HandlerTheorems.
Context `{UrlParser} (rng : ShortKey.Rng).

(** The outcome of a completed run of [handleShorten], case by case. *)
Lemma handleShorten_spec fuel st eff cur w' :
  JsObj.wf (urlMap st) → "" ∉ (urlMap st).*1 →
  handleShorten rng fuel st (fresh_world eff cur) = Some (tt, w') →
  ∃ r, Spec.shorten isValidUrl (inputUrl st) (JsObj.to_map (urlMap st)) r ∧
       shorten_outcome st (commit st w') eff (effects w') r.
Proof.
  intros Hwf Hempty Hrun. unfold handleShorten in Hrun. run_world.
  case_bool_decide as Hblank.
  { inv_eq. exists (inr Spec.EmptyInput). by split. }
  destruct (isValidUrl (inputUrl st)) eqn:Hvalid; simpl in Hrun.
  2:{ inv_eq. exists (inr Spec.InvalidUrl). by split. }
  destruct (List.find _ _) as [k|] eqn:Hfind.
  - destruct (key_truthy (Some k)) eqn:Hk.
    + inv_eq. destruct (find_same_url_some _ _ _ Hfind) as (e & He & Hurl).
      exists (inr (Spec.Duplicate k)). split; [|done].
      split_and!; [done|done|]. exists e. by rewrite <- JsObj.get_to_map.
    + exfalso. apply Hempty. unfold key_truthy in Hk.
      apply negb_false_iff, String.eqb_eq in Hk as ->.
      apply find_some in Hfind as [Hin _].
      apply list_elem_of_In in Hin. by rewrite JsObj.keys_perm in Hin.
  - simpl in Hrun.
    destruct (draw_fresh_key rng fuel (urlMap st) _) as [[k w1]|] eqn:Hdraw; [|done].
    apply draw_fresh_key_inv in Hdraw as (Hfree & pos' & -> & _). inv_eq.
    exists (inl (k, <[k := mkEntry (inputUrl st) 0]> (JsObj.to_map (urlMap st)))).
    split.
    + simpl. split_and!; [done|done| |done|done]. by apply find_same_url_none.
    + unfold shorten_outcome. commit_simpl.
      split_and!; [|by auto with js|done|done|done].
      by rewrite JsObj.to_map_set, JsObj.to_map_spread.
Qed.

(** C1 [handleShorten] refines the spec's [shorten]: whenever a run ends,
    its outcome is one the spec allows: an empty-input or invalid-URL
    error with the store unchanged, a duplicate reported by an alert with
    the store unchanged and the input cleared, or the store extended by
    [{originalUrl: url, clicks: 0}] under a key that was free.  This holds
    for well-formed maps without an empty-string key. *)
Theorem handleShorten_refines fuel st eff cur w' :
  JsObj.wf (urlMap st) → "" ∉ (urlMap st).*1 →
  handleShorten rng fuel st (fresh_world eff cur) = Some (tt, w') →
  ∃ r, Spec.shorten isValidUrl (inputUrl st) (JsObj.to_map (urlMap st)) r ∧
       shorten_outcome st (commit st w') eff (effects w') r.
Proof. apply handleShorten_spec. Qed.

(** The insertion, under the weaker hypothesis that no key but [""]
    holds the URL: the code's duplicate check does not see [""]. *)
Lemma handleShorten_inserts_spec fuel i st eff cur :
  ShortKey.valid_rng rng → JsObj.wf (urlMap st) →
  trim (inputUrl st) ≠ "" → isValidUrl (inputUrl st) = true →
  (∀ k e, JsObj.to_map (urlMap st) !! k = Some e → originalUrl e = inputUrl st → k = "") →
  JsObj.to_map (urlMap st) !! ShortKey.candidate rng cur i = None → i < fuel →
  ∃ k w', handleShorten rng fuel st (fresh_world eff cur) = Some (tt, w') ∧
    JsObj.to_map (urlMap (commit st w')) =
      <[k := mkEntry (inputUrl st) 0]> (JsObj.to_map (urlMap st)) ∧
    JsObj.to_map (urlMap st) !! k = None ∧
    size (JsObj.to_map (urlMap (commit st w'))) = S (size (JsObj.to_map (urlMap st))) ∧
    String.length k = 6 ∧ str_forallb is_ascii_alnum k = true ∧
    inputUrl (commit st w') = "" ∧ error (commit st w') = "" ∧ effects w' = eff.
Proof.
  intros Hrng Hwf Hblank Hvalid Hno Hcand Hfuel.
  pose proof (find_same_url_falsy _ _ Hno) as Hfind.
  destruct (ShortKey.gen_loop_first_free_spec (JsObj.get_truthy entry_truthy (urlMap st)) rng cur i)
    as (j & _ & _ & Hjfree & Hrun).
  { unfold ShortKey.candidate in *. rewrite get_truthy_generated by done. by rewrite Hcand. }
  apply (ShortKey.gen_loop_mono _ _ _ fuel) in Hrun; [|lia].
  unfold ShortKey.candidate in *. rewrite get_truthy_generated in Hjfree by done.
  apply bool_decide_eq_false, eq_None_not_Some in Hjfree.
  destruct (ShortKey.generateShortKey_spec ShortKey.default_length rng
              (cur + j * ShortKey.default_length) Hrng) as [Hlen Halnum].
  eexists _, _. split.
  { unfold handleShorten. run_world. rewrite bool_decide_false by done. rewrite Hvalid.
    cbn zeta. rewrite Hfind. cbn. unfold draw_fresh_key. cbn. rewrite Hrun. reflexivity. }
  commit_simpl. rewrite JsObj.to_map_set, JsObj.to_map_spread by done.
  split_and!; try done.
  by rewrite map_size_insert_None.
Qed.

(** C2 Shortening a new valid URL inserts exactly one entry
    [{originalUrl: url, clicks: 0}] under a fresh six-character
    alphanumeric key, clears the input and the error, and terminates as
    soon as the random stream yields a free key: if the [i]-th candidate is
    free, [i+1] iterations of fuel suffice. *)
Theorem handleShorten_inserts fuel i st eff cur :
  ShortKey.valid_rng rng → JsObj.wf (urlMap st) →
  trim (inputUrl st) ≠ "" → isValidUrl (inputUrl st) = true →
  (∀ k e, JsObj.to_map (urlMap st) !! k = Some e → originalUrl e ≠ inputUrl st) →
  JsObj.to_map (urlMap st) !! ShortKey.candidate rng cur i = None → i < fuel →
  ∃ k w', handleShorten rng fuel st (fresh_world eff cur) = Some (tt, w') ∧
    JsObj.to_map (urlMap (commit st w')) =
      <[k := mkEntry (inputUrl st) 0]> (JsObj.to_map (urlMap st)) ∧
    JsObj.to_map (urlMap st) !! k = None ∧
    size (JsObj.to_map (urlMap (commit st w'))) = S (size (JsObj.to_map (urlMap st))) ∧
    String.length k = 6 ∧ str_forallb is_ascii_alnum k = true ∧
    inputUrl (commit st w') = "" ∧ error (commit st w') = "" ∧ effects w' = eff.
Proof.
  intros Hrng Hwf Hblank Hvalid Hno. apply handleShorten_inserts_spec; [done..|].
  intros k e He Heq. by destruct (Hno k e He Heq).
Qed.

(** C18 [if (existingKey)] treats the key [""] as not found: for a store
    whose only entry holding the input URL is under the empty-string key
    (a key [JSON.parse] reads back from a stored member named [""]), the
    spec's only outcome is [Duplicate ""], but [handleShorten] draws a
    fresh key and adds a second entry for the same URL, with no alert. *)
Theorem empty_key_duplicate_missed fuel i st eff cur e :
  ShortKey.valid_rng rng → JsObj.wf (urlMap st) →
  trim (inputUrl st) ≠ "" → isValidUrl (inputUrl st) = true →
  JsObj.to_map (urlMap st) !! "" = Some e → originalUrl e = inputUrl st →
  (∀ k e', JsObj.to_map (urlMap st) !! k = Some e' → originalUrl e' = inputUrl st → k = "") →
  JsObj.to_map (urlMap st) !! ShortKey.candidate rng cur i = None → i < fuel →
  (∀ r, Spec.shorten isValidUrl (inputUrl st) (JsObj.to_map (urlMap st)) r → r = inr (Spec.Duplicate "")) ∧
  ∃ k w', handleShorten rng fuel st (fresh_world eff cur) = Some (tt, w') ∧ k ≠ "" ∧
    JsObj.to_map (urlMap (commit st w')) = <[k := mkEntry (inputUrl st) 0]> (JsObj.to_map (urlMap st)) ∧
    JsObj.to_map (urlMap (commit st w')) !! "" = Some e ∧ effects w' = eff.
Proof.
  intros Hrng Hwf Hblank Hvalid He Hurl Hno Hcand Hfuel. split.
  - intros [[k S']|[| |k]]; cbn.
    + intros (_ & _ & Hnot & _). by destruct (Hnot _ _ He).
    + done.
    + by intros [_ Hv]; rewrite Hv in Hvalid.
    + intros (_ & _ & e' & Hk & Hk'). by rewrite (Hno _ _ Hk Hk').
  - destruct (handleShorten_inserts_spec fuel i st eff cur) as (k & w' & Hrun & Hmap & Hfree & _ & _ & _ & _ & _ & Heff);
      [done..|].
    exists k, w'. split_and!; [done| |done| |done].
    + intros ->. by rewrite He in Hfree.
    + rewrite Hmap, lookup_insert_ne; [done|]. intros ->. by rewrite He in Hfree.
Qed.

(** The committed state and the effects of [handleRedirect]. *)
Lemma handleRedirect_spec st key eff cur :
  JsObj.wf (urlMap st) →
  (∀ e, JsObj.get (urlMap st) key = Some e → 0 ≤ clicks e < 2 ^ prec)%Z →
  ∃ w', handleRedirect st key (fresh_world eff cur) = Some (tt, w') ∧
    JsObj.to_map (urlMap (commit st w')) = Spec.open key (JsObj.to_map (urlMap st)) ∧
    inputUrl (commit st w') = inputUrl st ∧ error (commit st w') = error st ∧
    effects w' = eff ++ match JsObj.get (urlMap st) key with
                        | Some e => [OpenWindow (originalUrl e) "_blank"]
                        | None => []
                        end.
Proof.
  intros Hwf Hbound. unfold handleRedirect, Spec.open. rewrite <- JsObj.get_to_map.
  destruct (JsObj.get (urlMap st) key) as [e|] eqn:He.
  - eexists. split; [run_world; reflexivity|]. commit_simpl.
    rewrite JsObj.to_map_set, JsObj.to_map_spread, add1_exact by auto.
    split_and!; done.
  - eexists. split; [reflexivity|]. commit_simpl. by rewrite app_nil_r.
Qed.

(** C3 [handleRedirect] refines the spec's [open] while the counter is
    below 2^53: on a present key the committed map has the entry's
    [clicks] incremented and every other entry unchanged, and the entry's
    URL is opened in a new browsing context; on an absent key nothing is
    queued and nothing is opened. *)
Theorem handleRedirect_refines st key eff cur :
  JsObj.wf (urlMap st) →
  (∀ e, JsObj.get (urlMap st) key = Some e → 0 ≤ clicks e < 2 ^ prec)%Z →
  ∃ w', handleRedirect st key (fresh_world eff cur) = Some (tt, w') ∧
    JsObj.to_map (urlMap (commit st w')) = Spec.open key (JsObj.to_map (urlMap st)) ∧
    inputUrl (commit st w') = inputUrl st ∧ error (commit st w') = error st ∧
    effects w' = eff ++ match JsObj.get (urlMap st) key with
                        | Some e => [OpenWindow (originalUrl e) "_blank"]
                        | None => []
                        end.
Proof. apply handleRedirect_spec. Qed.

(** The committed state and the effects of [handleDelete]. *)
Lemma handleDelete_spec st key eff cur :
  JsObj.wf (urlMap st) →
  ∃ w', handleDelete st key (fresh_world eff cur) = Some (tt, w') ∧
    JsObj.to_map (urlMap (commit st w')) = Spec.delete key (JsObj.to_map (urlMap st)) ∧
    JsObj.wf (urlMap (commit st w')) ∧
    inputUrl (commit st w') = inputUrl st ∧ error (commit st w') = error st ∧
    effects w' = eff.
Proof.
  intros Hwf. eexists. split; [reflexivity|]. commit_simpl.
  rewrite JsObj.to_map_del, JsObj.to_map_spread by auto with js.
  split_and!; auto with js.
Qed.

(** C4 [handleDelete] refines the spec's [delete]: the committed map
    denotes the store without [key] (the same store when [key] was
    absent), it stays well formed, and the input, error and effect trace
    are untouched. *)
Theorem handleDelete_refines st key eff cur :
  JsObj.wf (urlMap st) →
  ∃ w', handleDelete st key (fresh_world eff cur) = Some (tt, w') ∧
    JsObj.to_map (urlMap (commit st w')) = Spec.delete key (JsObj.to_map (urlMap st)) ∧
    JsObj.wf (urlMap (commit st w')) ∧
    inputUrl (commit st w') = inputUrl st ∧ error (commit st w') = error st ∧
    effects w' = eff.
Proof. apply handleDelete_spec. Qed.

End HandlerTheorems.

(** ** The updates of [urlMap] the handlers queue: lemmas *)

Lemma get_set (m : UrlMap) k v k' :
  JsObj.get (JsObj.set m k v) k' = if bool_decide (k = k') then Some v else JsObj.get m k'.
Proof.
  rewrite !JsObj.get_to_map, JsObj.to_map_set, lookup_insert.
  by repeat case_decide; case_bool_decide.
Qed.

Lemma get_spread (m : UrlMap) k : JsObj.wf m → JsObj.get (JsObj.spread m) k = JsObj.get m k.
Proof. intros. by rewrite !JsObj.get_to_map, JsObj.to_map_spread. Qed.

Lemma get_del (m : UrlMap) k k' :
  JsObj.wf m → JsObj.get (JsObj.del m k) k' = if bool_decide (k = k') then None else JsObj.get m k'.
Proof.
  intros. rewrite !JsObj.get_to_map, JsObj.to_map_del, lookup_delete by done.
  by repeat case_decide; case_bool_decide.
Qed.

Section MapUpdates.
Context `{UrlParser}.

Lemma map_update_wf st u :
  JsObj.wf (urlMap st) → map_update st u → JsObj.wf (apply_update (urlMap st) u).
Proof. intros Hwf []; simpl; auto with js. Qed.

Lemma map_update_clicks st u :
  JsObj.wf (urlMap st) → clicks_ok (urlMap st) → map_update st u →
  clicks_ok (apply_update (urlMap st) u).
Proof.
  intros Hwf Hok Hu k' e'. destruct Hu as [k ? ?|key e He|key]; simpl.
  - rewrite get_set, get_spread by done. case_bool_decide; [|apply Hok].
    intros; simplify_eq/=. unfold prec. lia.
  - rewrite get_set, get_spread by done. case_bool_decide; [|apply Hok].
    intros; simplify_eq/=. apply add1_bounded. by eapply Hok.
  - rewrite get_del, get_spread by auto with js. case_bool_decide; [done|apply Hok].
Qed.

Lemma map_update_urls st u :
  JsObj.wf (urlMap st) → urls_ok (urlMap st) → map_update st u →
  urls_ok (apply_update (urlMap st) u).
Proof.
  intros Hwf Hok Hu k' e'. destruct Hu as [k Htrim Hvalid|key e He|key]; simpl.
  - rewrite get_set, get_spread by done. case_bool_decide; [|apply Hok].
    intros; simplify_eq/=. by split.
  - rewrite get_set, get_spread by done. case_bool_decide; [|apply Hok].
    intros; simplify_eq/=. by apply (Hok k' e).
  - rewrite get_del, get_spread by auto with js. case_bool_decide; [done|apply Hok].
Qed.

End MapUpdates.

Section Updates.
Context `{UrlParser} (rng : ShortKey.Rng).

Lemma handleShorten_updates fuel st eff cur w :
  handleShorten rng fuel st (fresh_world eff cur) = Some (tt, w) → queues_map_update st w.
Proof.
  unfold handleShorten, queues_map_update. run_world. intros Hrun.
  case_bool_decide as Htrim; [simplify_eq/=; by left|].
  destruct (isValidUrl _) eqn:Hvalid; simpl in Hrun; [|simplify_eq/=; by left].
  destruct (key_truthy _); [simplify_eq/=; by left|].
  destruct (draw_fresh_key rng fuel (urlMap st) _) as [[k w1]|] eqn:Hdraw; [|done].
  apply draw_fresh_key_inv in Hdraw as (_ & pos' & -> & _). simplify_eq/=.
  right. eexists; split; [done|by constructor].
Qed.

Lemma handleRedirect_updates st key eff cur w :
  handleRedirect st key (fresh_world eff cur) = Some (tt, w) → queues_map_update st w.
Proof.
  unfold handleRedirect, queues_map_update. run_world.
  destruct (JsObj.get (urlMap st) key) eqn:He; intros; simplify_eq/=; [|by left].
  right. eexists; split; [done|by constructor].
Qed.

Lemma handleDelete_updates st key eff cur w :
  handleDelete st key (fresh_world eff cur) = Some (tt, w) → queues_map_update st w.
Proof.
  unfold handleDelete, queues_map_update. run_world. intros; simplify_eq/=.
  right. eexists; split; [done|constructor].
Qed.

Lemma handleInput_updates st v eff cur w :
  handleInput v (fresh_world eff cur) = Some (tt, w) → queues_map_update st w.
Proof. unfold handleInput, queues_map_update. run_world. intros; simplify_eq/=. by left. Qed.

End Updates.

End Shortener.
