(* ===== verification/App.v ===== *)
(** * The component's lifecycle: mount, persistence and events

    [UrlShortener] has two effects (lines 24-31).  The first, with no
    dependencies, runs once after the first render: it reads the slot
    ['urlShortenerData'] of [localStorage] and, when the string is truthy,
    queues [setUrlMap(JSON.parse(data))].  The second runs after every
    commit in which [urlMap] is a new object, and after the first render:
    it writes [JSON.stringify(urlMap)] to the slot.  Both run with the
    closures of the first render, where [urlMap] is [{}].  In development
    builds under [React.StrictMode] React runs the mount effects a second
    time (simulated unmount and remount) before the queued update is
    processed.

    The JSON functions are the browser's: the lifecycle is verified against
    the interface [JsonCodec], whose laws say that parsing a stringified
    store gives back its entries in enumeration order.  The state after
    mount is [mount]; user events ([Event]) are dispatched to the handlers
    of [Shortener], committed, and persisted by [react_step]; [reachable]
    is the closure of the two under the step relation. *)

From S2P Require Import Prelude JsFloat JsObject ShortKey Url Shortener.
Import Binary64 Shortener.

Module App.

Definition LOCAL_STORAGE_KEY : string := "urlShortenerData".

(** What [JSON.parse] returns on the persisted slot: an object of entries,
    a value the render throws on ([null], or an object or array with a
    [null] member), some other JSON value (outside this model), or a
    [SyntaxError]. *)
Inductive ParseResult := Parsed (m : UrlMap) | ParsedUnrenderable | ParsedOther | SyntaxError.

Class JsonCodec := {
  stringify : UrlMap → string;
  parse : string → ParseResult;
  (** A stringified object starts with '{'. *)
  stringify_nonempty m : stringify m ≠ "";
  (** [JSON.parse] creates the properties in text order, which is the
      enumeration order of the stringified object. *)
  parse_stringify m : JsObj.wf m → clicks_ok m → parse (stringify m) = Parsed (JsObj.entries m);
  (** Duplicate names in a JSON text overwrite: parsed keys are distinct. *)
  parse_wf s m : parse s = Parsed m → JsObj.wf m
}.

Record AppState := mkApp {
  ui : UiState;
  storage : gmap string string;
  trace : list Effect;
  rcursor : nat }.

Inductive Mount := Mounted (s : AppState) | MountCrashed (stor : gmap string string) | MountUnsupported.

(** The result of running the load effect: the updates of [urlMap] it
    queued, [setUrlMap(v)] with a value [v] the render throws on, a thrown
    exception, or a value outside the model. *)
Inductive LoadResult := Queued (q : list (Update UrlMap)) | QueuedUnrenderable | Threw | Unsupported.

Inductive Event := EvInput (v : string) | EvShorten | EvOpen (key : string) | EvDelete (key : string).

Section Lifecycle.
Context `{UrlParser} `{JsonCodec} (rng : ShortKey.Rng).

(** The first effect (lines 24-27). *)
Definition load_effect (stor : gmap string string) : LoadResult :=
  match stor !! LOCAL_STORAGE_KEY with
  | None => Queued []
  | Some data =>
      if bool_decide (data = "") then Queued []
      else match parse data with
           | Parsed m => Queued [Replace m]
           | ParsedUnrenderable => QueuedUnrenderable
           | ParsedOther => Unsupported
           | SyntaxError => Threw
           end
  end.

(** The second effect (lines 29-31). *)
Definition save_effect (m : UrlMap) (stor : gmap string string) : gmap string string :=
  <[LOCAL_STORAGE_KEY := stringify m]> stor.

(** The mount effects in order, with the first render's [urlMap]; an
    exception in the first aborts the component's remaining effects. *)
Definition mount_effects (m0 : UrlMap) (stor : gmap string string) : LoadResult * gmap string string :=
  match load_effect stor with
  | Queued q => (Queued q, save_effect m0 stor)
  | QueuedUnrenderable => (QueuedUnrenderable, save_effect m0 stor)
  | r => (r, stor)
  end.

Definition initial_ui : UiState := mkUi "" [] "".

(** The re-render after the mount effects with the queued updates of
    [urlMap], and the persistence effect if [urlMap] changed. *)
Definition mount_commit (q : list (Update UrlMap)) (stor2 : gmap string string) : Mount :=
  let ui1 := mkUi (inputUrl initial_ui) (apply_updates (urlMap initial_ui) q) (error initial_ui) in
  let stor3 := if bool_decide (q = []) then stor2 else save_effect (urlMap ui1) stor2 in
  Mounted (mkApp ui1 stor3 [] 0).

(** Mount: the effects (twice under StrictMode), then the re-render.  When
    the load effect queued a value the render throws on and no later
    [Replace] overrides it, the re-render throws: at [Object.keys(null)]
    (line 107), or at the destructuring of a [null] entry (line 120). *)
Definition mount (strict : bool) (stor0 : gmap string string) : Mount :=
  let second stor1 := if strict then mount_effects (urlMap initial_ui) stor1 else (Queued [], stor1) in
  match mount_effects (urlMap initial_ui) stor0 with
  | (Queued q1, stor1) =>
      match second stor1 with
      | (Queued q2, stor2) => mount_commit (q1 ++ q2) stor2
      | (QueuedUnrenderable, stor2) | (Threw, stor2) => MountCrashed stor2
      | (Unsupported, _) => MountUnsupported
      end
  | (QueuedUnrenderable, stor1) =>
      match second stor1 with
      | (Queued [], stor2) | (QueuedUnrenderable, stor2) | (Threw, stor2) => MountCrashed stor2
      | (Queued q2, stor2) => mount_commit q2 stor2
      | (Unsupported, _) => MountUnsupported
      end
  | (Threw, stor1) => MountCrashed stor1
  | (Unsupported, _) => MountUnsupported
  end.

(** The handler an event calls, with the closures of the current render. *)
Definition dispatch (fuel : nat) (st : UiState) (ev : Event) : StateM World unit :=
  match ev with
  | EvInput v => handleInput v
  | EvShorten => handleShorten rng fuel st
  | EvOpen key => handleRedirect st key
  | EvDelete key => handleDelete st key
  end.

(** One event: run the handler, commit the queued updates, run the
    persistence effect when [urlMap] received an update (every update of
    the program stores a new object). *)
Definition react_step (fuel : nat) (s : AppState) (ev : Event) : option AppState :=
  match dispatch fuel (ui s) ev (fresh_world (trace s) (rcursor s)) with
  | Some (_, w) =>
      let ui' := commit (ui s) w in
      let stor' := if bool_decide (q_map w = []) then storage s
                    else save_effect (urlMap ui') (storage s) in
      Some (mkApp ui' stor' (effects w) (cursor w))
  | None => None
  end.

(** Rows of the table carry the open and delete events of their key. *)
Definition enabled (s : AppState) (ev : Event) : Prop :=
  match ev with
  | EvOpen key | EvDelete key => key ∈ JsObj.keys (urlMap (ui s))
  | _ => True
  end.

Inductive step : AppState → AppState → Prop :=
  | step_event s ev fuel s' :
      enabled s ev → react_step fuel s ev = Some s' → step s s'.

Inductive reachable (strict : bool) (stor0 : gmap string string) : AppState → Prop :=
  | reach_mount s : mount strict stor0 = Mounted s → reachable strict stor0 s
  | reach_step s s' : reachable strict stor0 s → step s s' → reachable strict stor0 s'.

End Lifecycle.

(** ** The lifecycle invariant *)

Section Theorems.
Context `{UrlParser} `{JsonCodec} (rng : ShortKey.Rng).

(** The state's map has distinct keys and the slot holds its JSON. *)
Definition app_inv (s : AppState) : Prop :=
  JsObj.wf (urlMap (ui s)) ∧
  storage s !! LOCAL_STORAGE_KEY = Some (stringify (urlMap (ui s))).

(** The persisted slot, if it parses to a map, has reachable counters. *)
Definition storage_ok (stor0 : gmap string string) : Prop :=
  ∀ data m, stor0 !! LOCAL_STORAGE_KEY = Some data → parse data = Parsed m → clicks_ok m.

Definition clicks_below (m : UrlMap) : Prop :=
  ∀ k e, JsObj.get m k = Some e → (0 ≤ clicks e < 2 ^ prec)%Z.

Lemma wf_nil : JsObj.wf ([] : UrlMap).
Proof. constructor. Qed.

Lemma clicks_ok_nil : clicks_ok [].
Proof. by intros ??. Qed.

Lemma urls_ok_nil : urls_ok [].
Proof. by intros ??. Qed.

#[local] Hint Resolve wf_nil clicks_ok_nil urls_ok_nil : js.

Lemma load_stringified m stor :
  stor !! LOCAL_STORAGE_KEY = Some (stringify m) → JsObj.wf m → clicks_ok m →
  load_effect stor = Queued [Replace (JsObj.entries m)].
Proof.
  intros Hs Hwf Hok. unfold load_effect. rewrite Hs.
  rewrite bool_decide_false by apply stringify_nonempty.
  by rewrite parse_stringify.
Qed.

Lemma load_after_save m stor :
  JsObj.wf m → clicks_ok m →
  load_effect (save_effect m stor) = Queued [Replace (JsObj.entries m)].
Proof. intros. apply load_stringified; [apply lookup_insert_eq|done..]. Qed.

Lemma load_effect_queued stor q :
  load_effect stor = Queued q →
  q = [] ∨ ∃ data m, stor !! LOCAL_STORAGE_KEY = Some data ∧ parse data = Parsed m ∧
                     q = [Replace m] ∧ JsObj.wf m.
Proof.
  unfold load_effect. intros Hl.
  destruct (stor !! LOCAL_STORAGE_KEY) as [data|]; [|simplify_eq; by left].
  case_bool_decide; [simplify_eq; by left|].
  destruct (parse data) as [m| | |] eqn:Hp; simplify_eq.
  right. eauto 10 using parse_wf.
Qed.

Lemma apply_replace_last {A} (x v : A) q : apply_updates x (q ++ [Replace v]) = v.
Proof. unfold apply_updates. by rewrite foldl_app. Qed.

(** A mount that does not crash starts with the empty map or the stored
    map, and has persisted it. *)
Lemma mount_mounted strict stor0 s :
  mount strict stor0 = Mounted s →
  (urlMap (ui s) = [] ∨ ∃ data, stor0 !! LOCAL_STORAGE_KEY = Some data ∧ parse data = Parsed (urlMap (ui s))) ∧
  JsObj.wf (urlMap (ui s)) ∧ storage s !! LOCAL_STORAGE_KEY = Some (stringify (urlMap (ui s))).
Proof.
  unfold mount, mount_effects. intros Hm.
  destruct (load_effect stor0) as [q1| | |] eqn:Hload; [| |done|done];
    cbn [urlMap initial_ui] in Hm; destruct strict;
    try (rewrite load_after_save in Hm by auto with js); try done.
  - injection Hm as <-. cbn. rewrite bool_decide_false by (by destruct q1).
    rewrite apply_replace_last. split_and!; [by left|auto with js|apply lookup_insert_eq].
  - destruct (load_effect_queued _ _ Hload) as [->|(data & m & Hd & Hp & -> & Hwf)];
      injection Hm as <-; cbn; (split_and!; [|auto with js|apply lookup_insert_eq]); eauto.
  - injection Hm as <-. cbn. split_and!; [by left|auto with js|apply lookup_insert_eq].
Qed.

Lemma mount_inv strict stor0 s : mount strict stor0 = Mounted s → app_inv s.
Proof. intros (_ & Hwf & Hstor)%mount_mounted. by split. Qed.

Lemma dispatch_updates fuel st ev eff cur w :
  dispatch rng fuel st ev (fresh_world eff cur) = Some (tt, w) → queues_map_update st w.
Proof.
  destruct ev; simpl;
    eauto using handleShorten_updates, handleRedirect_updates, handleDelete_updates,
      handleInput_updates.
Qed.

Lemma commit_map_nil st w : q_map w = [] → urlMap (commit st w) = urlMap st.
Proof. intros Hq. unfold commit. simpl. by rewrite Hq. Qed.

Lemma commit_map_one st w u : q_map w = [u] → urlMap (commit st w) = apply_update (urlMap st) u.
Proof. intros Hq. unfold commit. simpl. by rewrite Hq. Qed.

(** The persisted slot after an event: unchanged when no update of
    [urlMap] was queued, the new map's JSON otherwise. *)
Lemma react_step_cases fuel s ev s' :
  react_step rng fuel s ev = Some s' →
  ∃ w, dispatch rng fuel (ui s) ev (fresh_world (trace s) (rcursor s)) = Some (tt, w) ∧
       ui s' = commit (ui s) w ∧
       ((q_map w = [] ∧ storage s' = storage s ∧ urlMap (ui s') = urlMap (ui s)) ∨
        (∃ u, q_map w = [u] ∧ map_update (ui s) u ∧
              storage s' = save_effect (urlMap (ui s')) (storage s) ∧
              urlMap (ui s') = apply_update (urlMap (ui s)) u)).
Proof.
  unfold react_step. intros Hstep.
  destruct (dispatch rng fuel (ui s) ev _) as [[[] w]|] eqn:Hd; [|done].
  injection Hstep as <-. exists w. split_and!; [done|done|].
  destruct (dispatch_updates _ _ _ _ _ _ Hd) as [Hnil|(u & Hu & Hmu)].
  - left. rewrite bool_decide_true by done. cbn [ui storage]. by rewrite commit_map_nil.
  - right. exists u. rewrite bool_decide_false by (by rewrite Hu).
    unfold commit; simpl. rewrite Hu. by split_and!.
Qed.

Lemma react_step_inv fuel s ev s' :
  app_inv s → react_step rng fuel s ev = Some s' → app_inv s'.
Proof.
  intros [Hwf Hstor] Hstep.
  apply react_step_cases in Hstep as (w & _ & _ & [(_ & Hs & Hm)|(u & _ & Hmu & Hs & Hm)]);
    unfold app_inv; rewrite Hs.
  - rewrite Hm. by split.
  - split; [rewrite Hm; by apply map_update_wf|]. unfold save_effect. apply lookup_insert_eq.
Qed.

(** Induction on reachable states with the invariant [app_inv] carried
    along: a property established by [mount] and preserved by every event
    from a state satisfying [app_inv] holds in every reachable state. *)
Lemma reachable_invariant (P : AppState → Prop) strict stor0 :
  (∀ s, mount strict stor0 = Mounted s → P s) →
  (∀ fuel s ev s', app_inv s → P s → react_step rng fuel s ev = Some s' → P s') →
  ∀ s, reachable rng strict stor0 s → app_inv s ∧ P s.
Proof.
  intros Hm Hstep s Hr. induction Hr as [s Hmount|s s' _ [Hinv HP] Hst].
  - split; [by eapply mount_inv|by apply Hm].
  - inversion Hst as [? ev fuel ? _ Hs]; subst.
    split; [by eapply react_step_inv|by eapply Hstep].
Qed.

(** C5 Invariant of every reachable state: the keys of [urlMap] are
    distinct and [localStorage] holds exactly [JSON.stringify(urlMap)], so
    every change of the store is persisted before the next event. *)
Theorem reachable_inv strict stor0 s :
  reachable rng strict stor0 s → app_inv s.
Proof. intros Hr. by apply (reachable_invariant (λ _, True) strict stor0) in Hr as [? _]. Qed.

(** ** Persistence round trip and the mount behaviours *)

(** C8 Reloading the page in any reachable state restores the store: the
    non-StrictMode mount on the persisted storage yields the same entries,
    as an object created in the enumeration order of the old one (spec
    property 6, [load(save(S)) = S]). *)
Theorem reload_restores strict stor0 s :
  reachable rng strict stor0 s → clicks_ok (urlMap (ui s)) →
  ∃ s', mount false (storage s) = Mounted s' ∧
        urlMap (ui s') = JsObj.entries (urlMap (ui s)) ∧
        JsObj.to_map (urlMap (ui s')) = JsObj.to_map (urlMap (ui s)).
Proof.
  intros Hreach Hok.
  apply (reachable_invariant (λ _, True) strict stor0) in Hreach as [[Hwf Hstor] _]; [|done..].
  unfold mount, mount_effects. rewrite (load_stringified _ _ Hstor Hwf Hok).
  eexists. split; [reflexivity|]. cbn. split; [done|].
  by apply JsObj.to_map_spread.
Qed.

(** C17 Under [React.StrictMode] (development builds) the mount effects run
    twice before the loaded map is committed: the first pass queues the
    stored map but writes "{}", the second reads "{}" back and queues the
    empty map last.  Whatever store was persisted, the component starts
    empty and overwrites the slot with the empty object; without
    StrictMode the stored map is loaded. *)
Theorem strict_mount_loses_data stor0 data m :
  stor0 !! LOCAL_STORAGE_KEY = Some data → data ≠ "" → parse data = Parsed m →
  (∃ s, mount false stor0 = Mounted s ∧ urlMap (ui s) = m ∧
        storage s !! LOCAL_STORAGE_KEY = Some (stringify m)) ∧
  (∃ s, mount true stor0 = Mounted s ∧ urlMap (ui s) = [] ∧
        storage s !! LOCAL_STORAGE_KEY = Some (stringify [])).
Proof.
  intros Hdata Hne Hparse.
  assert (Hload : load_effect stor0 = Queued [Replace m]).
  { unfold load_effect. rewrite Hdata, bool_decide_false by done. by rewrite Hparse. }
  unfold mount, mount_effects. rewrite Hload. cbn [urlMap initial_ui].
  rewrite load_after_save by auto with js.
  split; eexists; (split; [reflexivity|]); cbn; (split; [done|]);
    unfold save_effect; apply lookup_insert_eq.
Qed.

(** C15 A slot that is not valid JSON makes [JSON.parse] throw inside the
    first effect: the component crashes on mount (there is no [try]), the
    persistence effect does not run, and the slot is left as it was, so
    every later load crashes the same way. *)
Theorem corrupt_storage_crashes strict stor0 data :
  stor0 !! LOCAL_STORAGE_KEY = Some data → data ≠ "" → parse data = SyntaxError →
  mount strict stor0 = MountCrashed stor0.
Proof.
  intros Hdata Hne Hparse. unfold mount, mount_effects, load_effect.
  by rewrite Hdata, bool_decide_false, Hparse.
Qed.

(** C16 A slot holding a JSON text the render cannot show ("null", or an
    object or array with a [null] member such as {"a": null}) passes the
    truthiness test and [JSON.parse] succeeds: the first effect queues
    [setUrlMap] of that value, the persistence effect of the first render
    writes "{}", and the re-render throws (at [Object.keys(null)] or at
    the destructuring of the [null] entry), so the component crashes and
    the stored entries are lost.  The next load reads "{}" and starts
    empty.  Under StrictMode the second run of the effects reads "{}" back
    and queues the empty map after the value, so the component starts
    empty. *)
Theorem null_storage_crashes stor0 data :
  stor0 !! LOCAL_STORAGE_KEY = Some data → data ≠ "" → parse data = ParsedUnrenderable →
  mount false stor0 = MountCrashed (save_effect [] stor0) ∧
  (∃ s, mount false (save_effect [] stor0) = Mounted s ∧ urlMap (ui s) = []) ∧
  (∃ s, mount true stor0 = Mounted s ∧ urlMap (ui s) = [] ∧
        storage s !! LOCAL_STORAGE_KEY = Some (stringify [])).
Proof.
  intros Hdata Hne Hparse.
  assert (Hload : load_effect stor0 = QueuedUnrenderable).
  { unfold load_effect. rewrite Hdata, bool_decide_false by done. by rewrite Hparse. }
  unfold mount, mount_effects. rewrite Hload, !load_after_save by auto with js. cbn [urlMap initial_ui].
  split_and!; [done| |]; eexists; (split; [reflexivity|]); cbn; [done|].
  split; [done|]. apply lookup_insert_eq.
Qed.

(** ** Click counters *)

(** A property of maps that holds of the empty map and of every stored
    map [JSON.parse] returns holds of the map a mount starts with. *)
Lemma mount_map (P : UrlMap → Prop) strict stor0 s :
  P [] → (∀ data m, stor0 !! LOCAL_STORAGE_KEY = Some data → parse data = Parsed m → P m) →
  mount strict stor0 = Mounted s → P (urlMap (ui s)).
Proof.
  intros Hnil Hok ([-> | (data & Hd & Hp)] & _)%mount_mounted; [done|by eapply Hok].
Qed.

(** A property of maps that every update of the handlers preserves holds
    after every event. *)
Lemma react_step_map (P : UrlMap → Prop) fuel s ev s' :
  (∀ st u, JsObj.wf (urlMap st) → P (urlMap st) → map_update st u → P (apply_update (urlMap st) u)) →
  JsObj.wf (urlMap (ui s)) → P (urlMap (ui s)) →
  react_step rng fuel s ev = Some s' → P (urlMap (ui s')).
Proof.
  intros HP Hwf Hok Hstep.
  apply react_step_cases in Hstep as (w & _ & _ & [(_ & _ & ->)|(u & _ & Hmu & _ & ->)]); [done|by apply HP].
Qed.

(** Hence, in every reachable state. *)
Lemma reachable_map (P : UrlMap → Prop) strict stor0 s :
  P [] → (∀ data m, stor0 !! LOCAL_STORAGE_KEY = Some data → parse data = Parsed m → P m) →
  (∀ st u, JsObj.wf (urlMap st) → P (urlMap st) → map_update st u → P (apply_update (urlMap st) u)) →
  reachable rng strict stor0 s → app_inv s ∧ P (urlMap (ui s)).
Proof.
  intros Hnil Hload HP. apply (reachable_invariant (λ s, P (urlMap (ui s)))).
  - intros s' Hm. by eapply mount_map.
  - intros fuel s1 ev s2 [Hwf _] Hc. by eapply react_step_map.
Qed.

Lemma reachable_inv_clicks strict stor0 s :
  storage_ok stor0 → reachable rng strict stor0 s → app_inv s ∧ clicks_ok (urlMap (ui s)).
Proof. intros Hok. apply reachable_map; [auto with js|apply Hok|apply map_update_clicks]. Qed.

(** C23 In every state reachable from a storage whose entries have counters
    in [0, 2^53], every counter stays in [0, 2^53]: new entries start at 0
    and [clicks + 1] saturates at 2^53. *)
Theorem reachable_clicks strict stor0 s :
  storage_ok stor0 → reachable rng strict stor0 s → clicks_ok (urlMap (ui s)).
Proof.
  intros Hok Hreach. by apply reachable_inv_clicks in Hreach as [_ ?].
Qed.

(** C9 Composition of URL validation with the lifecycle: in every state
    reachable from a slot whose stored map holds only such URLs (an empty
    slot, for one), every entry's [originalUrl] is non-empty once trimmed
    and is accepted by [isValidUrl].  The only insertion is of the input
    after both checks; opening and deleting never change a URL. *)
Theorem reachable_urls_valid strict stor0 s :
  (∀ data m, stor0 !! LOCAL_STORAGE_KEY = Some data → parse data = Parsed m → urls_ok m) →
  reachable rng strict stor0 s → urls_ok (urlMap (ui s)).
Proof.
  intros Hok Hreach. apply (reachable_map urls_ok) in Hreach as [_ ?]; auto with js.
  apply map_update_urls.
Qed.

(** ** The persisted blob and the reachability of the empty store *)

Lemma react_step_delete fuel s k :
  ∃ s', react_step rng fuel s (EvDelete k) = Some s' ∧
        urlMap (ui s') = JsObj.del (JsObj.spread (urlMap (ui s))) k.
Proof. eexists. split; reflexivity. Qed.

(** C24 Liveness: from every state whose keys are distinct (every
    reachable state is one) the user can always empty the store: deleting
    the rows one after the other is a run of steps of the component that
    ends with an empty [urlMap]. *)
Theorem can_empty_store s :
  JsObj.wf (urlMap (ui s)) → ∃ s', rtc (step rng) s s' ∧ urlMap (ui s') = [].
Proof.
  remember (length (urlMap (ui s))) as n eqn:Hn. revert s Hn.
  induction n as [|n IH]; intros s Hn Hwf.
  - exists s. split; [done|]. by destruct (urlMap (ui s)).
  - destruct (urlMap (ui s)) as [|[k e] m] eqn:Hm; [done|].
    assert (Hk : k ∈ JsObj.keys (urlMap (ui s))) by (rewrite JsObj.keys_perm, Hm; left).
    destruct (react_step_delete 0 s k) as (s1 & Hs1 & Hm1).
    destruct (IH s1) as (s' & Hrtc & Hempty).
    + rewrite Hm1. apply (inj S). rewrite JsObj.length_del.
      * unfold JsObj.spread. rewrite (Permutation_length (JsObj.entries_perm _)). by rewrite Hm.
      * apply JsObj.wf_spread. by rewrite Hm.
      * apply Hk.
    + rewrite Hm1. apply JsObj.wf_del, JsObj.wf_spread. by rewrite Hm.
    + exists s'. split; [|done]. eapply rtc_l; [|done].
      apply (step_event _ _ (EvDelete k) 0 _ Hk Hs1).
Qed.

(** ** Simulation of the spec's state machine *)

(** C6 Every event of the component is simulated by a step of the spec's
    abstract store machine: the dictionary the new [urlMap] denotes is
    the old one, or the old one after [shorten], [open] or [delete]
    (for maps without an empty-string key and counters below 2^53). *)
Theorem step_refines s s' :
  app_inv s → "" ∉ (urlMap (ui s)).*1 → clicks_below (urlMap (ui s)) →
  step rng s s' →
  Spec.step isValidUrl (JsObj.to_map (urlMap (ui s))) (JsObj.to_map (urlMap (ui s'))).
Proof.
  intros [Hwf _] Hempty Hbelow Hst. inversion Hst as [? ev fuel ? _ Hstep]; subst.
  apply react_step_cases in Hstep as (w & Hd & Hui & _). rewrite Hui.
  destruct ev as [v| |key|key]; simpl in Hd.
  - unfold handleInput, setInputUrl, modify_st in Hd. simplify_eq/=. constructor.
  - destruct (handleShorten_spec rng fuel (ui s) (trace s) (rcursor s) w Hwf Hempty Hd)
      as ([[k S']|err] & Hspec & Hout).
    + destruct Hout as (<- & _). by eapply Spec.step_shorten.
    + assert (urlMap (commit (ui s) w) = urlMap (ui s)) as -> by (destruct err; apply Hout).
      constructor.
  - destruct (handleRedirect_spec (ui s) key (trace s) (rcursor s) Hwf)
      as (w' & Hd' & Hmap & _).
    { intros e He. split; [|apply (Hbelow key e He)]. apply (Hbelow key e He). }
    rewrite Hd in Hd'. simplify_eq. rewrite Hmap. constructor.
  - destruct (handleDelete_spec (ui s) key (trace s) (rcursor s) Hwf)
      as (w' & Hd' & Hmap & _).
    rewrite Hd in Hd'. simplify_eq. rewrite Hmap. constructor.
Qed.

End Theorems.

End App.
