(* ===== verification/JsonSyntax.v ===== *)
(** * JSON text: the grammar [JSON.parse] accepts and [JSON.stringify]'s
    string and number forms

    The persisted slot of the component is a JSON text (lines 26 and 30 of
    [UrlShortener.jsx]).  This file models the browser's JSON syntax: a
    JSON value ([json]), the recursive-descent parser of [JSON.parse] over
    the text's code units (ECMA-404: whitespace, literals, numbers,
    strings with escapes, arrays, objects; fuel bounds the nesting, and
    [parse_text_complete] shows that the fuel [parse_text] gives, one more
    than the length of the text, never rejects a text), and the
    printing of strings (QuoteJSONString) and of integers (Number::toString
    below 10^21) used by [JSON.stringify].  Numbers are kept exactly as
    [mant * 10^exp10]; their rounding to binary64 is not modelled. *)

From S2P Require Import Prelude.

Module Json.

Inductive json :=
  | JNull
  | JTrue
  | JFalse
  | JNum (mant exp10 : Z)
  | JStr (units : list Z)
  | JArr (elems : list json)
  | JObj (members : list (list Z * json)).

Definition is_char (c d : ascii) : bool := bool_decide (c = d).
Definition is_quote (c : ascii) : bool := (code c =? 34)%Z.
Definition is_backslash (c : ascii) : bool := (code c =? 92)%Z.

(** JSON whitespace: space, tab, line feed, carriage return. *)
Definition is_ws (c : ascii) : bool := bool_decide (code c ∈ [32; 9; 10; 13])%Z.

Definition skip_ws (l : list ascii) : list ascii := drop_while is_ws l.

(** ** Strings *)

Definition hex4 (a b c d : ascii) : option Z :=
  match hex_value a, hex_value b, hex_value c, hex_value d with
  | Some x, Some y, Some z, Some w => Some (((x * 16 + y) * 16 + z) * 16 + w)%Z
  | _, _, _, _ => None
  end.

(** The one-character escapes: quote, backslash, slash, b, f, n, r, t. *)
Definition simple_escape (e : ascii) : option Z :=
  if is_quote e then Some 34%Z
  else if is_backslash e then Some 92%Z
  else if is_char e "/" then Some 47%Z
  else if is_char e "b" then Some 8%Z
  else if is_char e "f" then Some 12%Z
  else if is_char e "n" then Some 10%Z
  else if is_char e "r" then Some 13%Z
  else if is_char e "t" then Some 9%Z
  else None.

Definition cons_unit (u : Z) (r : option (list Z * list ascii)) : option (list Z * list ascii) :=
  match r with Some (s, rest) => Some (u :: s, rest) | None => None end.

(** The body of a string, after its opening quote: the code units and the
    text after the closing quote.  Unescaped control characters are
    errors. *)
Fixpoint parse_string (l : list ascii) : option (list Z * list ascii) :=
  match l with
  | [] => None
  | c :: l' =>
      if is_quote c then Some ([], l')
      else if is_backslash c then
        match l' with
        | [] => None
        | e :: l'' =>
            match simple_escape e with
            | Some u => cons_unit u (parse_string l'')
            | None =>
                if is_char e "u" then
                  match l'' with
                  | h1 :: h2 :: h3 :: h4 :: l3 =>
                      match hex4 h1 h2 h3 h4 with
                      | Some u => cons_unit u (parse_string l3)
                      | None => None
                      end
                  | _ => None
                  end
                else None
            end
        end
      else if (code c <? 32)%Z then None
      else cons_unit (code c) (parse_string l')
  end.

(** ** Numbers *)

Definition digits_span (l : list ascii) : list ascii * list ascii :=
  (take_while is_ascii_digit l, drop_while is_ascii_digit l).

(** [-? (0 | [1-9][0-9]* ) (. [0-9]+)? ([eE] [+-]? [0-9]+)?] *)
Definition parse_number (l : list ascii) : option (json * list ascii) :=
  let '(neg, l1) := match l with
                    | c :: r => if is_char c "-" then (true, r) else (false, l)
                    | [] => (false, l)
                    end in
  match l1 with
  | [] => None
  | d :: r =>
      if negb (is_ascii_digit d) then None else
      let '(ids, r1) := if is_char d "0" then ([d], r) else digits_span l1 in
      let '(fds, r2, okf) :=
        match r1 with
        | c :: r' => if is_char c "." then
                       let '(fs, r'') := digits_span r' in (fs, r'', negb (bool_decide (fs = [])))
                     else ([], r1, true)
        | [] => ([], r1, true)
        end in
      let '(e, r3, oke) :=
        match r2 with
        | c :: r' =>
            if is_char c "e" || is_char c "E" then
              let '(eneg, r'') := match r' with
                                  | s :: t => if is_char s "-" then (true, t)
                                              else if is_char s "+" then (false, t) else (false, r')
                                  | [] => (false, r')
                                  end in
              let '(es, r''') := digits_span r'' in
              ((if eneg then - dec_val es else dec_val es)%Z, r''', negb (bool_decide (es = [])))
            else (0%Z, r2, true)
        | [] => (0%Z, r2, true)
        end in
      if okf && oke then
        let m := dec_val (ids ++ fds) in
        Some (JNum (if neg then - m else m)%Z (e - Z.of_nat (length fds))%Z, r3)
      else None
  end.

(** ** Values *)

Fixpoint parse_value (fuel : nat) (l : list ascii) : option (json * list ascii) :=
  match fuel with
  | O => None
  | S f =>
      match skip_ws l with
      | [] => None
      | c :: l' =>
          if is_char c "{" then
            match skip_ws l' with
            | [] => None
            | c' :: l'' => if is_char c' "}" then Some (JObj [], l'')
                           else parse_members f (c' :: l'') []
            end
          else if is_char c "[" then
            match skip_ws l' with
            | [] => None
            | c' :: l'' => if is_char c' "]" then Some (JArr [], l'')
                           else parse_elems f (c' :: l'') []
            end
          else if is_quote c then
            match parse_string l' with
            | Some (s, r) => Some (JStr s, r)
            | None => None
            end
          else if is_char c "t" then
            match l' with "r" :: "u" :: "e" :: r => Some (JTrue, r) | _ => None end%char
          else if is_char c "f" then
            match l' with "a" :: "l" :: "s" :: "e" :: r => Some (JFalse, r) | _ => None end%char
          else if is_char c "n" then
            match l' with "u" :: "l" :: "l" :: r => Some (JNull, r) | _ => None end%char
          else parse_number (c :: l')
      end
  end
(** Object members from a name's opening quote; [acc] holds the members
    read so far. *)
with parse_members (fuel : nat) (l : list ascii) (acc : list (list Z * json))
    : option (json * list ascii) :=
  match fuel with
  | O => None
  | S f =>
      match l with
      | [] => None
      | c :: l1 =>
          if negb (is_quote c) then None else
          match parse_string l1 with
          | None => None
          | Some (k, l2) =>
              match skip_ws l2 with
              | [] => None
              | c2 :: l3 =>
                  if negb (is_char c2 ":") then None else
                  match parse_value f l3 with
                  | None => None
                  | Some (v, l4) =>
                      match skip_ws l4 with
                      | [] => None
                      | c4 :: l5 =>
                          if is_char c4 "," then parse_members f (skip_ws l5) (acc ++ [(k, v)])
                          else if is_char c4 "}" then Some (JObj (acc ++ [(k, v)]), l5)
                          else None
                      end
                  end
              end
          end
      end
  end
(** Array elements after the opening bracket. *)
with parse_elems (fuel : nat) (l : list ascii) (acc : list json) : option (json * list ascii) :=
  match fuel with
  | O => None
  | S f =>
      match parse_value f l with
      | None => None
      | Some (v, l1) =>
          match skip_ws l1 with
          | [] => None
          | c :: l2 =>
              if is_char c "," then parse_elems f l2 (acc ++ [v])
              else if is_char c "]" then Some (JArr (acc ++ [v]), l2)
              else None
          end
      end
  end.

(** A whole text: one value between optional whitespace.  The fuel, one
    more than the length of the text, bounds the nesting. *)
Definition parse_text (s : string) : option json :=
  let l := String.list_ascii_of_string s in
  match parse_value (S (length l)) l with
  | Some (v, rest) => if bool_decide (skip_ws rest = []) then Some v else None
  | None => None
  end.

(** ** Printing *)

Definition hex_digit (n : Z) : ascii :=
  ascii_of_nat (Z.to_nat (if (n <? 10)%Z then 48 + n else 87 + n)%Z).

(** QuoteJSONString on one code unit. *)
Definition escape_unit (c : ascii) : list ascii :=
  let n := code c in
  if (n =? 8)%Z then ["\"; "b"]%char
  else if (n =? 9)%Z then ["\"; "t"]%char
  else if (n =? 10)%Z then ["\"; "n"]%char
  else if (n =? 12)%Z then ["\"; "f"]%char
  else if (n =? 13)%Z then ["\"; "r"]%char
  else if (n =? 34)%Z then ["\"%char; c]
  else if (n =? 92)%Z then ["\"%char; c]
  else if (n <? 32)%Z then ["\"; "u"; "0"; "0"]%char ++ [hex_digit (n / 16); hex_digit (n mod 16)]
  else [c].

Definition quote_char : ascii := ascii_of_nat 34.

Definition quote_string (s : string) : list ascii :=
  quote_char :: flat_map escape_unit (String.list_ascii_of_string s) ++ [quote_char].

Definition digit_char (n : Z) : ascii := ascii_of_nat (Z.to_nat (48 + n)).

(** The decimal digits of [n ≥ 0], most significant first, before [acc];
    [fuel] bounds their number. *)
Fixpoint digits_aux (fuel : nat) (n : Z) (acc : list ascii) : list ascii :=
  match fuel with
  | O => acc
  | S f =>
      let acc' := digit_char (n mod 10) :: acc in
      if (n <? 10)%Z then acc' else digits_aux f (n / 10) acc'
  end.

(** Number::toString of an integer below 10^21 in absolute value. *)
Definition print_int (n : Z) : list ascii :=
  let a := Z.abs n in
  (if (n <? 0)%Z then ["-"%char] else []) ++ digits_aux (S (Z.to_nat (Z.log2 a))) a [].

(** ** Fuel *)

Lemma drop_while_le p l : length (drop_while p l) ≤ length l.
Proof. induction l as [|c l IH]; simpl; [lia|]. destruct (p c); simpl; lia. Qed.

Lemma skip_ws_le l : length (skip_ws l) ≤ length l.
Proof. apply drop_while_le. Qed.

Lemma parse_string_lt l s r : parse_string l = Some (s, r) → length r < length l.
Proof.
  revert s r. induction l as [l IH] using (induction_ltof1 _ (@length _)); unfold ltof in IH.
  intros s r H. destruct l as [|c l']; [done|]. simpl in H. unfold cons_unit in H.
  repeat case_match; simplify_eq/=; try lia;
    match goal with E : parse_string ?x = Some _ |- _ => apply IH in E; simpl in *; lia end.
Qed.

Lemma digits_span_le l a b : digits_span l = (a, b) → length b ≤ length l.
Proof. unfold digits_span. intros [= _ <-]. apply drop_while_le. Qed.

Lemma digits_span_digit d l a b :
  is_ascii_digit d = true → digits_span (d :: l) = (a, b) → length b ≤ length l.
Proof. unfold digits_span. simpl. intros -> [= _ <-]. apply drop_while_le. Qed.

Lemma parse_number_lt l v r : parse_number l = Some (v, r) → length r < length l.
Proof.
  unfold parse_number. intros H.
  repeat case_match; simplify_eq/=;
    repeat match goal with
    | E : digits_span (?d :: _) = (_, _), Hd : negb (is_ascii_digit ?d) = false |- _ =>
        apply negb_false_iff in Hd; apply (digits_span_digit _ _ _ _ Hd) in E; simpl in E
    | E : digits_span _ = (_, _) |- _ => apply digits_span_le in E; simpl in E
    end; lia.
Qed.

Lemma skip_ws_cons_le l c l' : skip_ws l = c :: l' → length l' < length l.
Proof. intros H. pose proof (skip_ws_le l) as Hle. rewrite H in Hle. simpl in Hle. lia. Qed.

(** A successful parse consumes a character at least, and the fuel it
    needs is at most the number of characters it consumes. *)
Definition fuel_ok_value (f : nat) : Prop :=
  ∀ l v r, parse_value f l = Some (v, r) →
    length r < length l ∧ ∀ f', length l - length r ≤ f' → parse_value f' l = Some (v, r).

Definition fuel_ok_members (f : nat) : Prop :=
  ∀ l acc v r, parse_members f l acc = Some (v, r) →
    length r < length l ∧ ∀ f', length l - length r ≤ f' → parse_members f' l acc = Some (v, r).

Definition fuel_ok_elems (f : nat) : Prop :=
  ∀ l acc v r, parse_elems f l acc = Some (v, r) →
    length r < length l ∧ ∀ f', length l - length r ≤ f' → parse_elems f' l acc = Some (v, r).

Lemma fuel_value_S f0 : fuel_ok_members f0 → fuel_ok_elems f0 → fuel_ok_value (S f0).
Proof.
  intros IM IE l v r H. cbn [parse_value] in H.
  destruct (skip_ws l) as [|c l'] eqn:Hs; [done|]. pose proof (skip_ws_cons_le _ _ _ Hs) as Hl.
  destruct (is_char c "{") eqn:Hb1; [|destruct (is_char c "[") eqn:Hb2].
  - destruct (skip_ws l') as [|c' l''] eqn:Hs'; [done|]. pose proof (skip_ws_cons_le _ _ _ Hs').
    destruct (is_char c' "}") eqn:Hb3.
    + injection H as <- <-. split; [lia|]. intros [|f'] Hf'; [lia|]. cbn. by rewrite Hs, Hb1, Hs', Hb3.
    + destruct (IM _ _ _ _ H) as [Hlt Hm]. simpl in Hlt. split; [lia|].
      intros [|f'] Hf'; [lia|]. cbn. rewrite Hs, Hb1, Hs', Hb3. apply Hm. simpl. lia.
  - destruct (skip_ws l') as [|c' l''] eqn:Hs'; [done|]. pose proof (skip_ws_cons_le _ _ _ Hs').
    destruct (is_char c' "]") eqn:Hb3.
    + injection H as <- <-. split; [lia|]. intros [|f'] Hf'; [lia|]. cbn. by rewrite Hs, Hb1, Hb2, Hs', Hb3.
    + destruct (IE _ _ _ _ H) as [Hlt Hm]. simpl in Hlt. split; [lia|].
      intros [|f'] Hf'; [lia|]. cbn. rewrite Hs, Hb1, Hb2, Hs', Hb3. apply Hm. simpl. lia.
  - assert (length r < length l).
    { clear IM IE. repeat case_match; simplify_eq/=; try lia.
      - apply parse_string_lt in H1. lia.
      - apply parse_number_lt in H. simpl in H. lia. }
    split; [done|]. intros [|f'] Hf'; [lia|]. cbn. by rewrite Hs, Hb1, Hb2.
Qed.

Lemma fuel_members_S f0 : fuel_ok_value f0 → fuel_ok_members f0 → fuel_ok_members (S f0).
Proof.
  intros IV IM [|c l1] acc v r H; [done|]. cbn [parse_members] in H.
  destruct (negb (is_quote c)) eqn:Hq; [done|].
  destruct (parse_string l1) as [[k l2]|] eqn:Hps; [|done]. apply parse_string_lt in Hps as Hl2.
  destruct (skip_ws l2) as [|c2 l3] eqn:Hs2; [done|]. pose proof (skip_ws_cons_le _ _ _ Hs2).
  destruct (negb (is_char c2 ":")) eqn:Hc; [done|].
  destruct (parse_value f0 l3) as [[v1 l4]|] eqn:Hv; [|done]. destruct (IV _ _ _ Hv) as [Hl4 Hv'].
  destruct (skip_ws l4) as [|c4 l5] eqn:Hs4; [done|]. pose proof (skip_ws_cons_le _ _ _ Hs4).
  destruct (is_char c4 ",") eqn:Hcomma; [|destruct (is_char c4 "}") eqn:Hclose; [|done]].
  - destruct (IM _ _ _ _ H) as [Hlt Hm]. pose proof (skip_ws_le l5). split; [simpl; lia|].
    intros [|f'] Hf'; [simpl in Hf'; lia|]. cbn. rewrite Hq, Hps, Hs2, Hc, (Hv' f') by (simpl in Hf'; lia).
    rewrite Hs4, Hcomma. apply Hm. simpl in Hf'. lia.
  - injection H as <- <-. split; [simpl; lia|].
    intros [|f'] Hf'; [simpl in Hf'; lia|]. cbn. rewrite Hq, Hps, Hs2, Hc, (Hv' f') by (simpl in Hf'; lia).
    by rewrite Hs4, Hcomma, Hclose.
Qed.

Lemma fuel_elems_S f0 : fuel_ok_value f0 → fuel_ok_elems f0 → fuel_ok_elems (S f0).
Proof.
  intros IV IE l acc v r H. cbn [parse_elems] in H.
  destruct (parse_value f0 l) as [[v1 l1]|] eqn:Hv; [|done]. destruct (IV _ _ _ Hv) as [Hl1 Hv'].
  destruct (skip_ws l1) as [|c l2] eqn:Hs; [done|]. pose proof (skip_ws_cons_le _ _ _ Hs).
  destruct (is_char c ",") eqn:Hcomma; [|destruct (is_char c "]") eqn:Hclose; [|done]].
  - destruct (IE _ _ _ _ H) as [Hlt He]. split; [lia|].
    intros [|f'] Hf'; [lia|]. cbn. rewrite (Hv' f') by lia. rewrite Hs, Hcomma. apply He. lia.
  - injection H as <- <-. split; [lia|].
    intros [|f'] Hf'; [lia|]. cbn. rewrite (Hv' f') by lia. by rewrite Hs, Hcomma, Hclose.
Qed.

Lemma parse_fuel f : fuel_ok_value f ∧ fuel_ok_members f ∧ fuel_ok_elems f.
Proof.
  induction f as [|f [IV [IM IE]]]; [split_and!; done|].
  split_and!; [apply fuel_value_S|apply fuel_members_S|apply fuel_elems_S]; done.
Qed.

Lemma parse_value_enough_fuel f l v r :
  parse_value f l = Some (v, r) → parse_value (S (length l)) l = Some (v, r).
Proof. intros H. destruct (proj1 (parse_fuel f) _ _ _ H) as [_ Hf]. apply Hf. lia. Qed.

(** [JSON.parse] is not limited by the fuel of the model: the text
    parses with the fuel [parse_text] gives it (one more than its length)
    exactly when it parses with some fuel, so a text is rejected only for
    its syntax, never for the depth of its nesting. *)
Theorem parse_text_complete s v :
  parse_text s = Some v ↔
  ∃ f rest, parse_value f (String.list_ascii_of_string s) = Some (v, rest) ∧ skip_ws rest = [].
Proof.
  unfold parse_text. split.
  - destruct (parse_value _ _) as [[v' rest]|] eqn:E; [|done].
    case_bool_decide; [intros [= <-]; by eauto|done].
  - intros (f & rest & H & Hr). rewrite (parse_value_enough_fuel _ _ _ _ H).
    by rewrite bool_decide_true.
Qed.

End Json.
