(* ===== verification/Json.v ===== *)
(** * The persisted store as JSON: [JSON.stringify(urlMap)] and
    [JSON.parse(data)]

    [JSON.stringify] of [urlMap] (line 30) prints the own properties of the
    object in enumeration order, each entry as
    [{"originalUrl":...,"clicks":...}] (the order in which the handlers
    create the two fields).  [JSON.parse] (line 26) builds an object by
    [CreateDataProperty] for each member in text order, so a repeated name
    keeps its first position and its last value.  [parse_store] classifies
    the result: a map of entries (every value an object with exactly the
    fields [originalUrl], a string, and [clicks], an integer of magnitude at
    most 2^53), a value the table's render throws on ([null], or an object
    or array with a [null] member, [null_member]), another JSON value, or a
    syntax error.  The instance
    [browser_json] discharges the laws of [App.JsonCodec]. *)

From S2P Require Import Prelude JsFloat JsObject Shortener App JsonSyntax.
Import Shortener Json.

Module JsonStore.

Definition units_of (s : string) : list Z := map code (String.list_ascii_of_string s).

Definition string_of_units (u : list Z) : option string :=
  if forallb (λ z, (0 <=? z) && (z <? 256))%Z u
  then Some (String.string_of_list_ascii (map (λ z, ascii_of_nat (Z.to_nat z)) u))
  else None.

(** ** Printing *)

Definition print_entry (e : Entry) : list ascii :=
  ["{"%char] ++ quote_string "originalUrl" ++ [":"%char] ++ quote_string (originalUrl e)
  ++ [","%char] ++ quote_string "clicks" ++ [":"%char] ++ print_int (clicks e) ++ ["}"%char].

Definition print_member (kv : string * Entry) : list ascii :=
  quote_string kv.1 ++ [":"%char] ++ print_entry kv.2.

Fixpoint print_members (ms : list (string * Entry)) : list ascii :=
  match ms with
  | [] => []
  | [kv] => print_member kv
  | kv :: ms' => print_member kv ++ [","%char] ++ print_members ms'
  end.

(** [JSON.stringify(urlMap)]. *)
Definition stringify_store (m : UrlMap) : string :=
  String.string_of_list_ascii (["{"%char] ++ print_members (JsObj.entries m) ++ ["}"%char]).

(** ** Decoding *)

(** The object [JSON.parse] creates from members in text order. *)
Definition build_obj {V} (ms : list (string * V)) : jsobj V :=
  foldl (λ o kv, JsObj.set o kv.1 kv.2) [] ms.

Definition named {V} (ms : list (list Z * V)) : option (list (string * V)) :=
  mapM (λ kv, (λ s, (s, kv.2)) <$> string_of_units kv.1) ms.

(** An integer-valued number [mant * 10^exp10]. *)
Definition num_int (mant exp10 : Z) : option Z :=
  if (0 <=? exp10)%Z then Some (mant * 10 ^ exp10)%Z
  else if (mant mod 10 ^ (- exp10) =? 0)%Z then Some (mant / 10 ^ (- exp10))%Z
  else None.

Definition decode_entry (v : json) : option Entry :=
  match v with
  | JObj ms =>
      o ← named ms;
      let o := build_obj o in
      if bool_decide (length o = 2) then
        match JsObj.get o "originalUrl", JsObj.get o "clicks" with
        | Some (JStr u), Some (JNum mt ex) =>
            url ← string_of_units u;
            c ← num_int mt ex;
            if (Z.abs c <=? 2 ^ 53)%Z then Some (mkEntry url c) else None
        | _, _ => None
        end
      else None
  | _ => None
  end.

Definition decode_store (v : json) : option UrlMap :=
  match v with
  | JObj ms =>
      o ← named ms;
      mapM (λ kv, (λ e, (kv.1, e)) <$> decode_entry kv.2) (build_obj o)
  | _ => None
  end.

Definition is_null (v : json) : bool := match v with JNull => true | _ => false end.

(** A value with a [null] property: the destructuring
    [([key, { originalUrl, clicks }])] of the table's rows (line 120)
    throws on it.  The properties of an object are those [JSON.parse]
    creates, a later duplicate name overwriting an earlier one. *)
Definition null_member (v : json) : bool :=
  match v with
  | JObj ms => from_option (λ o, existsb (λ kv, is_null kv.2) (build_obj o)) false (named ms)
  | JArr vs => existsb is_null vs
  | _ => false
  end.

(** [JSON.parse(data)], classified. *)
Definition parse_store (s : string) : App.ParseResult :=
  match parse_text s with
  | None => App.SyntaxError
  | Some JNull => App.ParsedUnrenderable
  | Some v => match decode_store v with
              | Some m => App.Parsed m
              | None => if null_member v then App.ParsedUnrenderable else App.ParsedOther
              end
  end.

(** The JSON values of a printed entry and of a printed member. *)
Definition entry_json (e : Entry) : json :=
  JObj [(units_of "originalUrl", JStr (units_of (originalUrl e)));
        (units_of "clicks", JNum (clicks e) 0)].

Definition member_json (kv : string * Entry) : list Z * json := (units_of kv.1, entry_json kv.2).

(** ** Round trip of the printed store *)

Lemma parse_escape_unit c l :
  parse_string (escape_unit c ++ l) = cons_unit (code c) (parse_string l).
Proof. destruct c as [[] [] [] [] [] [] [] []]; reflexivity. Qed.

Lemma parse_quoted s rest :
  parse_string (flat_map escape_unit (String.list_ascii_of_string s) ++ quote_char :: rest) =
  Some (units_of s, rest).
Proof.
  unfold units_of. induction (String.list_ascii_of_string s) as [|c cs IH]; [reflexivity|].
  simpl flat_map. rewrite <- app_assoc, parse_escape_unit, IH. reflexivity.
Qed.

Lemma quote_string_app s l :
  quote_string s ++ l = quote_char :: flat_map escape_unit (String.list_ascii_of_string s) ++ quote_char :: l.
Proof. unfold quote_string. simpl. by rewrite <- app_assoc. Qed.

Lemma code_digit_char d : (0 ≤ d < 10)%Z → code (digit_char d) = (48 + d)%Z.
Proof.
  intros Hd. unfold code, digit_char. rewrite nat_ascii_embedding by lia. lia.
Qed.

Lemma digit_char_digit d : (0 ≤ d < 10)%Z → is_ascii_digit (digit_char d) = true.
Proof. intros Hd. apply in_range_spec. rewrite code_digit_char by done. lia. Qed.

Lemma digits_aux_S f n acc :
  digits_aux (S f) n acc =
  if (n <? 10)%Z then digit_char (n mod 10) :: acc
  else digits_aux f (n / 10) (digit_char (n mod 10) :: acc).
Proof. reflexivity. Qed.

Lemma single_digit d :
  (0 ≤ d < 10)%Z → canonical_digits [digit_char d] ∧ dec_val [digit_char d] = d.
Proof.
  intros Hd. unfold canonical_digits. split_and!; [done|apply Forall_singleton, digit_char_digit; lia| |].
  - destruct (Z.eq_dec d 0%Z) as [->|Hne]; [by left|right].
    intros [= Hc]. apply (f_equal code) in Hc. rewrite code_digit_char in Hc by lia.
    change (code "0") with 48%Z in Hc. lia.
  - unfold dec_val. simpl. rewrite code_digit_char by lia. lia.
Qed.

Lemma digits_aux_spec f n acc :
  (0 ≤ n < 10 ^ Z.of_nat (S f))%Z →
  ∃ ds, digits_aux (S f) n acc = ds ++ acc ∧ canonical_digits ds ∧ dec_val ds = n.
Proof.
  revert n acc. induction f as [|f IH]; intros n acc Hn; rewrite digits_aux_S.
  - assert (n < 10)%Z by (simpl in Hn; lia). exists [digit_char n].
    rewrite Z.mod_small, (proj2 (Z.ltb_lt _ _)) by lia. split; [done|apply single_digit; lia].
  - destruct (Z.ltb_spec n 10).
    + exists [digit_char n]. rewrite Z.mod_small by lia. split; [done|apply single_digit; lia].
    + destruct (IH (n / 10)%Z (digit_char (n mod 10)%Z :: acc)) as (ds & Hds & (Hne & Hdig & Hlead) & Hval).
      { split; [apply Z.div_pos; lia|]. apply Z.div_lt_upper_bound; [lia|].
        rewrite Nat2Z.inj_succ, Z.pow_succ_r in Hn by lia. rewrite Nat2Z.inj_succ in *. lia. }
      exists (ds ++ [digit_char (n mod 10)%Z]).
      pose proof (Z.mod_pos_bound n 10 ltac:(lia)).
      rewrite Hds, <- app_assoc. unfold canonical_digits. split_and!; [done| |apply Forall_app; split; [done|]| |].
      * by destruct ds.
      * constructor; [by apply digit_char_digit|done].
      * right. destruct Hlead as [->|Hh].
        { exfalso. unfold dec_val in Hval. simpl in Hval.
          assert (1 ≤ n / 10)%Z by (apply Z.div_le_lower_bound; lia). change (code "0") with 48%Z in Hval. lia. }
        destruct ds; [done|]. done.
      * rewrite dec_val_snoc, Hval, code_digit_char by lia.
        pose proof (Z.div_mod n 10 ltac:(lia)). lia.
Qed.

Lemma print_int_nonneg n :
  (0 ≤ n)%Z → canonical_digits (print_int n) ∧ dec_val (print_int n) = n.
Proof.
  intros Hn. unfold print_int. rewrite (proj2 (Z.ltb_ge _ _)) by lia.
  rewrite app_nil_l, Z.abs_eq by done.
  destruct (digits_aux_spec (Z.to_nat (Z.log2 n)) n []) as (ds & -> & Hc & Hv).
  - split; [done|]. rewrite Nat2Z.inj_succ, Z2Nat.id by apply Z.log2_nonneg.
    apply Z.lt_le_trans with (2 ^ Z.succ (Z.log2 n))%Z.
    + destruct (Z.eq_dec n 0%Z) as [->|Hne]; [simpl; lia|]. apply Z.log2_spec. lia.
    + apply Z.pow_le_mono_l. pose proof (Z.log2_nonneg n). lia.
  - by rewrite app_nil_r.
Qed.

Lemma parse_number_canonical ds c rest :
  canonical_digits ds → is_ascii_digit c = false →
  c ≠ "."%char → c ≠ "e"%char → c ≠ "E"%char →
  parse_number (ds ++ c :: rest) = Some (JNum (dec_val ds) 0, c :: rest).
Proof.
  intros (Hne & Hdig & Hlead) Hc Hdot He HE.
  destruct ds as [|d ds']; [done|].
  apply Forall_cons in Hdig as Hd. destruct Hd as [Hd _].
  destruct (take_drop_while_app is_ascii_digit (d :: ds') c rest Hdig Hc) as [Ht Hd'].
  unfold parse_number. simpl app. cbv beta iota.
  assert (is_char d "-" = false) as -> by (unfold is_char; case_bool_decide; subst; done).
  cbv zeta. rewrite Hd. simpl negb. cbv iota.
  assert (Hids : (if is_char d "0" then ([d], ds' ++ c :: rest) else digits_span (d :: ds' ++ c :: rest))
                 = (d :: ds', c :: rest)).
  { unfold is_char. case_bool_decide as H0.
    - destruct Hlead as [[= -> ->]|Hh]; [done|]. subst. done.
    - unfold digits_span. simpl app in Ht, Hd'. by rewrite Ht, Hd'. }
  rewrite Hids.
  assert (is_char c "." = false) as -> by (unfold is_char; by case_bool_decide).
  assert (is_char c "e" || is_char c "E" = false) as -> by (unfold is_char; by repeat case_bool_decide).
  simpl. rewrite app_nil_r. done.
Qed.

#[local] Arguments parse_number : simpl never.
#[local] Arguments print_int : simpl never.

Lemma digit_is_char c x : is_ascii_digit c = true → is_ascii_digit x = false → is_char c x = false.
Proof. intros Hc Hx. unfold is_char. case_bool_decide; congruence. Qed.

Lemma parse_value_digit f c l :
  is_ascii_digit c = true → parse_value (S f) (c :: l) = parse_number (c :: l).
Proof.
  intros Hd. pose proof Hd as Hr. apply in_range_spec in Hr.
  assert (is_ws c = false) as Hws.
  { unfold is_ws. apply bool_decide_eq_false. intros Hin.
    repeat rewrite elem_of_cons in Hin. rewrite elem_of_nil in Hin. lia. }
  assert (is_quote c = false) as Hq by (unfold is_quote; apply Z.eqb_neq; lia).
  cbn [parse_value skip_ws drop_while]. rewrite Hws, Hq, !(digit_is_char c) by done. done.
Qed.

Lemma parse_value_canonical f ds rest :
  canonical_digits ds → parse_value (S f) (ds ++ "}"%char :: rest) = Some (JNum (dec_val ds) 0, "}"%char :: rest).
Proof.
  intros Hc. destruct ds as [|d ds']; [by destruct Hc|].
  pose proof Hc as (_ & Hdig & _). apply Forall_cons in Hdig as [Hd _].
  simpl app. rewrite parse_value_digit by done.
  rewrite app_comm_cons. apply parse_number_canonical; [done..].
Qed.

Lemma parse_entry f e rest :
  (0 ≤ clicks e)%Z →
  parse_value (S (S (S (S f)))) (print_entry e ++ rest) = Some (entry_json e, rest).
Proof.
  intros Hc. destruct (print_int_nonneg _ Hc) as [Hcan Hval].
  unfold print_entry. rewrite <- !app_assoc. rewrite !quote_string_app.
  remember (S f) as g eqn:Hg. simpl. rewrite parse_quoted. simpl.
  rewrite Hg, parse_value_canonical, Hval by done. reflexivity.
Qed.

#[local] Arguments print_entry : simpl never.

Lemma is_char_refl c : is_char c c = true.
Proof. unfold is_char. by apply bool_decide_true. Qed.

Lemma print_members_head ms X : ms ≠ [] → ∃ L, print_members ms ++ X = quote_char :: L.
Proof.
  intros Hne. destruct ms as [|[k e] [|kv ms]]; [done| |];
    unfold print_members, print_member; simpl fst; rewrite <- !app_assoc, quote_string_app; by eexists.
Qed.

Lemma skip_ws_members ms X : ms ≠ [] → skip_ws (print_members ms ++ X) = print_members ms ++ X.
Proof. intros Hne. destruct (print_members_head ms X Hne) as [L ->]. reflexivity. Qed.

Lemma skip_ws_cons c l : is_ws c = false → skip_ws (c :: l) = c :: l.
Proof. intros H. unfold skip_ws. simpl. by rewrite H. Qed.

Lemma parse_member_step f k e X acc :
  (0 ≤ clicks e)%Z →
  parse_members (S (S (S (S (S f))))) (print_member (k, e) ++ X) acc =
  match skip_ws X with
  | [] => None
  | c4 :: l5 =>
      if is_char c4 "," then parse_members (S (S (S (S f)))) (skip_ws l5) (acc ++ [member_json (k, e)])
      else if is_char c4 "}" then Some (JObj (acc ++ [member_json (k, e)]), l5) else None
  end.
Proof.
  intros Hc. unfold print_member. simpl fst. simpl snd. rewrite <- !app_assoc, quote_string_app.
  remember (S (S (S (S f)))) as g eqn:Hg. remember (print_entry e ++ X) as P eqn:HP.
  simpl. rewrite parse_quoted. simpl.
  rewrite Hg, HP, parse_entry by done. reflexivity.
Qed.

Lemma parse_members_print ms f acc rest :
  ms ≠ [] → Forall (λ kv, 0 ≤ clicks kv.2)%Z ms → length ms + 4 ≤ f →
  parse_members f (print_members ms ++ "}"%char :: rest) acc = Some (JObj (acc ++ map member_json ms), rest).
Proof.
  revert f acc. induction ms as [|[k e] ms IH]; intros f acc Hne Hcl Hf; [done|].
  apply Forall_cons in Hcl as [He Hcl]. simpl length in Hf.
  destruct f as [|[|[|[|[|f]]]]]; try lia.
  destruct ms as [|kv' ms'].
  - simpl print_members. rewrite parse_member_step by done. reflexivity.
  - change (print_members ((k, e) :: kv' :: ms')) with (print_member (k, e) ++ [","%char] ++ print_members (kv' :: ms')).
    rewrite <- !app_assoc, parse_member_step by done.
    remember (print_members (kv' :: ms') ++ "}"%char :: rest) as T eqn:HT.
    change ([","%char] ++ T) with (","%char :: T). rewrite skip_ws_cons, is_char_refl by reflexivity.
    cbv iota. rewrite HT, skip_ws_members, <- HT, IH by (done || lia). by rewrite <- app_assoc.
Qed.

Lemma print_members_length ms : 5 * length ms ≤ length (print_members ms).
Proof.
  assert (∀ kv, 5 ≤ length (print_member kv)) as Hm.
  { intros [k e]. unfold print_member, print_entry, quote_string. rewrite !length_app. simpl. lia. }
  induction ms as [|kv [|kv' ms] IH]; [simpl; lia|specialize (Hm kv); cbn [print_members length]; lia|].
  change (print_members (kv :: kv' :: ms)) with (print_member kv ++ [","%char] ++ print_members (kv' :: ms)).
  rewrite !length_app. specialize (Hm kv). simpl length in *. lia.
Qed.

Lemma parse_object_print ms f rest :
  Forall (λ kv, 0 ≤ clicks kv.2)%Z ms → length ms + 5 ≤ f →
  parse_value f ("{"%char :: print_members ms ++ "}"%char :: rest) = Some (JObj (map member_json ms), rest).
Proof.
  intros Hcl Hf. destruct f as [|f]; [lia|]. destruct ms as [|kv ms]; [reflexivity|].
  destruct (print_members_head (kv :: ms) ("}"%char :: rest)) as [L HL]; [done|].
  cbn [parse_value]. rewrite skip_ws_cons, is_char_refl by reflexivity. cbv iota.
  rewrite HL, skip_ws_cons by reflexivity. change (is_char quote_char "}") with false. cbv iota.
  rewrite <- HL. apply parse_members_print; [done|done|simpl in *; lia].
Qed.

Lemma parse_text_store m :
  Forall (λ kv, 0 ≤ clicks kv.2)%Z (JsObj.entries m) →
  parse_text (stringify_store m) = Some (JObj (map member_json (JsObj.entries m))).
Proof.
  intros Hcl. unfold parse_text, stringify_store. rewrite String.list_ascii_of_string_of_list_ascii.
  destruct (JsObj.entries m) as [|kv ms] eqn:E; [reflexivity|].
  change (["{"%char] ++ print_members (kv :: ms) ++ ["}"%char]) with ("{"%char :: print_members (kv :: ms) ++ ["}"%char]).
  rewrite parse_object_print; [reflexivity|done|].
  pose proof (print_members_length (kv :: ms)). simpl length in *. rewrite length_app. simpl. lia.
Qed.

Lemma units_of_roundtrip s : string_of_units (units_of s) = Some s.
Proof.
  unfold string_of_units, units_of.
  assert (∀ l, forallb (λ z, (0 <=? z) && (z <? 256))%Z (map code l) = true
               ∧ map (λ z, ascii_of_nat (Z.to_nat z)) (map code l) = l) as Hl.
  { induction l as [|c l [IH1 IH2]]; [done|]. simpl. rewrite IH1, IH2. pose proof (code_bound c).
    unfold code. rewrite Nat2Z.id, ascii_nat_embedding. split; [|done].
    apply andb_true_iff; split; [apply andb_true_iff; split|]; [apply Z.leb_le|apply Z.ltb_lt|done]; unfold code in *; lia. }
  destruct (Hl (String.list_ascii_of_string s)) as [-> ->]. by rewrite String.string_of_list_ascii_of_string.
Qed.

Lemma named_units {A B} (g : A → B) (ms : list (string * A)) :
  named (map (λ kv, (units_of kv.1, g kv.2)) ms) = Some (map (λ kv, (kv.1, g kv.2)) ms).
Proof. induction ms as [|[k v] ms IH]; [done|]. simpl. rewrite units_of_roundtrip. simpl. by rewrite IH. Qed.

Lemma decode_entry_json e : (0 ≤ clicks e ≤ 2 ^ 53)%Z → decode_entry (entry_json e) = Some e.
Proof.
  intros Hc. destruct e as [url c]. simpl in Hc. unfold decode_entry, entry_json. simpl.
  rewrite units_of_roundtrip. simpl. unfold num_int. simpl. rewrite Z.mul_1_r.
  assert ((Z.abs c <=? 2 ^ 53) = true)%Z as -> by (apply Z.leb_le; lia). done.
Qed.


Lemma build_obj_nodup {V} (ms : list (string * V)) : NoDup ms.*1 → build_obj ms = ms.
Proof.
  induction ms as [|kv ms IH] using rev_ind; [done|]. intros Hnd.
  rewrite fmap_app in Hnd. apply NoDup_app in Hnd as (Hnd & Hdisj & _).
  unfold build_obj. rewrite foldl_app. fold (build_obj ms). rewrite IH by done.
  destruct kv as [k v]. simpl. apply JsObj.set_fresh. intros Hin. apply (Hdisj _ Hin). simpl. by left.
Qed.

Lemma wf_build_obj {V} (ms : list (string * V)) : JsObj.wf (build_obj ms).
Proof.
  unfold build_obj. generalize (@nil (string * V)) (NoDup_nil_2 : JsObj.wf (@nil (string * V))).
  induction ms as [|kv ms IH]; intros o Ho; [done|]. apply IH. by apply JsObj.wf_set.
Qed.

Lemma decode_members_keys (g : json → option Entry) (o : list (string * json)) (m : UrlMap) :
  mapM (λ kv, (λ e, (kv.1, e)) <$> g kv.2) o = Some m → m.*1 = o.*1.
Proof.
  revert m. induction o as [|[k v] o IH]; intros m H; simpl in H; [by injection H as <-|].
  destruct (g v); simpl in H; [|done]. destruct (mapM _ o) eqn:E; simpl in H; [|done].
  injection H as <-. rewrite !fmap_cons. f_equal. by apply IH.
Qed.

Lemma decode_store_wf v m : decode_store v = Some m → JsObj.wf m.
Proof.
  destruct v; simpl; try done. destruct (named members); simpl; [|done].
  intros H. unfold JsObj.wf. rewrite (decode_members_keys _ _ _ H). apply wf_build_obj.
Qed.

Lemma decode_members_json (ms : UrlMap) :
  Forall (λ kv, 0 ≤ clicks kv.2 ≤ 2 ^ 53)%Z ms →
  mapM (λ kv, (λ e, (kv.1, e)) <$> decode_entry kv.2) (map (λ kv, (kv.1, entry_json kv.2)) ms) = Some ms.
Proof.
  induction ms as [|[k e] ms IH]; intros Hcl; [done|]. apply Forall_cons in Hcl as [He Hcl].
  cbn [map fst snd mapM]. rewrite decode_entry_json, IH by done. reflexivity.
Qed.

(** Parsing the printed store. *)
Lemma parse_stringify_store_spec m :
  JsObj.wf m → clicks_ok m → parse_store (stringify_store m) = App.Parsed (JsObj.entries m).
Proof.
  intros Hwf Hok.
  assert (Forall (λ kv, 0 ≤ clicks kv.2 ≤ 2 ^ 53)%Z (JsObj.entries m)) as Hcl.
  { apply Forall_forall. intros [k e] Hin. rewrite JsObj.entries_perm in Hin.
    apply (Hok k e), JsObj.get_elem; done. }
  unfold parse_store. rewrite parse_text_store by (eapply Forall_impl; [done|]; simpl; lia).
  unfold decode_store. unfold member_json at 1.
  rewrite (named_units entry_json). simpl.
  rewrite build_obj_nodup.
  - by rewrite decode_members_json.
  - rewrite <- list_fmap_compose. apply JsObj.wf_entries, Hwf.
Qed.

(** C7 The persisted text is read back: for a map with distinct keys and
    counters in [0, 2^53], [JSON.parse(JSON.stringify(m))] yields the
    entries of [m] in enumeration order (spec property 6, lossless
    serialization of the entry shape). *)
Theorem parse_stringify_store m :
  JsObj.wf m → clicks_ok m → parse_store (stringify_store m) = App.Parsed (JsObj.entries m).
Proof. apply parse_stringify_store_spec. Qed.

(** A map [JSON.parse] returns has distinct keys, whatever the text: a
    name repeated in the text overwrites the earlier member. *)
Lemma parse_store_wf s m : parse_store s = App.Parsed m → JsObj.wf m.
Proof.
  unfold parse_store. destruct (parse_text s) as [j|]; [|done].
  destruct (decode_store j) eqn:E; [|destruct j; [done|..]; by destruct (null_member _)].
  destruct j; try done; intros [= <-]; by eapply decode_store_wf.
Qed.

End JsonStore.

#[export] Instance browser_json : App.JsonCodec := {|
  App.stringify := JsonStore.stringify_store;
  App.parse := JsonStore.parse_store;
  App.stringify_nonempty m := ltac:(unfold JsonStore.stringify_store; simpl; congruence);
  App.parse_stringify := JsonStore.parse_stringify_store_spec;
  App.parse_wf := JsonStore.parse_store_wf
|}.
