(* ===== verification/Scenario.v ===== *)
(** * Concrete runs of the component

    The component with the browser's collaborators: URL validation by
    [whatwg_parser] (file [Url]), [JSON.stringify]/[JSON.parse] by
    [browser_json] (file [Json]), and a fixed stream of [Math.random]
    results ([demo_rng], V8's 52-bit doubles).  This file replays the
    spec's scenario (section 8, property 7) event by event from a mount on
    an empty [localStorage], shows the two input cases the handler treats
    differently from the spec (a key that is the empty string, and an input
    with surrounding blanks), and instantiates the general theorems of the
    development at concrete states. *)

From S2P Require Import Prelude JsFloat JsObject ShortKey Url Shortener App JsonSyntax Json.
Import Binary64 Shortener App.

Module Scenario.

(** A stream of [Math.random] results: the i-th double has the mantissa
    bits [((i + 1) * 11400714819323198485) mod 2^52] (a multiplicative
    hash, so that consecutive draws spread over [0, 1)). *)
Definition demo_rng : ShortKey.Rng :=
  λ i, v8_random ((Z.of_nat i + 1) * 11400714819323198485)%Z.

Definition example_url : string := "https://example.com".

(** The state after [mount], or the empty state when it crashed. *)
Definition mounted_state (m : Mount) : AppState :=
  match m with Mounted s => s | _ => mkApp initial_ui ∅ [] 0 end.

(** Events one after the other; [None] when a handler ran out of fuel. *)
Definition run_events (fuel : nat) (s : AppState) (evs : list Event) : option AppState :=
  foldl (λ o ev, o ≫= λ s, react_step demo_rng fuel s ev) (Some s) evs.

Definition enabledb (s : AppState) (ev : Event) : bool :=
  match ev with
  | EvOpen key | EvDelete key => bool_decide (key ∈ JsObj.keys (urlMap (ui s)))
  | _ => true
  end.

(** The run of [evs] when each event is one the rendered page offers. *)
Fixpoint run_enabled (fuel : nat) (s : AppState) (evs : list Event) : option AppState :=
  match evs with
  | [] => Some s
  | ev :: evs' =>
      if enabledb s ev then react_step demo_rng fuel s ev ≫= λ s', run_enabled fuel s' evs'
      else None
  end.

(** The states of the spec's scenario. *)
Definition st_mount : AppState := Eval vm_compute in mounted_state (mount false ∅).

Definition k1 : string := Eval vm_compute in ShortKey.candidate demo_rng 0 0.

Definition st_shortened : AppState :=
  Eval vm_compute in from_option id st_mount (run_events 1 st_mount [EvInput example_url; EvShorten]).

Definition st_duplicate : AppState :=
  Eval vm_compute in from_option id st_mount (run_events 1 st_shortened [EvInput example_url; EvShorten]).

Definition st_opened : AppState :=
  Eval vm_compute in from_option id st_mount (run_events 1 st_duplicate [EvOpen k1]).

Definition st_deleted : AppState :=
  Eval vm_compute in from_option id st_mount (run_events 1 st_opened [EvDelete k1]).

(** A stored map with a key that is the empty string: [JSON.stringify]
    writes it as a member named [""], which [JSON.parse] reads back. *)
Definition empty_key_map : UrlMap := [("", mkEntry "https://a.org" 0)].

Definition st_empty_key : AppState :=
  Eval vm_compute in mounted_state (mount false {[LOCAL_STORAGE_KEY := stringify empty_key_map]}).

Definition st_empty_key_dup : AppState :=
  Eval vm_compute in from_option id st_mount (run_events 1 st_empty_key [EvInput "https://a.org"; EvShorten]).

Definition st_blank_dup : AppState :=
  Eval vm_compute in
    from_option id st_mount (run_events 1 st_shortened [EvInput (String.append " " example_url); EvShorten]).

(** Data of the concrete instances of the general theorems. *)

(** Two entries created in the order "Zx9Kq2", "123": enumeration puts the
    array index "123" first. *)
Definition demo_map : UrlMap :=
  [("Zx9Kq2", mkEntry example_url 1); ("123", mkEntry "https://a.org/x?q=1" 7)].

Definition demo_ui : UiState := mkUi "https://a.org" demo_map "".

Definition dup_ui : UiState := mkUi example_url demo_map "".

Definition dup_world : World :=
  Eval vm_compute in from_option snd (fresh_world [] 0) (handleShorten demo_rng 1 dup_ui (fresh_world [] 0)).

(** A JSON text naming the same key twice. *)
Definition quoted (s : string) : string :=
  String.String (ascii_of_nat 34) (String.append s (String.String (ascii_of_nat 34) String.EmptyString)).

Definition entry_text (url : string) (c : string) : string :=
  String.concat "" ["{"; quoted "originalUrl"; ":"; quoted url; ","; quoted "clicks"; ":"; c; "}"].

Definition dup_text : string :=
  String.concat "" ["{"; quoted "k"; ":"; entry_text "https://a.org" "1"; ",";
                    quoted "k"; ":"; entry_text "https://b.org" "2e0"; "}"].

(** A stored object with a valid entry and a [null] one. *)
Definition null_entry_text : string :=
  String.concat "" ["{"; quoted "k"; ":"; entry_text "https://a.org" "1"; ","; quoted "a"; ":null}"].

(** ** Helpers *)

Lemma demo_rng_valid : ShortKey.valid_rng demo_rng.
Proof.
  intros i. unfold valid01, demo_rng, v8_random, prec. cbn [mant expo].
  pose proof (Z.mod_pos_bound ((Z.of_nat i + 1) * 11400714819323198485) (2 ^ 52) ltac:(lia)).
  assert (2 ^ 52 < 2 ^ 53)%Z by reflexivity. lia.
Qed.

Lemma run_enabled_reachable fuel strict stor0 s evs s' :
  reachable demo_rng strict stor0 s → run_enabled fuel s evs = Some s' →
  reachable demo_rng strict stor0 s'.
Proof.
  revert s. induction evs as [|ev evs IH]; intros s Hs Hrun; simpl in Hrun; [by simplify_eq|].
  destruct (enabledb s ev) eqn:Hen; [|done].
  destruct (react_step demo_rng fuel s ev) as [s1|] eqn:Hst; simpl in Hrun; [|done].
  apply (IH s1); [|done]. eapply reach_step; [done|]. eapply (step_event _ _ ev fuel); [|done].
  destruct ev; simpl in *; try done; by apply bool_decide_eq_true in Hen.
Qed.

Lemma clicks_ok_Forall (m : UrlMap) :
  Forall (λ kv, 0 ≤ clicks kv.2 ≤ 2 ^ prec)%Z m → clicks_ok m.
Proof.
  intros Hall k e. induction Hall as [|[k' e'] m He _ IH]; [done|]. simpl.
  case_bool_decide; [intros [= <-]; done|done].
Qed.

Lemma clicks_below_Forall (m : UrlMap) :
  Forall (λ kv, 0 ≤ clicks kv.2 < 2 ^ prec)%Z m → clicks_below m.
Proof.
  intros Hall k e. induction Hall as [|[k' e'] m He _ IH]; [done|]. simpl.
  case_bool_decide; [intros [= <-]; done|done].
Qed.

Lemma mount_empty : mount false ∅ = Mounted st_mount.
Proof. vm_compute. reflexivity. Qed.

Lemma scenario_reachable :
  reachable demo_rng false ∅ st_shortened ∧ reachable demo_rng false ∅ st_duplicate ∧
  reachable demo_rng false ∅ st_opened ∧ reachable demo_rng false ∅ st_deleted.
Proof.
  assert (H0 : reachable demo_rng false ∅ st_mount) by (constructor; apply mount_empty).
  assert (H1 : reachable demo_rng false ∅ st_shortened)
    by (eapply (run_enabled_reachable 1 _ _ _ [EvInput example_url; EvShorten]); [done|vm_compute; reflexivity]).
  assert (H2 : reachable demo_rng false ∅ st_duplicate)
    by (eapply (run_enabled_reachable 1 _ _ _ [EvInput example_url; EvShorten]); [done|vm_compute; reflexivity]).
  assert (H3 : reachable demo_rng false ∅ st_opened)
    by (eapply (run_enabled_reachable 1 _ _ _ [EvOpen k1]); [done|vm_compute; reflexivity]).
  assert (H4 : reachable demo_rng false ∅ st_deleted)
    by (eapply (run_enabled_reachable 1 _ _ _ [EvDelete k1]); [done|vm_compute; reflexivity]).
  done.
Qed.

Lemma no_url_Forall (m : UrlMap) url :
  Forall (λ kv, originalUrl kv.2 ≠ url) m →
  ∀ k e, JsObj.to_map m !! k = Some e → originalUrl e ≠ url.
Proof.
  intros Hall k e He. apply elem_of_list_to_map_2 in He.
  rewrite Forall_forall in Hall. by apply (Hall (k, e)).
Qed.

(** ** The spec's scenario *)

(** The scenario of spec section 8 (property 7), replayed on the whole
    component from a mount on an empty [localStorage]: shortening
    "https://example.com" creates one entry with 0 clicks under a new
    six-character alphanumeric key [k1]; shortening it again alerts and
    leaves the store unchanged; opening [k1] counts one click and opens
    the URL in a new browsing context; deleting [k1] empties the store,
    and the slot holds the empty object. *)
Example spec_scenario :
  ∃ s0 s1 s2 s3 s4 k1,
    mount false ∅ = Mounted s0 ∧ urlMap (ui s0) = [] ∧
    run_events 1 s0 [EvInput example_url; EvShorten] = Some s1 ∧
    JsObj.to_map (urlMap (ui s1)) = {[k1 := mkEntry example_url 0]} ∧
    String.length k1 = 6 ∧ str_forallb is_ascii_alnum k1 = true ∧
    run_events 1 s1 [EvInput example_url; EvShorten] = Some s2 ∧
    urlMap (ui s2) = urlMap (ui s1) ∧ inputUrl (ui s2) = "" ∧
    trace s2 = trace s1 ++ [Alert "URL already shortened."] ∧
    run_events 1 s2 [EvOpen k1] = Some s3 ∧
    JsObj.to_map (urlMap (ui s3)) = {[k1 := mkEntry example_url 1]} ∧
    trace s3 = trace s2 ++ [OpenWindow example_url "_blank"] ∧
    run_events 1 s3 [EvDelete k1] = Some s4 ∧
    urlMap (ui s4) = [] ∧ storage s4 !! LOCAL_STORAGE_KEY = Some (stringify []).
Proof.
  exists st_mount, st_shortened, st_duplicate, st_opened, st_deleted, k1.
  split_and!; vm_compute; reflexivity.
Qed.

(** ** Where the handler departs from the spec *)

(** [if (existingKey)] end to end: after a reload of a store whose entry
    for a URL sits under the empty-string key, shortening the same URL
    adds a second entry for it. *)
Example empty_key_reload_example :
  ∃ s0 s1,
    mount false {[LOCAL_STORAGE_KEY := stringify empty_key_map]} = Mounted s0 ∧
    urlMap (ui s0) = empty_key_map ∧
    run_events 1 s0 [EvInput "https://a.org"; EvShorten] = Some s1 ∧
    map (λ kv, originalUrl kv.2) (urlMap (ui s1)) = ["https://a.org"; "https://a.org"] ∧
    trace s1 = [].
Proof. exists st_empty_key, st_empty_key_dup. split_and!; vm_compute; reflexivity. Qed.

(** Only the emptiness check trims the input: the URL with a leading
    space is valid for the URL parser, is not the same string as the
    stored one, and is stored untrimmed as a second entry. *)
Example untrimmed_url_stored :
  ∃ s1, run_events 1 st_shortened [EvInput (String.append " " example_url); EvShorten] = Some s1 ∧
    map (λ kv, originalUrl kv.2) (urlMap (ui s1)) = [example_url; String.append " " example_url] ∧
    trace s1 = trace st_shortened.
Proof. exists st_blank_dup. split_and!; vm_compute; reflexivity. Qed.

(** ** The general theorems at concrete states *)

Lemma step_refines_witness :
  Spec.step isValidUrl (JsObj.to_map (urlMap (ui st_duplicate))) (JsObj.to_map (urlMap (ui st_opened))).
Proof.
  apply (step_refines demo_rng st_duplicate st_opened).
  - split; [vm_decide|vm_compute; reflexivity].
  - vm_decide.
  - apply clicks_below_Forall. vm_decide.
  - apply (step_event _ _ (EvOpen k1) 1); [cbn [enabled]; vm_decide|vm_compute; reflexivity].
Defined.

Lemma reachable_inv_witness : app_inv st_opened.
Proof. apply (reachable_inv demo_rng false ∅). apply scenario_reachable. Defined.

Lemma parse_stringify_store_witness :
  JsonStore.parse_store (JsonStore.stringify_store demo_map) = Parsed (JsObj.entries demo_map).
Proof. apply JsonStore.parse_stringify_store; [vm_decide|apply clicks_ok_Forall; vm_decide]. Defined.

Lemma reload_restores_witness :
  ∃ s', mount false (storage st_opened) = Mounted s' ∧
        urlMap (ui s') = JsObj.entries (urlMap (ui st_opened)) ∧
        JsObj.to_map (urlMap (ui s')) = JsObj.to_map (urlMap (ui st_opened)).
Proof.
  apply (reload_restores demo_rng false ∅); [apply scenario_reachable|apply clicks_ok_Forall; vm_decide].
Defined.

Lemma handleShorten_refines_witness :
  ∃ r, Spec.shorten isValidUrl (inputUrl dup_ui) (JsObj.to_map (urlMap dup_ui)) r ∧
       shorten_outcome dup_ui (commit dup_ui dup_world) [] (effects dup_world) r.
Proof. apply (handleShorten_refines demo_rng 1 dup_ui [] 0); [vm_decide|vm_decide|vm_compute; reflexivity]. Defined.

Lemma handleShorten_inserts_witness :
  ∃ k w', handleShorten demo_rng 1 demo_ui (fresh_world [] 0) = Some (tt, w') ∧
    JsObj.to_map (urlMap (commit demo_ui w')) =
      <[k := mkEntry (inputUrl demo_ui) 0]> (JsObj.to_map (urlMap demo_ui)) ∧
    JsObj.to_map (urlMap demo_ui) !! k = None ∧
    size (JsObj.to_map (urlMap (commit demo_ui w'))) = S (size (JsObj.to_map (urlMap demo_ui))) ∧
    String.length k = 6 ∧ str_forallb is_ascii_alnum k = true ∧
    inputUrl (commit demo_ui w') = "" ∧ error (commit demo_ui w') = "" ∧ effects w' = [].
Proof.
  apply (handleShorten_inserts demo_rng 1 0 demo_ui [] 0).
  - apply demo_rng_valid.
  - vm_decide.
  - vm_decide.
  - vm_compute. reflexivity.
  - apply no_url_Forall. vm_decide.
  - vm_compute. reflexivity.
  - lia.
Defined.

(** The state of a reload of [empty_key_map] with the URL typed again. *)
Definition empty_key_ui : UiState := mkUi "https://a.org" empty_key_map "".

Lemma empty_key_duplicate_missed_witness :
  (∀ r, Spec.shorten isValidUrl (inputUrl empty_key_ui) (JsObj.to_map (urlMap empty_key_ui)) r →
        r = inr (Spec.Duplicate "")) ∧
  ∃ k w', handleShorten demo_rng 1 empty_key_ui (fresh_world [] 0) = Some (tt, w') ∧ k ≠ "" ∧
    JsObj.to_map (urlMap (commit empty_key_ui w')) =
      <[k := mkEntry (inputUrl empty_key_ui) 0]> (JsObj.to_map (urlMap empty_key_ui)) ∧
    JsObj.to_map (urlMap (commit empty_key_ui w')) !! "" = Some (mkEntry "https://a.org" 0) ∧
    effects w' = [].
Proof.
  apply (empty_key_duplicate_missed demo_rng 1 0 empty_key_ui [] 0 (mkEntry "https://a.org" 0)).
  - apply demo_rng_valid.
  - vm_decide.
  - vm_decide.
  - vm_compute. reflexivity.
  - vm_compute. reflexivity.
  - reflexivity.
  - intros k e' Hk _. apply elem_of_list_to_map_2, list_elem_of_singleton in Hk. by simplify_eq.
  - vm_compute. reflexivity.
  - lia.
Defined.

Lemma handleRedirect_refines_witness :
  ∃ w', handleRedirect demo_ui "123" (fresh_world [] 0) = Some (tt, w') ∧
    JsObj.to_map (urlMap (commit demo_ui w')) = Spec.open "123" (JsObj.to_map (urlMap demo_ui)) ∧
    inputUrl (commit demo_ui w') = inputUrl demo_ui ∧ error (commit demo_ui w') = error demo_ui ∧
    effects w' = [] ++ match JsObj.get (urlMap demo_ui) "123" with
                       | Some e => [OpenWindow (originalUrl e) "_blank"]
                       | None => []
                       end.
Proof.
  apply handleRedirect_refines; [vm_decide|].
  intros e He. vm_compute in He. injection He as <-. vm_decide.
Defined.

Lemma handleDelete_refines_witness :
  ∃ w', handleDelete demo_ui "Zx9Kq2" (fresh_world [] 0) = Some (tt, w') ∧
    JsObj.to_map (urlMap (commit demo_ui w')) = Spec.delete "Zx9Kq2" (JsObj.to_map (urlMap demo_ui)) ∧
    JsObj.wf (urlMap (commit demo_ui w')) ∧
    inputUrl (commit demo_ui w') = inputUrl demo_ui ∧ error (commit demo_ui w') = error demo_ui ∧
    effects w' = [].
Proof. apply handleDelete_refines. vm_decide. Defined.

Lemma generateShortKey_shape_witness :
  String.length (ShortKey.generateShortKey 6 demo_rng 0) = 6 ∧
  str_forallb is_ascii_alnum (ShortKey.generateShortKey 6 demo_rng 0) = true.
Proof. apply ShortKey.generateShortKey_shape, demo_rng_valid. Defined.

Lemma gen_loop_first_free_witness :
  let taken := λ k, bool_decide (k = k1) in
  ∃ j, j ≤ 1 ∧ (∀ j', j' < j → taken (ShortKey.candidate demo_rng 0 j') = true) ∧
       taken (ShortKey.candidate demo_rng 0 j) = false ∧
       ShortKey.gen_loop 2 taken demo_rng 0 =
         Some (ShortKey.candidate demo_rng 0 j, (0 + S j * ShortKey.default_length)%nat).
Proof. intros taken. apply (ShortKey.gen_loop_first_free taken demo_rng 0 1). vm_compute. reflexivity. Defined.

Lemma floor_mul_range_witness : (0 ≤ floor_mul (demo_rng 0%nat) 62 < 62)%Z.
Proof. apply floor_mul_range; [vm_decide|lia]. Defined.

Lemma reachable_clicks_witness : clicks_ok (urlMap (ui st_opened)).
Proof.
  apply (reachable_clicks demo_rng false ∅); [|apply scenario_reachable].
  intros data m Hd. by rewrite lookup_empty in Hd.
Defined.

Lemma corrupt_storage_crashes_witness :
  mount true {[LOCAL_STORAGE_KEY := "{oops"]} = MountCrashed {[LOCAL_STORAGE_KEY := "{oops"]}.
Proof. apply (corrupt_storage_crashes _ _ "{oops"); [vm_compute; reflexivity|discriminate|vm_compute; reflexivity]. Defined.

Lemma null_storage_crashes_witness :
  mount false {[LOCAL_STORAGE_KEY := "null"]} =
    MountCrashed (save_effect [] {[LOCAL_STORAGE_KEY := "null"]}) ∧
  (∃ s, mount true {[LOCAL_STORAGE_KEY := "null"]} = Mounted s ∧ urlMap (ui s) = []) ∧
  mount false {[LOCAL_STORAGE_KEY := null_entry_text]} =
    MountCrashed (save_effect [] {[LOCAL_STORAGE_KEY := null_entry_text]}).
Proof.
  destruct (null_storage_crashes {[LOCAL_STORAGE_KEY := "null"]} "null") as (H1 & _ & (s & H3 & H4 & _));
    [vm_compute; reflexivity|discriminate|vm_compute; reflexivity|].
  split_and!; [exact H1|by exists s|].
  apply (null_storage_crashes _ null_entry_text); [vm_compute; reflexivity|discriminate|vm_compute; reflexivity].
Defined.

Lemma strict_mount_loses_data_witness :
  (∃ s, mount false (storage st_opened) = Mounted s ∧ urlMap (ui s) = urlMap (ui st_opened) ∧
        storage s !! LOCAL_STORAGE_KEY = Some (stringify (urlMap (ui st_opened)))) ∧
  (∃ s, mount true (storage st_opened) = Mounted s ∧ urlMap (ui s) = [] ∧
        storage s !! LOCAL_STORAGE_KEY = Some (stringify [])).
Proof.
  apply (strict_mount_loses_data _ (stringify (urlMap (ui st_opened))));
    [vm_compute; reflexivity|vm_decide|vm_compute; reflexivity].
Defined.

Lemma reachable_urls_valid_witness :
  urls_ok (urlMap (ui st_opened)) ∧ urlMap (ui st_opened) ≠ [].
Proof.
  split; [|vm_decide].
  apply (reachable_urls_valid demo_rng false ∅); [|apply scenario_reachable].
  intros data m Hd. by rewrite lookup_empty in Hd.
Defined.

Lemma can_empty_store_witness :
  ∃ s', rtc (step demo_rng) (mkApp demo_ui ∅ [] 0) s' ∧ urlMap (ui s') = [].
Proof. apply can_empty_store. vm_decide. Defined.

End Scenario.
