(* ===== verification/View.v ===== *)
(** * The rendered page (lines 83-157)

    The render function of [UrlShortener] as a pure function of the state
    and of [window.location.origin]: the input's value, the error
    paragraph (rendered when [error] is truthy, i.e. not the empty
    string), and either the text "No URLs added yet." or one table row
    per entry of [Object.entries(urlMap)], in that order, showing the
    short URL text [{baseUrl}/{key}], the original URL and the click count
    (a number rendered by Number::toString).  Each row carries the two
    events of its key: the anchor's [onClick] opens it, the button's
    [onClick] deletes it.  The full element tree, with the markup and
    styles, is [Dom.render_dom]; this page keeps the rows and texts the
    lifecycle theorems need.  The last theorem composes the lifecycle, the JSON round trip and the render: a reload
    shows the same table. *)

From S2P Require Import Prelude JsFloat JsObject Url Shortener App JsonSyntax Json Scenario.
Import Shortener App.

Module View.

Record Row := mkRow {
  row_key : string;          (** [<tr key={key}>] *)
  short_url : string;        (** [{baseUrl}/{key}] *)
  original_url : string;     (** [{originalUrl}] *)
  clicks_text : string       (** [{clicks}] *)
}.

Inductive Table := NoUrls | UrlTable (rows : list Row).

Record Page := mkPage {
  input_value : string;          (** [value={inputUrl}] *)
  error_text : option string;    (** [{error && <p>{error}</p>}] *)
  url_table : Table
}.

(** One row of [Object.entries(urlMap).map(...)]. *)
Definition row_of (baseUrl : string) (kv : string * Entry) : Row :=
  mkRow kv.1 (String.append baseUrl (String.append "/" kv.1)) (originalUrl kv.2)
        (String.string_of_list_ascii (Json.print_int (clicks kv.2))).

Definition render (baseUrl : string) (st : UiState) : Page :=
  mkPage (inputUrl st)
         (if bool_decide (error st = "") then None else Some (error st))
         (if bool_decide (length (JsObj.keys (urlMap st)) = 0) then NoUrls
          else UrlTable (map (row_of baseUrl) (JsObj.entries (urlMap st)))).

(** A store whose entries were created under "Zx9Kq2", then under the
    all-digit key "123", and the rows of its table. *)
Definition sample_map : UrlMap :=
  [("Zx9Kq2", mkEntry "https://example.com" 1); ("123", mkEntry "https://a.org" 7)].

Definition sample_rows : list Row :=
  [mkRow "123" "http://localhost:3000/123" "https://a.org" "7";
   mkRow "Zx9Kq2" "http://localhost:3000/Zx9Kq2" "https://example.com" "1"].

(** ** Lemmas *)

Lemma keys_length_0 (m : UrlMap) : length (JsObj.keys m) = 0 ↔ m = [].
Proof.
  unfold JsObj.keys. rewrite length_fmap, (Permutation_length (JsObj.entries_perm m)).
  split; [by destruct m|by intros ->].
Qed.

(** ** Theorems *)

(** C10 The table shows every entry of the store exactly once, in the
    object's enumeration order: the row keys are [Object.keys(urlMap)]
    (array-index keys ascending, then the others in creation order) and are
    distinct, every entry of the store has its row (key, short URL text,
    URL, click count), every row is the row of an entry, and the text
    "No URLs added yet." is shown exactly when the store is empty. *)
Theorem render_table baseUrl st :
  JsObj.wf (urlMap st) →
  (url_table (render baseUrl st) = NoUrls ↔ JsObj.to_map (urlMap st) = ∅) ∧
  ∀ rows, url_table (render baseUrl st) = UrlTable rows →
    map row_key rows = JsObj.keys (urlMap st) ∧ NoDup (map row_key rows) ∧
    (∀ k e, JsObj.to_map (urlMap st) !! k = Some e → row_of baseUrl (k, e) ∈ rows) ∧
    (∀ r, r ∈ rows → ∃ e, JsObj.to_map (urlMap st) !! row_key r = Some e ∧
                          r = row_of baseUrl (row_key r, e)).
Proof.
  intros Hwf. unfold render; cbn [url_table].
  case_bool_decide as Hlen; (split; [split|]).
  - intros _. apply keys_length_0 in Hlen. by rewrite Hlen.
  - done.
  - by intros ? [=].
  - done.
  - intros Hm. exfalso. apply Hlen, keys_length_0.
    apply (f_equal size) in Hm. rewrite JsObj.size_to_map, map_size_empty in Hm by done.
    by destruct (urlMap st).
  - intros rows [= <-]. split_and!.
    + unfold JsObj.keys. rewrite map_map. by apply list_fmap_ext.
    + rewrite map_map. apply (JsObj.wf_entries _ Hwf).
    + intros k e Hke. apply list_elem_of_fmap_2. rewrite JsObj.entries_perm.
      by apply elem_of_list_to_map_2 in Hke.
    + intros r ([k e] & -> & Hin)%list_elem_of_fmap. exists e. split; [|done].
      rewrite JsObj.entries_perm in Hin. by apply elem_of_list_to_map_1.
Qed.

(** C11 What a reload shows (App, JSON and View composed): in every state
    reachable from a storage whose stored counters are in range, reloading
    the page (a mount without StrictMode on the persisted storage) shows an
    empty input, no error paragraph, and the same table, row for row and in
    the same order. *)
Theorem reload_shows_same_table `{UrlParser} `{JsonCodec} rng baseUrl strict stor0 s :
  storage_ok stor0 → reachable rng strict stor0 s →
  ∃ s', mount false (storage s) = Mounted s' ∧
        render baseUrl (ui s') = mkPage "" None (url_table (render baseUrl (ui s))).
Proof.
  intros Hok Hreach. apply reachable_inv_clicks in Hreach as [[Hwf Hstor] Hcl]; [|done].
  unfold mount, mount_effects. rewrite (load_stringified _ _ Hstor Hwf Hcl).
  eexists. split; [reflexivity|]. unfold render, JsObj.keys; cbn -[JsObj.entries].
  by rewrite JsObj.entries_idem.
Qed.

(** The table is not in insertion order: a store whose entries were
    created under "Zx9Kq2" and then under the all-digit key "123" lists
    "123" first, as JavaScript enumerates array-index keys before the
    others. *)
Example render_index_keys_first :
  url_table (render "http://localhost:3000" (mkUi "" sample_map "")) = UrlTable sample_rows.
Proof. vm_compute. reflexivity. Qed.

Lemma render_table_witness :
  map row_key sample_rows = JsObj.keys sample_map ∧ NoDup (map row_key sample_rows).
Proof.
  destruct (render_table "http://localhost:3000" (mkUi "" sample_map "")) as [_ H]; [vm_decide|].
  destruct (H sample_rows) as (H1 & H2 & _); [vm_compute; reflexivity|]. by split.
Defined.

Lemma reload_shows_same_table_witness :
  ∃ s', mount false (storage Scenario.st_opened) = Mounted s' ∧
        render "http://localhost:3000" (ui s') =
        mkPage "" None (url_table (render "http://localhost:3000" (ui Scenario.st_opened))).
Proof.
  apply (reload_shows_same_table Scenario.demo_rng _ false ∅); [|apply Scenario.scenario_reachable].
  intros data m Hd. by rewrite lookup_empty in Hd.
Defined.

End View.
