(* ===== verification/Dom.v ===== *)
(** * The rendered element tree (lines 83-157) and the style objects
    (lines 160-170)

    [render_dom] is the JSX of [UrlShortener] as the element tree React
    commits: every element with its tag, its [key], its attributes, its
    inline style object (property names as in JavaScript, values numbers
    or strings), its event handler and its children, and the texts.  The
    handlers are data: [OnChangeSetInput] is [(e) => setInputUrl(e.target.value)]
    and [OnClick prevent ev] a click handler that calls
    [e.preventDefault()] when [prevent] holds and then the handler that
    [App.dispatch] runs for [ev].  [View.render] models the same JSX at
    the level of rows and texts for the lifecycle theorems.  Proved here: the handlers of the
    page, in document order, are those of the form and then the open and
    delete handlers of each key in [Object.keys] order; the anchors never
    navigate; in every reachable state the keyed elements are the rows,
    keyed by their short keys, and the keys of sibling elements are
    distinct (React's reconciliation requirement). *)

From S2P Require Import Prelude JsFloat JsObject Url Shortener App JsonSyntax Json Scenario View.
Import Shortener App.

Module Dom.

(** A value of a style object: [700] or ['auto']. *)
Inductive css := CssNum (n : Z) | CssStr (s : string).

Definition Style := list (string * css).

Inductive Handler :=
  | OnChangeSetInput                       (** [(e) => setInputUrl(e.target.value)] *)
  | OnClick (prevent : bool) (ev : Event).  (** [e.preventDefault()] if [prevent], then the call *)

#[local] Set Warnings "-register-all".

Inductive node :=
  | Text (s : string)
  | Elem (tag : string) (key : option string) (attrs : list (string * string))
         (style : Style) (handler : option Handler) (children : list node).

(** An element without key, attributes or handler. *)
Definition el (tag : string) (style : Style) (children : list node) : node :=
  Elem tag None [] style None children.

(** [thStyle] (lines 160-164). *)
Definition thStyle : Style :=
  [("borderBottom", CssStr "1px solid red"); ("padding", CssStr "0.5rem"); ("textAlign", CssStr "center")].

(** [tdStyle] (lines 166-170). *)
Definition tdStyle : Style :=
  [("padding", CssStr "0.5rem"); ("borderBottom", CssStr "1px solid red"); ("wordBreak", CssStr "break-word")].

(** One row of [Object.entries(urlMap).map(...)] (lines 120-151). *)
Definition row_dom (baseUrl : string) (kv : string * Entry) : node :=
  let '(key, e) := kv in
  Elem "tr" (Some key) [] [] None
    [el "td" tdStyle
       [Elem "a" None [("href", "#")] [] (Some (OnClick true (EvOpen key)))
          [Text baseUrl; Text "/"; Text key]];
     el "td" tdStyle [Text (originalUrl e)];
     el "td" tdStyle [Text (String.string_of_list_ascii (Json.print_int (clicks e)))];
     el "td" tdStyle
       [Elem "button" None []
          [("padding", CssStr "0.3rem 0.6rem"); ("backgroundColor", CssStr "Blue");
           ("color", CssStr "white"); ("border", CssStr "none");
           ("borderRadius", CssStr "4px"); ("cursor", CssStr "pointer")]
          (Some (OnClick false (EvDelete key))) [Text "Delete"]]].

(** The error paragraph [<p style={{ color: 'red' }}>{error}</p>] (line 104). *)
Definition error_p (error : string) : node := el "p" [("color", CssStr "red")] [Text error].

(** [{error && <p ...>{error}</p>}]: the empty string is falsy, and React
    renders nothing for it. *)
Definition error_dom (error : string) : list node :=
  if bool_decide (error = "") then [] else [error_p error].

(** [Object.keys(urlMap).length === 0 ? <p>No URLs added yet.</p> :
    <table>...</table>] (lines 107-154), given the rows. *)
Definition table_dom (empty : bool) (rows : list node) : node :=
  if empty then el "p" [] [Text "No URLs added yet."]
  else el "table" [("width", CssStr "100%"); ("borderCollapse", CssStr "collapse")]
         [el "thead" []
            [el "tr" []
               [el "th" thStyle [Text "Generated Short URL"];
                el "th" thStyle [Text "Original URL You Entered"];
                el "th" thStyle [Text "No.of Clicks"];
                el "th" thStyle [Text "Action"]]];
          el "tbody" [] rows].

(** The page around the form, the error paragraph and the table (lines
    85-106 and 156-157). *)
Definition page_dom (value : string) (err : list node) (table : node) : node :=
  el "div" [("maxWidth", CssNum 700); ("margin", CssStr "auto"); ("padding", CssStr "2rem");
            ("fontFamily", CssStr "sans-serif"); ("backgroundColor", CssStr "lightgreen")]
    [el "centre" []
      ([el "h1" [("color", CssStr "red")] [Text "React URL Shortener"];
        el "div" [("display", CssStr "flex"); ("marginBottom", CssStr "1rem")]
          [Elem "input" None [("type", "text"); ("placeholder", "Paste your URL here...");
                              ("value", value)]
             [("flex", CssNum 1); ("padding", CssStr "0.5rem"); ("fontSize", CssStr "1rem")]
             (Some OnChangeSetInput) [];
           Elem "button" None []
             [("marginLeft", CssStr "1rem"); ("padding", CssStr "0.5rem 1rem");
              ("fontSize", CssStr "1rem"); ("color", CssStr "green"); ("backgroundColor", CssStr "pink")]
             (Some (OnClick false EvShorten)) [Text "Shorten"]]]
       ++ err ++
       [el "h2" [("color", CssStr "purple")] [Text "Shortened URLs"]; table])].

(** The JSX returned by [UrlShortener] (lines 83-157), with
    [baseUrl = window.location.origin]. *)
Definition render_dom (baseUrl : string) (st : UiState) : node :=
  page_dom (inputUrl st) (error_dom (error st))
    (table_dom (bool_decide (length (JsObj.keys (urlMap st)) = 0))
               (map (row_dom baseUrl) (JsObj.entries (urlMap st)))).

(** ** Observations of a tree *)

(** The handlers of a tree in document order. *)
Fixpoint handlers (n : node) : list Handler :=
  match n with
  | Text _ => []
  | Elem _ _ _ _ h cs => option_list h ++ concat (map handlers cs)
  end.

Definition key_of (n : node) : option string :=
  match n with Elem _ k _ _ _ _ => k | Text _ => None end.

(** React's requirement on lists of children: the keys of siblings are
    distinct. *)
Fixpoint keys_distinct (n : node) : bool :=
  match n with
  | Text _ => true
  | Elem _ _ _ _ _ cs => bool_decide (NoDup (omap key_of cs)) && forallb keys_distinct cs
  end.

(** The React keys of a tree in document order. *)
Fixpoint keyed (n : node) : list string :=
  match n with
  | Text _ => []
  | Elem _ k _ _ _ cs => option_list k ++ concat (map keyed cs)
  end.

(** The elements that carry an [href]: their handlers. *)
Fixpoint links (n : node) : list (option Handler) :=
  match n with
  | Text _ => []
  | Elem _ _ attrs _ h cs =>
      (if bool_decide ("href" ∈ attrs.*1) then [h] else []) ++ concat (map links cs)
  end.

(** What firing a handler does: whether the default action is prevented,
    and the event the component receives ([e.target.value] is [v]). *)
Definition fire (h : Handler) (v : string) : bool * Event :=
  match h with
  | OnChangeSetInput => (false, EvInput v)
  | OnClick prevent ev => (prevent, ev)
  end.

(** ** Lemmas *)

Lemma handlers_error_dom e : concat (map handlers (error_dom e)) = [].
Proof. unfold error_dom. by case_bool_decide. Qed.

Lemma links_error_dom e : concat (map links (error_dom e)) = [].
Proof. unfold error_dom. by case_bool_decide. Qed.

Lemma keys_error_dom e : forallb keys_distinct (error_dom e) = true ∧ omap key_of (error_dom e) = [].
Proof. unfold error_dom. by case_bool_decide. Qed.

Lemma handlers_rows b (l : list (string * Entry)) :
  concat (map handlers (map (row_dom b) l)) =
  concat (map (λ k, [OnClick true (EvOpen k); OnClick false (EvDelete k)]) l.*1).
Proof. induction l as [|[k e] l IH]; [done|]. simpl. by rewrite IH. Qed.

Lemma links_rows b (l : list (string * Entry)) :
  concat (map links (map (row_dom b) l)) = map (λ k, Some (OnClick true (EvOpen k))) l.*1.
Proof. induction l as [|[k e] l IH]; [done|]. simpl. by rewrite IH. Qed.

Lemma keys_rows b (l : list (string * Entry)) :
  NoDup l.*1 → omap key_of (map (row_dom b) l) = l.*1 ∧ forallb keys_distinct (map (row_dom b) l) = true.
Proof.
  induction l as [|[k e] l IH]; [done|]. intros [_ Hl]%NoDup_cons. simpl.
  destruct (IH Hl) as [H1 H2]. split; [f_equal; apply H1|apply H2].
Qed.

Lemma keyed_rows b (l : list (string * Entry)) : concat (map keyed (map (row_dom b) l)) = l.*1.
Proof. induction l as [|[k e] l IH]; [done|]. simpl. by rewrite IH. Qed.

Lemma keyed_error_dom e : concat (map keyed (error_dom e)) = [].
Proof. unfold error_dom. by case_bool_decide. Qed.

(** The keyed elements of the page are the rows, keyed by their short key
    in [Object.keys] order. *)
Lemma render_dom_keyed b st : keyed (render_dom b st) = JsObj.keys (urlMap st).
Proof.
  unfold render_dom, page_dom, table_dom, el. cbn [keyed map concat app option_list].
  rewrite !map_app, !concat_app, keyed_error_dom. simpl.
  case_bool_decide as E.
  - apply View.keys_length_0 in E. by rewrite E.
  - cbn. rewrite keyed_rows. cbn [app]. by rewrite !app_nil_r.
Qed.

(** ** Theorems *)

(** C12 The page's handlers, in document order: the input's [onChange],
    the Shorten button, then for each key of [urlMap] in [Object.keys]
    order the anchor (which prevents the default navigation and opens the
    entry) and the Delete button.  The error paragraph, headings and
    texts carry no handler. *)
Theorem render_dom_handlers b st :
  handlers (render_dom b st) =
  OnChangeSetInput :: OnClick false EvShorten ::
    concat (map (λ k, [OnClick true (EvOpen k); OnClick false (EvDelete k)]) (JsObj.keys (urlMap st))).
Proof.
  unfold render_dom, page_dom, table_dom, el. cbn [handlers map concat app].
  rewrite !map_app, !concat_app, handlers_error_dom. simpl.
  case_bool_decide as E.
  - apply View.keys_length_0 in E. by rewrite E.
  - cbn. rewrite handlers_rows. cbn [app]. by rewrite !app_nil_r.
Qed.

(** C13 The anchors never navigate: the elements with an [href] are exactly
    the anchors of the rows, one per key in [Object.keys] order, each with
    a click handler that calls [e.preventDefault()] and then opens its
    key. *)
Theorem render_dom_links b st :
  links (render_dom b st) = map (λ k, Some (OnClick true (EvOpen k))) (JsObj.keys (urlMap st)) ∧
  ∀ oh, oh ∈ links (render_dom b st) → ∃ h k, oh = Some h ∧ fire h "" = (true, EvOpen k).
Proof.
  assert (links (render_dom b st) = map (λ k, Some (OnClick true (EvOpen k))) (JsObj.keys (urlMap st))) as Hl.
  { unfold render_dom, page_dom, table_dom, el. cbn [links map concat app].
    rewrite !map_app, !concat_app, links_error_dom. simpl.
    case_bool_decide as E.
    - apply View.keys_length_0 in E. by rewrite E.
    - cbn. rewrite links_rows. cbn [app]. by rewrite !app_nil_r. }
  split; [done|]. rewrite Hl. intros oh (k & -> & _)%list_elem_of_fmap. by exists (OnClick true (EvOpen k)), k.
Qed.

(** A store with distinct keys renders siblings with distinct keys. *)
Lemma render_dom_keys b st : JsObj.wf (urlMap st) → keys_distinct (render_dom b st) = true.
Proof.
  intros Hwf. pose proof (keys_rows b _ (JsObj.wf_entries _ Hwf)) as [Hk Hf].
  unfold render_dom, page_dom, table_dom, el, error_dom. case_bool_decide; case_bool_decide as E; simpl; rewrite ?Hk, ?Hf;
    rewrite ?bool_decide_eq_true_2 by apply JsObj.wf_entries, Hwf; done.
Qed.

(** C14 React's keys are well used in every reachable state: the keyed
    elements of the page are exactly the table rows, each keyed by its
    short key, in [Object.keys] order, and in every list of sibling
    elements no two share a [key], so React reconciles each row by the
    entry it shows. *)
Theorem reachable_dom_keys `{UrlParser} `{JsonCodec} rng b strict stor0 s :
  reachable rng strict stor0 s →
  keyed (render_dom b (ui s)) = JsObj.keys (urlMap (ui s)) ∧ keys_distinct (render_dom b (ui s)) = true.
Proof.
  intros Hr. apply (reachable_invariant rng (λ _, True) strict stor0) in Hr as [[Hwf _] _]; [|done..].
  split; [apply render_dom_keyed|by apply render_dom_keys].
Qed.

Lemma reachable_dom_keys_witness :
  (keyed (render_dom "http://localhost:3000" (ui Scenario.st_opened)) = [Scenario.k1] ∧
   keys_distinct (render_dom "http://localhost:3000" (ui Scenario.st_opened)) = true).
Proof.
  change [Scenario.k1] with (JsObj.keys (urlMap (ui Scenario.st_opened))).
  apply (reachable_dom_keys Scenario.demo_rng _ false ∅). apply Scenario.scenario_reachable.
Defined.

End Dom.
